(** * abridge: the serial bridge of the sipi_controller package

    A shallow embedding of [src/sipi_controller/src/abridge.cpp]: the
    setpoint limiter ([limit], [driveCommandHandler]), the duty computation
    ([calculateMotorCommands]), the gripper command encoders
    ([fingerAngleHandler], [wristAngleHandler]), the telemetry decoder
    ([parseData]) and the node around them: the serial timer
    ([serialActivityTimer], [publishRosTopics]), the heart beat, the mode
    and the callback loop [main] enters.

    C++ [float] and [double] are IEEE 754 binary32 and binary64, evaluated
    in their own format and rounded to nearest, ties to even; they are
    modelled with the executable specification [SpecFloat] of the standard
    library, every implicit conversion of the source written out.  The
    fields of the ROS messages have the types of their message definitions:
    [float64] in [geometry_msgs] and [nav_msgs], [float32] for
    [std_msgs/Float32] and the [range] of [sensor_msgs/Range]. *)

From Stdlib Require Import ZArith QArith Qabs List String Ascii Bool Lia.
From Stdlib Require Import Floats.SpecFloat.
From Stdlib Require Import DecimalString.
Import ListNotations.

Local Open Scope Z_scope.

(* ===================================================================== *)
(** ** IEEE 754 arithmetic: binary32 and binary64 *)
(* ===================================================================== *)

Module IEEE.

(** C++ [float]. *)
Definition float32 := spec_float.
(** C++ [double]. *)
Definition float64 := spec_float.

Definition prec32 : Z := 24.
Definition emax32 : Z := 128.
Definition prec64 : Z := 53.
Definition emax64 : Z := 1024.

(** Rounding of a finite or special value to a format:
    round to nearest, ties to even. *)
Definition round_to (prec emax : Z) (x : spec_float) : spec_float :=
  match x with
  | S754_finite s m e => binary_round prec emax s m e
  | _ => x
  end.

(** Implicit conversion [double] to [float] (rounds). *)
Definition to_float (x : float64) : float32 := round_to prec32 emax32 x.
(** Implicit conversion [float] to [double] (exact). *)
Definition to_double (x : float32) : float64 := round_to prec64 emax64 x.

(** Conversion of an [int] to [double] (exact for 32-bit values). *)
Definition of_int (z : Z) : float64 := binary_normalize prec64 emax64 z 0 false.

Definition add64 : float64 -> float64 -> float64 := SFadd prec64 emax64.
Definition sub64 : float64 -> float64 -> float64 := SFsub prec64 emax64.
Definition mul64 : float64 -> float64 -> float64 := SFmul prec64 emax64.
Definition div64 : float64 -> float64 -> float64 := SFdiv prec64 emax64.

(** [x < y] and [x > y] of C++; false as soon as an operand is NaN. *)
Definition ltb (x y : spec_float) : bool := SFltb x y.
Definition gtb (x y : spec_float) : bool := SFltb y x.

(** Unary minus. *)
Definition neg (x : spec_float) : spec_float := SFopp x.

(** The value [m * 10^e] ([m] a positive integer) rounded once to binary64:
    what a correctly rounding decimal reader returns. *)
Definition of_decimal (s : bool) (m : positive) (e : Z) : float64 :=
  match e with
  | Zneg k =>
      SFdiv prec64 emax64 (S754_finite s m 0)
            (S754_finite false (Pos.pow 10 k) 0)
  | _ => binary_round prec64 emax64 s (m * Z.to_pos (10 ^ e))%positive 0
  end.

(** The exact rational value of a finite floating-point number
    (0 for the special values). *)
Definition to_Q (x : spec_float) : Q :=
  match x with
  | S754_finite s m e =>
      let n := cond_Zopp s (Zpos m) in
      match e with
      | Zneg k => Qmake n (Pos.pow 2 k)
      | _ => Qmake (n * 2 ^ e) 1
      end
  | _ => 0%Q
  end.

Definition is_nan (x : spec_float) : bool :=
  match x with S754_nan => true | _ => false end.

Definition is_finite (x : spec_float) : bool :=
  match x with S754_zero _ | S754_finite _ _ _ => true | _ => false end.

(** Conversion [double] to [int]: truncation toward zero; undefined ([None])
    when the truncated value does not fit [int], or for NaN and infinities. *)
Definition trunc (x : float64) : Z :=
  match x with
  | S754_finite s m e =>
      cond_Zopp s (match e with
                   | Zneg k => Zpos m / Zpos (Pos.pow 2 k)
                   | _ => Zpos m * 2 ^ e
                   end)
  | _ => 0
  end.

Definition INT_MIN : Z := - 2 ^ 31.
Definition INT_MAX : Z := 2 ^ 31 - 1.

Definition in_int (z : Z) : bool := (INT_MIN <=? z) && (z <=? INT_MAX).

Definition to_int (x : float64) : option Z :=
  if is_finite x && in_int (trunc x) then Some (trunc x) else None.

End IEEE.

(* ===================================================================== *)
(** ** The C library functions the bridge calls *)
(* ===================================================================== *)

Module Libc.
Import IEEE.
Local Open Scope string_scope.
Local Open Scope Z_scope.

(** *** Character classes ("C" locale) *)

(** [isspace]: space, and the controls 9 to 13 (tab, newline, vertical tab, form feed,
    carriage return). *)
Definition isspace (c : ascii) : bool :=
  let n := Z.of_nat (nat_of_ascii c) in
  (n =? 32) || ((9 <=? n) && (n <=? 13)).

Definition digit_val (c : ascii) : option Z :=
  let n := Z.of_nat (nat_of_ascii c) in
  if (48 <=? n) && (n <=? 57) then Some (n - 48) else None.

Definition hex_val (c : ascii) : option Z :=
  let n := Z.of_nat (nat_of_ascii c) in
  if (48 <=? n) && (n <=? 57) then Some (n - 48)
  else if (97 <=? n) && (n <=? 102) then Some (n - 87)
  else if (65 <=? n) && (n <=? 70) then Some (n - 55)
  else None.

Definition tolower (c : ascii) : ascii :=
  let n := nat_of_ascii c in
  if (65 <=? n)%nat && (n <=? 90)%nat then ascii_of_nat (n + 32) else c.

(** *** [strtod] and [atof] *)

Fixpoint skip_space (s : string) : string :=
  match s with
  | String c r => if isspace c then skip_space r else s
  | EmptyString => s
  end.

(** Reads the longest run of digits in base [base]: the accumulated value,
    the number of digits read and the rest of the text. *)
Fixpoint read_digits (val : ascii -> option Z) (base : Z)
         (s : string) (acc n : Z) : Z * Z * string :=
  match s with
  | String c r =>
      match val c with
      | Some d => read_digits val base r (acc * base + d) (n + 1)
      | None => (acc, n, s)
      end
  | EmptyString => (acc, n, s)
  end.

(** Case-insensitive test that [s] starts with the lower-case word [w]. *)
Fixpoint starts_with_ci (w s : string) : bool :=
  match w, s with
  | EmptyString, _ => true
  | String a w', String c r => Ascii.eqb a (tolower c) && starts_with_ci w' r
  | String _ _, EmptyString => false
  end.

(** An optional sign: whether it is a minus, and the text after it. *)
Definition read_sign (s : string) : bool * string :=
  match s with
  | String c r =>
      if Ascii.eqb c "-" then (true, r)
      else if Ascii.eqb c "+" then (false, r)
      else (false, s)
  | EmptyString => (false, s)
  end.

(** An optional exponent part: the marker [mark] (given in lower case), an
    optional sign and at least one decimal digit.  Without a digit the
    exponent is not part of the number and counts as 0. *)
Definition read_exponent (mark : ascii) (s : string) : Z :=
  match s with
  | String c r =>
      if Ascii.eqb (tolower c) mark then
        let '(neg, r') := read_sign r in
        let '(e, n, _) := read_digits digit_val 10 r' 0 0 in
        if 0 <? n then (if neg then - e else e) else 0
      else 0
  | EmptyString => 0
  end.

(** Digits, an optional radix point, digits: the integer made of all the
    digits, how many of them follow the point, how many there are in all,
    and the rest of the text. *)
Definition read_mantissa (val : ascii -> option Z) (base : Z) (s : string)
  : Z * Z * Z * string :=
  let '(m1, n1, r1) := read_digits val base s 0 0 in
  match r1 with
  | String c r2 =>
      if Ascii.eqb c "." then
        let '(m2, n2, r3) := read_digits val base r2 m1 0 in
        (m2, n2, n1 + n2, r3)
      else (m1, 0, n1, r1)
  | EmptyString => (m1, 0, n1, r1)
  end.

(** The value [m * 2^e] rounded to binary64.  Far outside the range of the
    format the result is known without the rounding: an overflow gives an
    infinity, an underflow a zero. *)
Definition of_binary (s : bool) (m e : Z) : float64 :=
  match m with
  | Zpos p =>
      if 2000 <=? e then S754_infinity s
      else if e + Z.log2 m + 1 <=? -2000 then S754_zero s
      else binary_round prec64 emax64 s p e
  | _ => S754_zero s
  end.

(** The value [m * 10^e] rounded to binary64, with the same shortcuts:
    [m * 10^e < 10^(e + log2 m + 1)]. *)
Definition of_dec (s : bool) (m e : Z) : float64 :=
  match m with
  | Zpos p =>
      if 400 <=? e then S754_infinity s
      else if e + Z.log2 m + 1 <=? -400 then S754_zero s
      else of_decimal s p e
  | _ => S754_zero s
  end.

(** A hexadecimal number: [0x] followed by at least one hexadecimal digit,
    with an optional binary exponent. *)
Definition parse_hex (neg : bool) (s : string) : option float64 :=
  match s with
  | String c (String x r) =>
      if Ascii.eqb c "0" && Ascii.eqb (tolower x) "x" then
        let '(m, k, n, r') := read_mantissa hex_val 16 r in
        if 0 <? n then Some (of_binary neg m (read_exponent "p" r' - 4 * k))
        else None
      else None
  | _ => None
  end.

(** A decimal number: at least one digit, with an optional exponent. *)
Definition parse_decimal (neg : bool) (s : string) : option float64 :=
  let '(m, k, n, r') := read_mantissa digit_val 10 s in
  if 0 <? n then Some (of_dec neg m (read_exponent "e" r' - k)) else None.

(** The number after the optional sign: hexadecimal, else decimal, else
    [inf] or [nan] in any case; [None] when the text starts with none of
    these. *)
Definition parse_unsigned (neg : bool) (s : string) : option float64 :=
  match parse_hex neg s with
  | Some v => Some v
  | None =>
      match parse_decimal neg s with
      | Some v => Some v
      | None =>
          if starts_with_ci "inf" s then Some (S754_infinity neg)
          else if starts_with_ci "nan" s then Some S754_nan
          else None
      end
  end.

(** [strtod], the value only: [None] when no conversion can be performed. *)
Definition strtod (s : string) : option float64 :=
  let '(neg, r) := read_sign (skip_space s) in parse_unsigned neg r.

(** [atof(s)] is [strtod(s, NULL)]: 0.0 when no conversion is performed. *)
Definition atof (s : string) : float64 :=
  match strtod s with
  | Some v => v
  | None => S754_zero false
  end.

(** *** [sprintf]: the conversions [%d] and [%.4g] *)

(** [%d]. *)
Definition format_d (z : Z) : string := NilZero.string_of_int (Z.to_int z).

(** The decimal digits of a natural number. *)
Definition digits_of (z : Z) : string := NilZero.string_of_uint (N.to_uint (Z.to_N z)).

Fixpoint zeros (n : nat) : string :=
  match n with
  | O => ""
  | S n' => String "0" (zeros n')
  end.

(** Removes the trailing zeros of a fraction part. *)
Fixpoint strip_zeros (s : string) : string :=
  match s with
  | EmptyString => EmptyString
  | String c r =>
      match strip_zeros r with
      | EmptyString => if Ascii.eqb c "0" then EmptyString else String c EmptyString
      | r' => String c r'
      end
  end.

(** An integer part and a fraction part, the point left out when the
    fraction is empty (no [#] flag). *)
Definition with_fraction (ip fp : string) : string :=
  match strip_zeros fp with
  | EmptyString => ip
  | fp' => ip ++ "." ++ fp'
  end.

(** [a / b] rounded to the nearest integer, ties to even ([b > 0]). *)
Definition div_nearest_even (a b : Z) : Z :=
  let q := a / b in
  match 2 * (a mod b) ?= b with
  | Lt => q
  | Gt => q + 1
  | Eq => if Z.even q then q else q + 1
  end.

(** The number of decimal digits of [q >= 1], minus one. *)
Fixpoint log10_floor (fuel : nat) (q : Z) : Z :=
  match fuel with
  | O => 0
  | S f => if q <? 10 then 0 else 1 + log10_floor f (q / 10)
  end.

(** The least [k >= 1] with [n * 10^k >= d], for [0 < n < d]. *)
Fixpoint first_digit_pos (fuel : nat) (n d : Z) : Z :=
  match fuel with
  | O => 1
  | S f => if d <=? n * 10 then 1 else 1 + first_digit_pos f (n * 10) d
  end.

(** The decimal exponent [X] of the positive rational [n / d]:
    [10^X <= n / d < 10^(X+1)]. *)
Definition exponent10 (n d : Z) : Z :=
  if d <=? n then log10_floor (Z.to_nat (Z.log2 (n / d)) + 1) (n / d)
  else - first_digit_pos (Z.to_nat (Z.log2 d) + 1) n d.

(** [n / d * 10^k] rounded to the nearest integer, ties to even. *)
Definition scaled_digits (n d k : Z) : Z :=
  if 0 <=? k then div_nearest_even (n * 10 ^ k) d
  else div_nearest_even n (d * 10 ^ (- k)).

(** The exponent of the [e] style: a sign and at least two digits. *)
Definition format_exp (X : Z) : string :=
  "e" ++ (if X <? 0 then "-" else "+")
      ++ (if Z.abs X <? 10 then "0" else "") ++ digits_of (Z.abs X).

(** [%.Pg] of the positive rational [n / d], [P >= 1]: [P] significant
    digits; style [f] when the decimal exponent [X] of the rounded value
    satisfies [-4 <= X < P], style [e] otherwise; trailing zeros removed. *)
Definition format_g_pos (P : Z) (n d : Z) : string :=
  let X0 := exponent10 n d in
  let D0 := scaled_digits n d (P - 1 - X0) in
  let '(D, X) := if 10 ^ P <=? D0 then (D0 / 10, X0 + 1) else (D0, X0) in
  let ds := digits_of D in
  if (-4 <=? X) && (X <? P) then
    if 0 <=? X then
      with_fraction (substring 0 (Z.to_nat (X + 1)) ds)
                    (substring (Z.to_nat (X + 1)) (Z.to_nat (P - 1 - X)) ds)
    else
      with_fraction "0" (zeros (Z.to_nat (- X - 1)) ++ ds)
  else
    with_fraction (substring 0 1 ds) (substring 1 (Z.to_nat (P - 1)) ds)
      ++ format_exp X.

(** [%.Pg] of a [double]. *)
Definition format_g (P : Z) (x : float64) : string :=
  match x with
  | S754_nan => "nan"
  | S754_infinity s => if s then "-inf" else "inf"
  | S754_zero s => if s then "-0" else "0"
  | S754_finite s m e =>
      (if s then "-" else "") ++
      match e with
      | Zneg k => format_g_pos P (Zpos m) (Zpos (Pos.pow 2 k))
      | _ => format_g_pos P (Zpos m * 2 ^ e) 1
      end
  end.

End Libc.

(* ===================================================================== *)
(** ** The ROS messages held in the globals *)
(* ===================================================================== *)

Module Ros.
Import IEEE.

(** [ros::Time], in nanoseconds. *)
Definition Time := Z.

(** [std_msgs/Header]; [seq] is never written by the bridge and is left out. *)
Record Header := { stamp : Time; frame_id : string }.

(** [geometry_msgs/Vector3] and [geometry_msgs/Point]: three [float64]. *)
Record Vector3 := { x : float64; y : float64; z : float64 }.

(** [geometry_msgs/Quaternion].  The bridge only ever default-constructs a
    quaternion or receives one from [tf]'s [setRPY]; the trigonometry of
    [setRPY] is kept symbolic. *)
Inductive Quaternion :=
| QuaternionXYZW (qx qy qz qw : float64)
| QuaternionRPY (roll pitch yaw : float64).

Definition createQuaternionMsgFromRollPitchYaw (roll pitch yaw : float64)
  : Quaternion := QuaternionRPY roll pitch yaw.

Definition createQuaternionMsgFromYaw (yaw : float64) : Quaternion :=
  QuaternionRPY (S754_zero false) (S754_zero false) yaw.

Record QuaternionStamped := { qs_header : Header; quaternion : Quaternion }.

Record Twist := { linear : Vector3; angular : Vector3 }.

(** [sensor_msgs/Imu], without the covariance arrays (never written). *)
Record Imu := {
  imu_header : Header;
  orientation : Quaternion;
  angular_velocity : Vector3;
  linear_acceleration : Vector3
}.

(** [geometry_msgs/Pose]. *)
Record Pose := { position : Vector3; pose_orientation : Quaternion }.

(** [nav_msgs/Odometry], without the covariance arrays (never written);
    [pose] stands for [pose.pose] and [twist] for [twist.twist]. *)
Record Odometry := {
  odom_header : Header;
  child_frame_id : string;
  pose : Pose;
  twist : Twist
}.

(** [sensor_msgs/Range]: [range] is a [float32]; the sensor description
    fields are never written and are left out. *)
Record Range := { range_header : Header; range : float32 }.

(** Default-constructed messages. *)
Definition zero : float64 := S754_zero false.
Definition Header0 : Header := {| stamp := 0; frame_id := "" |}.
Definition Vector3_0 : Vector3 := {| x := zero; y := zero; z := zero |}.
Definition Quaternion0 : Quaternion := QuaternionXYZW zero zero zero zero.
Definition QuaternionStamped0 : QuaternionStamped :=
  {| qs_header := Header0; quaternion := Quaternion0 |}.
Definition Twist0 : Twist := {| linear := Vector3_0; angular := Vector3_0 |}.
Definition Imu0 : Imu :=
  {| imu_header := Header0; orientation := Quaternion0;
     angular_velocity := Vector3_0; linear_acceleration := Vector3_0 |}.
Definition Odometry0 : Odometry :=
  {| odom_header := Header0; child_frame_id := "";
     pose := {| position := Vector3_0; pose_orientation := Quaternion0 |};
     twist := Twist0 |}.
Definition Range0 : Range := {| range_header := Header0; range := zero |}.

(** Field assignments. *)
Definition set_stamp (t : Time) (h : Header) : Header :=
  {| stamp := t; frame_id := frame_id h |}.
Definition set_x (v : float64) (p : Vector3) : Vector3 :=
  {| x := v; y := y p; z := z p |}.
Definition set_y (v : float64) (p : Vector3) : Vector3 :=
  {| x := x p; y := v; z := z p |}.
Definition set_z (v : float64) (p : Vector3) : Vector3 :=
  {| x := x p; y := y p; z := v |}.
Definition set_linear (f : Vector3 -> Vector3) (t : Twist) : Twist :=
  {| linear := f (linear t); angular := angular t |}.
Definition set_angular (f : Vector3 -> Vector3) (t : Twist) : Twist :=
  {| linear := linear t; angular := f (angular t) |}.

End Ros.

(* ===================================================================== *)
(** ** abridge.cpp *)
(* ===================================================================== *)

Module ABridge.
Import IEEE Libc Ros.
Local Open Scope string_scope.
Local Open Scope Z_scope.

(** *** Constants *)

(** [#define MAX_LIN_VEL_CMD 0.3], a [double] literal. *)
Definition MAX_LIN_VEL_CMD : float64 := Eval vm_compute in atof "0.3".
(** [#define MAX_ANG_VEL_CMD 0.5]. *)
Definition MAX_ANG_VEL_CMD : float64 := Eval vm_compute in atof "0.5".
(** [#define MAX_MOTOR_CMD 120]. *)
Definition MAX_MOTOR_CMD : Z := 120.

(** *** Globals *)

(** The file-scope variables the handlers read and write.  [usb_sent] is
    the sequence of strings handed to [usb.sendData], oldest first. *)
Record Globals := {
  fingerAngle : QuaternionStamped;
  wristAngle : QuaternionStamped;
  cmd_vel_msg : Twist;
  imu : Imu;
  odom : Odometry;
  sonarLeft : Range;
  sonarCenter : Range;
  sonarRight : Range;
  currentMode : Z;
  usb_sent : list string
}.

(** The globals at program start. *)
Definition Globals0 : Globals := {|
  fingerAngle := QuaternionStamped0;
  wristAngle := QuaternionStamped0;
  cmd_vel_msg := Twist0;
  imu := Imu0;
  odom := Odometry0;
  sonarLeft := Range0;
  sonarCenter := Range0;
  sonarRight := Range0;
  currentMode := 0;
  usb_sent := []
|}.

Definition with_fingerAngle (f : QuaternionStamped -> QuaternionStamped)
           (g : Globals) : Globals :=
  {| fingerAngle := f (fingerAngle g); wristAngle := wristAngle g;
     cmd_vel_msg := cmd_vel_msg g; imu := imu g; odom := odom g;
     sonarLeft := sonarLeft g; sonarCenter := sonarCenter g;
     sonarRight := sonarRight g; currentMode := currentMode g;
     usb_sent := usb_sent g |}.

Definition with_wristAngle (f : QuaternionStamped -> QuaternionStamped)
           (g : Globals) : Globals :=
  {| fingerAngle := fingerAngle g; wristAngle := f (wristAngle g);
     cmd_vel_msg := cmd_vel_msg g; imu := imu g; odom := odom g;
     sonarLeft := sonarLeft g; sonarCenter := sonarCenter g;
     sonarRight := sonarRight g; currentMode := currentMode g;
     usb_sent := usb_sent g |}.

Definition with_cmd_vel_msg (f : Twist -> Twist) (g : Globals) : Globals :=
  {| fingerAngle := fingerAngle g; wristAngle := wristAngle g;
     cmd_vel_msg := f (cmd_vel_msg g); imu := imu g; odom := odom g;
     sonarLeft := sonarLeft g; sonarCenter := sonarCenter g;
     sonarRight := sonarRight g; currentMode := currentMode g;
     usb_sent := usb_sent g |}.

Definition with_imu (f : Imu -> Imu) (g : Globals) : Globals :=
  {| fingerAngle := fingerAngle g; wristAngle := wristAngle g;
     cmd_vel_msg := cmd_vel_msg g; imu := f (imu g); odom := odom g;
     sonarLeft := sonarLeft g; sonarCenter := sonarCenter g;
     sonarRight := sonarRight g; currentMode := currentMode g;
     usb_sent := usb_sent g |}.

Definition with_odom (f : Odometry -> Odometry) (g : Globals) : Globals :=
  {| fingerAngle := fingerAngle g; wristAngle := wristAngle g;
     cmd_vel_msg := cmd_vel_msg g; imu := imu g; odom := f (odom g);
     sonarLeft := sonarLeft g; sonarCenter := sonarCenter g;
     sonarRight := sonarRight g; currentMode := currentMode g;
     usb_sent := usb_sent g |}.

Definition with_sonarLeft (f : Range -> Range) (g : Globals) : Globals :=
  {| fingerAngle := fingerAngle g; wristAngle := wristAngle g;
     cmd_vel_msg := cmd_vel_msg g; imu := imu g; odom := odom g;
     sonarLeft := f (sonarLeft g); sonarCenter := sonarCenter g;
     sonarRight := sonarRight g; currentMode := currentMode g;
     usb_sent := usb_sent g |}.

Definition with_sonarCenter (f : Range -> Range) (g : Globals) : Globals :=
  {| fingerAngle := fingerAngle g; wristAngle := wristAngle g;
     cmd_vel_msg := cmd_vel_msg g; imu := imu g; odom := odom g;
     sonarLeft := sonarLeft g; sonarCenter := f (sonarCenter g);
     sonarRight := sonarRight g; currentMode := currentMode g;
     usb_sent := usb_sent g |}.

Definition with_sonarRight (f : Range -> Range) (g : Globals) : Globals :=
  {| fingerAngle := fingerAngle g; wristAngle := wristAngle g;
     cmd_vel_msg := cmd_vel_msg g; imu := imu g; odom := odom g;
     sonarLeft := sonarLeft g; sonarCenter := sonarCenter g;
     sonarRight := f (sonarRight g); currentMode := currentMode g;
     usb_sent := usb_sent g |}.

Definition with_currentMode (m : Z) (g : Globals) : Globals :=
  {| fingerAngle := fingerAngle g; wristAngle := wristAngle g;
     cmd_vel_msg := cmd_vel_msg g; imu := imu g; odom := odom g;
     sonarLeft := sonarLeft g; sonarCenter := sonarCenter g;
     sonarRight := sonarRight g; currentMode := m;
     usb_sent := usb_sent g |}.

(** [usb.sendData(cmd)]. *)
Definition sendData (cmd : string) (g : Globals) : Globals :=
  {| fingerAngle := fingerAngle g; wristAngle := wristAngle g;
     cmd_vel_msg := cmd_vel_msg g; imu := imu g; odom := odom g;
     sonarLeft := sonarLeft g; sonarCenter := sonarCenter g;
     sonarRight := sonarRight g; currentMode := currentMode g;
     usb_sent := (usb_sent g ++ [cmd])%list |}.

(** Assignments inside the messages. *)
Definition qs_set_stamp (t : Time) (q : QuaternionStamped) : QuaternionStamped :=
  {| qs_header := set_stamp t (qs_header q); quaternion := quaternion q |}.
Definition qs_set_quaternion (v : Quaternion) (q : QuaternionStamped)
  : QuaternionStamped :=
  {| qs_header := qs_header q; quaternion := v |}.

Definition imu_set_stamp (t : Time) (i : Imu) : Imu :=
  {| imu_header := set_stamp t (imu_header i); orientation := orientation i;
     angular_velocity := angular_velocity i;
     linear_acceleration := linear_acceleration i |}.
Definition imu_set_orientation (q : Quaternion) (i : Imu) : Imu :=
  {| imu_header := imu_header i; orientation := q;
     angular_velocity := angular_velocity i;
     linear_acceleration := linear_acceleration i |}.
Definition imu_set_angular_velocity (f : Vector3 -> Vector3) (i : Imu) : Imu :=
  {| imu_header := imu_header i; orientation := orientation i;
     angular_velocity := f (angular_velocity i);
     linear_acceleration := linear_acceleration i |}.
Definition imu_set_linear_acceleration (f : Vector3 -> Vector3) (i : Imu) : Imu :=
  {| imu_header := imu_header i; orientation := orientation i;
     angular_velocity := angular_velocity i;
     linear_acceleration := f (linear_acceleration i) |}.

Definition odom_set_stamp (t : Time) (o : Odometry) : Odometry :=
  {| odom_header := set_stamp t (odom_header o);
     child_frame_id := child_frame_id o; pose := pose o; twist := twist o |}.
Definition odom_set_position (f : Vector3 -> Vector3) (o : Odometry) : Odometry :=
  {| odom_header := odom_header o; child_frame_id := child_frame_id o;
     pose := {| position := f (position (pose o));
                pose_orientation := pose_orientation (pose o) |};
     twist := twist o |}.
Definition odom_set_orientation (q : Quaternion) (o : Odometry) : Odometry :=
  {| odom_header := odom_header o; child_frame_id := child_frame_id o;
     pose := {| position := position (pose o); pose_orientation := q |};
     twist := twist o |}.
Definition odom_set_twist (f : Twist -> Twist) (o : Odometry) : Odometry :=
  {| odom_header := odom_header o; child_frame_id := child_frame_id o;
     pose := pose o; twist := f (twist o) |}.

Definition range_set_stamp (t : Time) (r : Range) : Range :=
  {| range_header := set_stamp t (range_header r); range := range r |}.
Definition range_set_range (v : float32) (r : Range) : Range :=
  {| range_header := range_header r; range := v |}.

(** *** Statements that may throw *)

(** The one exception the file can raise: [std::out_of_range], from
    [vector::at]. *)
Inductive exn := out_of_range.

Inductive result (A : Type) :=
| Normal (a : A)
| Throw (e : exn).
Arguments Normal {A} a.
Arguments Throw {A} e.

(** A statement: from the globals before it to its outcome and the globals
    after it.  What was written before a throw stays written. *)
Definition Stmt (A : Type) := Globals -> result A * Globals.

Definition ret {A} (a : A) : Stmt A := fun g => (Normal a, g).

Definition bind {A B} (m : Stmt A) (k : A -> Stmt B) : Stmt B :=
  fun g =>
    match m g with
    | (Normal a, g') => k a g'
    | (Throw e, g') => (Throw e, g')
    end.

(** An assignment to the globals. *)
Definition assign (f : Globals -> Globals) : Stmt unit :=
  fun g => (Normal tt, f g).

(** [v.at(i)]. *)
Definition at_ (v : list string) (i : nat) : Stmt string :=
  fun g =>
    match nth_error v i with
    | Some w => (Normal w, g)
    | None => (Throw out_of_range, g)
    end.

Notation "x <- m ;; k" := (bind m (fun x => k))
  (at level 61, m at next level, right associativity).
Notation "m ;;; k" := (bind m (fun _ => k))
  (at level 61, right associativity).

(** *** [limit] and [driveCommandHandler] *)

(** [float limit(float val, float max)]. *)
Definition limit (val max : float32) : float32 :=
  if gtb val max then max
  else if ltb val (neg max) then neg max
  else val.

(** [driveCommandHandler]: the message is copied whole, then [linear.x] and
    [angular.z] are overwritten.  The fields are [double]; both arguments
    of [limit] are converted to [float] and its result back to [double].
    Both calls pass [MAX_LIN_VEL_CMD]. *)
Definition driveCommandHandler (message : Twist) (g : Globals) : Globals :=
  let g1 := with_cmd_vel_msg (fun _ => message) g in
  let g2 :=
    with_cmd_vel_msg
      (set_linear (set_x (to_double
         (limit (to_float (x (linear (cmd_vel_msg g1))))
                (to_float MAX_LIN_VEL_CMD))))) g1 in
  with_cmd_vel_msg
    (set_angular (set_z (to_double
       (limit (to_float (z (angular (cmd_vel_msg g2))))
              (to_float MAX_LIN_VEL_CMD))))) g2.

(** *** [calculateMotorCommands] *)

(** [int] subtraction and addition; signed overflow is undefined. *)
Definition int_sub (a b : Z) : option Z :=
  if in_int (a - b) then Some (a - b) else None.
Definition int_add (a b : Z) : option Z :=
  if in_int (a + b) then Some (a + b) else None.

(** [float Kp = 10]. *)
Definition Kp : float32 := to_float (of_int 10).

(** The arithmetic of [calculateMotorCommands]: [(motor_left, motor_right)],
    or [None] where the C++ has no defined result (a product that does not
    fit [int], or an [int] overflow). *)
Definition motor_duties (g : Globals) : option (Z * Z) :=
  let err_linear_x :=
    sub64 (x (linear (twist (odom g)))) (x (linear (cmd_vel_msg g))) in
  let err_angular_z :=
    sub64 (z (angular (twist (odom g)))) (z (angular (cmd_vel_msg g))) in
  match to_int (mul64 err_linear_x (to_double Kp)),
        to_int (mul64 err_angular_z (to_double Kp)) with
  | Some vx, Some vz =>
      match int_sub vx vz, int_add vx vz with
      | Some motor_left, Some motor_right => Some (motor_left, motor_right)
      | _, _ => None
      end
  | _, _ => None
  end.

(** [sprintf(moveCmd, "v,%d,%d\n", motor_left, motor_right)]. *)
Definition format_moveCmd (motor_left motor_right : Z) : string :=
  "v," ++ format_d motor_left ++ "," ++ format_d motor_right
       ++ String "010" "".

(** [calculateMotorCommands]: [None] where the behaviour is undefined;
    [moveCmd] is a [char[16]], so the text and its terminator must fit. *)
Definition calculateMotorCommands (g : Globals) : option Globals :=
  match motor_duties g with
  | Some (motor_left, motor_right) =>
      let moveCmd := format_moveCmd motor_left motor_right in
      if (String.length moveCmd <? 16)%nat then Some (sendData moveCmd g)
      else None
  | None => None
  end.

(** *** [fingerAngleHandler] and [wristAngleHandler] *)

(** The [double] literal [0.01]. *)
Definition small_angle : float64 := Eval vm_compute in atof "0.01".

(** The text written to [cmd] for the joint [tag]: the [float] angle is
    promoted to [double] for the comparison and for [%.4g]. *)
Definition angle_cmd (tag : string) (angle : float32) : string :=
  if ltb (to_double angle) small_angle
  then tag ++ ",0" ++ String "010" ""
  else tag ++ "," ++ format_g 4 (to_double angle) ++ String "010" "".

Definition fingerAngleHandler (angle : float32) (g : Globals) : Globals :=
  sendData (angle_cmd "f" angle) g.

Definition wristAngleHandler (angle : float32) (g : Globals) : Globals :=
  sendData (angle_cmd "w" angle) g.

(** *** [parseData] *)

(** [while (getline(in, word, delim)) out.push_back(word)]: the pieces
    between the delimiters.  [getline] fails, and the loop ends, when it
    extracts nothing at all, so an empty piece after the last delimiter is
    not produced. *)
Fixpoint getlines_from (delim : ascii) (s : string) (word : string)
  : list string :=
  match s with
  | EmptyString =>
      match word with
      | EmptyString => []
      | _ => [word]
      end
  | String c r =>
      if Ascii.eqb c delim then word :: getlines_from delim r ""
      else getlines_from delim r (word ++ String c "")
  end.

Definition getlines (delim : ascii) (s : string) : list string :=
  getlines_from delim s "".

(** [dataSet.at(0) == tag]. *)
Definition tag_is (dataSet : list string) (tag : string) : Stmt bool :=
  w <- at_ dataSet 0 ;; ret (String.eqb w tag).

(** [atof(dataSet.at(i).c_str())]. *)
Definition field (dataSet : list string) (i : nat) : Stmt float64 :=
  w <- at_ dataSet i ;; ret (atof w).

(** The [double] literal [100.0]. *)
Definition hundred : float64 := Eval vm_compute in atof "100.0".

Definition parseGRF (now : Time) (dataSet : list string) : Stmt unit :=
  assign (with_fingerAngle (qs_set_stamp now)) ;;;
  roll <- field dataSet 2 ;;
  assign (with_fingerAngle (qs_set_quaternion
    (createQuaternionMsgFromRollPitchYaw roll zero zero))).

Definition parseGRW (now : Time) (dataSet : list string) : Stmt unit :=
  assign (with_wristAngle (qs_set_stamp now)) ;;;
  roll <- field dataSet 2 ;;
  assign (with_wristAngle (qs_set_quaternion
    (createQuaternionMsgFromRollPitchYaw roll zero zero))).

Definition parseIMU (now : Time) (dataSet : list string) : Stmt unit :=
  assign (with_imu (imu_set_stamp now)) ;;;
  ax <- field dataSet 2 ;;
  assign (with_imu (imu_set_linear_acceleration (set_x ax))) ;;;
  assign (with_imu (imu_set_linear_acceleration (set_y (of_int 0)))) ;;;
  az <- field dataSet 4 ;;
  assign (with_imu (imu_set_linear_acceleration (set_z az))) ;;;
  wx <- field dataSet 5 ;;
  assign (with_imu (imu_set_angular_velocity (set_x wx))) ;;;
  wy <- field dataSet 6 ;;
  assign (with_imu (imu_set_angular_velocity (set_y wy))) ;;;
  wz <- field dataSet 7 ;;
  assign (with_imu (imu_set_angular_velocity (set_z wz))) ;;;
  roll <- field dataSet 8 ;;
  pitch <- field dataSet 9 ;;
  yaw <- field dataSet 10 ;;
  assign (with_imu (imu_set_orientation
    (createQuaternionMsgFromRollPitchYaw roll pitch yaw))).

Definition parseODOM (now : Time) (dataSet : list string) : Stmt unit :=
  assign (with_odom (odom_set_stamp now)) ;;;
  dx <- field dataSet 2 ;;
  assign (with_odom (odom_set_position
    (fun p => set_x (add64 (x p) (div64 dx hundred)) p))) ;;;
  dy <- field dataSet 3 ;;
  assign (with_odom (odom_set_position
    (fun p => set_y (add64 (y p) (div64 dy hundred)) p))) ;;;
  assign (with_odom (odom_set_position (set_z zero))) ;;;
  yaw <- field dataSet 4 ;;
  assign (with_odom (odom_set_orientation (createQuaternionMsgFromYaw yaw))) ;;;
  vx <- field dataSet 5 ;;
  assign (with_odom (odom_set_twist (set_linear (set_x (div64 vx hundred))))) ;;;
  vy <- field dataSet 6 ;;
  assign (with_odom (odom_set_twist (set_linear (set_y (div64 vy hundred))))) ;;;
  wz <- field dataSet 7 ;;
  assign (with_odom (odom_set_twist (set_angular (set_z wz)))).

(** The three sonar branches differ in the global they write only. *)
Definition parseSonar (with_sonar : (Range -> Range) -> Globals -> Globals)
           (now : Time) (dataSet : list string) : Stmt unit :=
  assign (with_sonar (range_set_stamp now)) ;;;
  d <- field dataSet 2 ;;
  assign (with_sonar (range_set_range (to_float (div64 d hundred)))).

(** What the loop body does with the fields of one sentence: the guard on
    the field count and the validity flag, then the chain of tag tests.
    [now] is what [ros::Time::now()] returns while it runs. *)
Definition parseFields (now : Time) (dataSet : list string) : Stmt unit :=
  if (3 <=? List.length dataSet)%nat then
    flag <- at_ dataSet 1 ;;
    if String.eqb flag "1" then
      b <- tag_is dataSet "GRF" ;;
      if b then parseGRF now dataSet else
      b <- tag_is dataSet "GRW" ;;
      if b then parseGRW now dataSet else
      b <- tag_is dataSet "IMU" ;;
      if b then parseIMU now dataSet else
      b <- tag_is dataSet "ODOM" ;;
      if b then parseODOM now dataSet else
      b <- tag_is dataSet "USL" ;;
      if b then parseSonar with_sonarLeft now dataSet else
      b <- tag_is dataSet "USC" ;;
      if b then parseSonar with_sonarCenter now dataSet else
      b <- tag_is dataSet "USR" ;;
      if b then parseSonar with_sonarRight now dataSet else
      ret tt
    else ret tt
  else ret tt.

(** The body of the outer loop for one [sentence]: split on commas, then
    decode. *)
Definition parseSentence (now : Time) (sentence : string) : Stmt unit :=
  parseFields now (getlines "," sentence).

(** The outer loop; [clock i] is the time while sentence [i] is decoded. *)
Fixpoint parseSentences (clock : nat -> Time) (i : nat)
         (sentences : list string) : Stmt unit :=
  match sentences with
  | [] => ret tt
  | sentence :: rest =>
      parseSentence (clock i) sentence ;;;
      parseSentences clock (S i) rest
  end.

(** [void parseData(string str)]. *)
Definition parseData (clock : nat -> Time) (str : string) : Stmt unit :=
  parseSentences clock 0 (getlines "010" str).

(** [modeHandler]. *)
Definition modeHandler (message : Z) (g : Globals) : Globals :=
  with_currentMode message g.

End ABridge.

(* ===================================================================== *)
(** ** Vocabulary of the statements *)
(* ===================================================================== *)

Module Wire.
Import IEEE Libc Ros ABridge.
Local Open Scope string_scope.

(** [0.3] as [limit] receives it: rounded to [float]. *)
Definition lin_bound : float32 := to_float MAX_LIN_VEL_CMD.

(** The [float] bound as the [double] field holds it, 0.300000011920929,
    and a finite [double] whose value lies between its opposite and it. *)
Definition stored_bound : float64 := to_double lin_bound.

Definition within_bound (v : float64) : Prop :=
  is_finite v = true /\
  (- to_Q stored_bound <= to_Q v)%Q /\ (to_Q v <= to_Q stored_bound)%Q.

(** A setpoint with the given [linear.x] and [angular.z], zero elsewhere. *)
Definition setpoint (lx az : float64) : Twist :=
  {| linear := {| x := lx; y := zero; z := zero |};
     angular := {| x := zero; y := zero; z := az |} |}.

(** The tags [parseData] compares the first field with. *)
Definition tags : list string :=
  ["GRF"; "GRW"; "IMU"; "ODOM"; "USL"; "USC"; "USR"].

Definition recognized (tag : string) : bool := existsb (String.eqb tag) tags.

(** The fields of a sentence the loop body does nothing with: fewer than
    three, a second field other than [1], or a first field that is no
    tag. *)
Definition malformed (dataSet : list string) : Prop :=
  (List.length dataSet < 3)%nat \/
  nth_error dataSet 1 <> Some "1" \/
  (forall tag, nth_error dataSet 0 = Some tag -> recognized tag = false).

(** The line feed, and a text ended by it. *)
Definition LF : string := String "010" "".
Definition line (s : string) : string := s ++ LF.

(** The number of fields the branch of a tag reads: one more than the
    highest index it passes to [at]. *)
Definition fields_read (tag : string) : nat :=
  if String.eqb tag "IMU" then 11
  else if String.eqb tag "ODOM" then 8
  else 3.

(** The time stamp of the message the branch of a tag writes. *)
Definition stamp_of (tag : string) (g : Globals) : Time :=
  if String.eqb tag "GRF" then stamp (qs_header (fingerAngle g))
  else if String.eqb tag "GRW" then stamp (qs_header (wristAngle g))
  else if String.eqb tag "IMU" then stamp (imu_header (imu g))
  else if String.eqb tag "ODOM" then stamp (odom_header (odom g))
  else if String.eqb tag "USL" then stamp (range_header (sonarLeft g))
  else if String.eqb tag "USC" then stamp (range_header (sonarCenter g))
  else stamp (range_header (sonarRight g)).

Definition is_digit (c : ascii) : bool :=
  match digit_val c with Some _ => true | None => false end.

(** A text [strtod] can convert: after white space and an optional sign
    comes a digit, a point and a digit, [inf] or [nan]. *)
Definition starts_number (w : string) : bool :=
  let body := snd (read_sign (skip_space w)) in
  match body with
  | String c r =>
      is_digit c ||
      (Ascii.eqb c "." &&
       match r with String d _ => is_digit d | EmptyString => false end)
  | EmptyString => false
  end || starts_with_ci "inf" body || starts_with_ci "nan" body.

Definition unparsable (w : string) : bool := negb (starts_number w).

(** The field with an unparsable text replaced by [0.0]. *)
Definition zero_unparsable (w : string) : string :=
  if unparsable w then "0.0" else w.

(** The globals with the given observed velocities in [odom.twist]. *)
Definition observing (vx wz : float64) (g : Globals) : Globals :=
  with_odom (odom_set_twist (fun _ => setpoint vx wz)) g.

(** The globals with the given setpoint in [cmd_vel_msg]. *)
Definition commanded (vx wz : float64) (g : Globals) : Globals :=
  with_cmd_vel_msg (fun _ => setpoint vx wz) g.

(** What [k] steps do: floor division by [2^k], the rounding bit being bit
    [k - 1]. *)
Definition shifted (k : Z) (mrs mrs' : shr_record) : Prop :=
  shr_m mrs' = shr_m mrs / 2 ^ k /\
  shr_r mrs' = Z.testbit (shr_m mrs) (k - 1).

(** Below zero: negative finite values and minus infinity. *)
Definition negative (a : spec_float) : bool :=
  match a with
  | S754_finite true _ _ | S754_infinity true => true
  | _ => false
  end.

End Wire.

(* ===================================================================== *)
(** ** The node: timers, publications and the callback loop *)
(* ===================================================================== *)

Module Node.
Import IEEE Libc Ros ABridge Wire.
Local Open Scope string_scope.

(** [char dataCmd[] = "d\n"]. *)
Definition dataCmd : string := String "d" (String "010" "").

(** What the node hands to its publishers, by publisher. *)
Inductive Publication :=
| fingerAnglePublish (m : QuaternionStamped)
| wristAnglePublish (m : QuaternionStamped)
| imuPublish (m : Imu)
| odomPublish (m : Odometry)
| sonarLeftPublish (m : Range)
| sonarCenterPublish (m : Range)
| sonarRightPublish (m : Range)
| heartbeatPublisher (data : string).

(** The globals and the sequence of publications so far, oldest first. *)
Record World := { globals : Globals; published : list Publication }.

Definition publish (p : Publication) (w : World) : World :=
  {| globals := globals w; published := (published w ++ [p])%list |}.

Definition on_globals (f : Globals -> Globals) (w : World) : World :=
  {| globals := f (globals w); published := published w |}.

(** [publishRosTopics]. *)
Definition publishRosTopics (w : World) : World :=
  let g := globals w in
  publish (sonarRightPublish (sonarRight g))
    (publish (sonarCenterPublish (sonarCenter g))
      (publish (sonarLeftPublish (sonarLeft g))
        (publish (odomPublish (odom g))
          (publish (imuPublish (imu g))
            (publish (wristAnglePublish (wristAngle g))
              (publish (fingerAnglePublish (fingerAngle g)) w)))))).

(** [publishHeartBeatTimerEventHandler]: a message with the empty string. *)
Definition publishHeartBeatTimerEventHandler (w : World) : World :=
  publish (heartbeatPublisher "") w.

(** How a callback ends: it returns, an exception leaves it (nothing in the
    file catches one), or its behaviour is undefined. *)
Inductive outcome :=
| Returned (w : World)
| Uncaught (e : exn) (w : World)
| Undefined.

(** [serialActivityTimer].  [data] is what [usb.readData()] returns and
    [clock] the times read while it is decoded. *)
Definition serialActivityTimer (clock : nat -> Time) (data : string)
           (w : World) : outcome :=
  let w1 := on_globals (sendData dataCmd) w in
  match parseData clock data (globals w1) with
  | (Throw e, g2) => Uncaught e (on_globals (fun _ => g2) w1)
  | (Normal _, g2) =>
      let w3 := publishRosTopics (on_globals (fun _ => g2) w1) in
      match calculateMotorCommands (globals w3) with
      | Some g4 => Returned (on_globals (fun _ => g4) w3)
      | None => Undefined
      end
  end.

(** The name the node publishes under: [argv[1]] when there is one, the
    host name otherwise. *)
Definition publishedName (hostname : string) (argv : list string) : string :=
  match argv with
  | _ :: name :: _ => name
  | _ => hostname
  end.

Definition set_frame_id (f : string) (h : Header) : Header :=
  {| stamp := stamp h; frame_id := f |}.

(** The globals when [main] reaches [ros::spin()]: the frame names are
    written once. *)
Definition main_globals (hostname : string) (argv : list string) : Globals :=
  let name := publishedName hostname argv in
  with_odom (fun o =>
      {| odom_header := set_frame_id (name ++ "/odom") (odom_header o);
         child_frame_id := name ++ "/base_link";
         pose := pose o; twist := twist o |})
    (with_imu (fun i =>
      {| imu_header := set_frame_id (name ++ "/base_link") (imu_header i);
         orientation := orientation i;
         angular_velocity := angular_velocity i;
         linear_acceleration := linear_acceleration i |}) Globals0).

Definition main_world (hostname : string) (argv : list string) : World :=
  {| globals := main_globals hostname argv; published := [] |}.

(** What [ros::spin()] takes off the callback queue: a message of one of
    the four subscriptions or the expiry of one of the two timers. *)
Inductive Event :=
| driveControl (message : Twist)
| fingerAngleCmd (angle : float32)
| wristAngleCmd (angle : float32)
| mode (message : Z)
| publishTimer (clock : nat -> Time) (data : string)
| publish_heartbeat_timer.

(** The callback subscribed or attached in [main]. *)
Definition callback (ev : Event) (w : World) : outcome :=
  match ev with
  | driveControl message => Returned (on_globals (driveCommandHandler message) w)
  | fingerAngleCmd angle => Returned (on_globals (fingerAngleHandler angle) w)
  | wristAngleCmd angle => Returned (on_globals (wristAngleHandler angle) w)
  | mode message => Returned (on_globals (modeHandler message) w)
  | publishTimer clock data => serialActivityTimer clock data w
  | publish_heartbeat_timer => Returned (publishHeartBeatTimerEventHandler w)
  end.

(** [ros::spin()]: the callbacks run one at a time, each to its end, in the
    order of the queue; the node is gone after an uncaught exception. *)
Fixpoint spin (evs : list Event) (w : World) : outcome :=
  match evs with
  | [] => Returned w
  | ev :: rest =>
      match callback ev w with
      | Returned w' => spin rest w'
      | stop => stop
      end
  end.

End Node.

(* ===================================================================== *)
(** ** Vocabulary of the statements about lines and traces *)
(* ===================================================================== *)

Module Lines.
Import IEEE Libc Ros ABridge Wire Node.
Local Open Scope string_scope.

(** Whether the character occurs in the text. *)
Fixpoint has_char (c : ascii) (s : string) : bool :=
  match s with
  | EmptyString => false
  | String a r => Ascii.eqb a c || has_char c r
  end.

(** The pieces, each followed by the delimiter. *)
Fixpoint join (delim : ascii) (l : list string) : string :=
  match l with
  | [] => ""
  | w :: r => w ++ String delim (join delim r)
  end.

(** Whether a piece is still open after [s], [open] telling whether one was
    before it: the last character of [s], if any, is not the delimiter. *)
Fixpoint open_after (delim : ascii) (s : string) (open : bool) : bool :=
  match s with
  | EmptyString => open
  | String c r => open_after delim r (negb (Ascii.eqb c delim))
  end.

(** A text made of whole pieces: empty, or ended by the delimiter. *)
Definition whole (delim : ascii) (s : string) : bool :=
  negb (open_after delim s false).

Definition nonempty (s : string) : bool :=
  match s with EmptyString => false | String _ _ => true end.

(** The texts of the six fields an [ODOM] sentence is read for, and the
    fields after them. *)
Record OdomFields := {
  f_dx : string; f_dy : string; f_yaw : string;
  f_vx : string; f_vy : string; f_wz : string;
  f_more : list string
}.

(** The sentence is a valid [ODOM] sentence with these fields. *)
Definition odom_sentence (sentence : string) (r : OdomFields) : Prop :=
  getlines "," sentence =
  "ODOM" :: "1" :: f_dx r :: f_dy r :: f_yaw r :: f_vx r :: f_vy r
         :: f_wz r :: f_more r.

(** A statement keeps a property of the globals, whether it returns or
    throws. *)
Definition preserves {A : Type} (P : Globals -> Prop) (m : Stmt A) : Prop :=
  forall g, P g -> P (snd (m g)).

(** A statement does the same on globals changed by [f], which it leaves
    changed. *)
Definition respects {A : Type} (f : Globals -> Globals) (m : Stmt A) : Prop :=
  forall g, m (f g) = (fst (m g), f (snd (m g))).

(** The first field of a sentence, if it has one. *)
Definition first_field (sentence : string) : option string :=
  nth_error (getlines "," sentence) 0.

(** Whether the first field of the sentence is the tag, and whether some
    sentence of the buffer has it for first field. *)
Definition tagged (tag : string) (sentence : string) : bool :=
  match first_field sentence with
  | Some t => String.eqb t tag
  | None => false
  end.

Definition mentions (tag : string) (str : string) : bool :=
  existsb (tagged tag) (getlines "010" str).

(** An [IMU] or [ODOM] sentence that passes the guard, three fields and the
    flag [1], without the fields its branch reads. *)
Definition short_record (sentence : string) : bool :=
  let dataSet := getlines "," sentence in
  match dataSet with
  | tag :: flag :: _ :: _ =>
      String.eqb flag "1" &&
      ((String.eqb tag "IMU" && (List.length dataSet <? 11)%nat) ||
       (String.eqb tag "ODOM" && (List.length dataSet <? 8)%nat))
  | _ => false
  end.

(** The position after the displacements of a list of [ODOM] records, in
    the order of the records. *)
Definition travelled (d : OdomFields -> string) (recs : list OdomFields)
           (start : float64) : float64 :=
  fold_left (fun acc r => add64 acc (div64 (atof (d r)) hundred)) recs start.

End Lines.

(* ===================================================================== *)
(** ** Vocabulary of the statements about runs of the node *)
(* ===================================================================== *)

Module Trace.
Import IEEE Libc Ros ABridge Wire Node Lines.
Local Open Scope string_scope.

(** The world a run ends in, when its behaviour is defined. *)
Definition final (o : outcome) : option World :=
  match o with
  | Returned w | Uncaught _ w => Some w
  | Undefined => None
  end.

(** A [double] that is NaN, or finite with a value between the opposite of
    the stored bound and the stored bound. *)
Definition clamped (v : float64) : Prop := is_nan v = true \/ within_bound v.

(** A setpoint message that carries doubles.  Every IEEE [double] is a
    value in canonical form; [spec_float] has other representations, which
    no message holds. *)
Definition carries_doubles (ev : Event) : Prop :=
  match ev with
  | driveControl message =>
      valid_binary prec64 emax64 (x (linear message)) = true /\
      valid_binary prec64 emax64 (z (angular message)) = true
  | _ => True
  end.

(** What every [Imu] and [Odometry] message of the node has, for the name
    it publishes under. *)
Definition imu_shape (name : string) (m : Imu) : Prop :=
  frame_id (imu_header m) = name ++ "/base_link" /\
  y (linear_acceleration m) = zero.

Definition odom_shape (name : string) (m : Odometry) : Prop :=
  frame_id (odom_header m) = name ++ "/odom" /\
  child_frame_id m = name ++ "/base_link" /\
  z (position (pose m)) = zero.

Definition publication_shape (name : string) (p : Publication) : Prop :=
  match p with
  | imuPublish m => imu_shape name m
  | odomPublish m => odom_shape name m
  | fingerAnglePublish m | wristAnglePublish m => frame_id (qs_header m) = ""
  | sonarLeftPublish m | sonarCenterPublish m | sonarRightPublish m =>
      frame_id (range_header m) = ""
  | heartbeatPublisher data => data = ""
  end.

(** The shape of the globals and of everything published so far. *)
Definition shaped (name : string) (w : World) : Prop :=
  let g := globals w in
  (imu_shape name (imu g) /\ odom_shape name (odom g)) /\
  (frame_id (qs_header (fingerAngle g)) = "" /\
   frame_id (qs_header (wristAngle g)) = "" /\
   frame_id (range_header (sonarLeft g)) = "" /\
   frame_id (range_header (sonarCenter g)) = "" /\
   frame_id (range_header (sonarRight g)) = "") /\
  Forall (publication_shape name) (published w).

(** The text has one line feed, its last character. *)
Fixpoint one_line (s : string) : bool :=
  match s with
  | EmptyString => false
  | String c r =>
      if Ascii.eqb c "010"
      then match r with EmptyString => true | String _ _ => false end
      else one_line r
  end.

(** A command of the serial protocol: one line that starts with the letter
    of a command. *)
Definition command_line (s : string) : bool :=
  one_line s &&
  match s with
  | String c _ => existsb (Ascii.eqb c) ["d"; "v"; "f"; "w"]%char
  | EmptyString => false
  end.

(** The seven messages [publishRosTopics] publishes, in its order. *)
Definition topics (g : Globals) : list Publication :=
  [ fingerAnglePublish (fingerAngle g); wristAnglePublish (wristAngle g);
    imuPublish (imu g); odomPublish (odom g);
    sonarLeftPublish (sonarLeft g); sonarCenterPublish (sonarCenter g);
    sonarRightPublish (sonarRight g) ].

(** The queue without the mode messages, and a world with the mode
    forgotten. *)
Definition is_mode (ev : Event) : bool :=
  match ev with mode _ => true | _ => false end.

Definition forget_mode (w : World) : World :=
  on_globals (with_currentMode 0) w.

Definition without_mode (evs : list Event) : list Event :=
  filter (fun ev => negb (is_mode ev)) evs.

(** One step of a check of all the integers from a start on. *)
Definition check_next (check : Z -> bool) (p : Z * bool) : Z * bool :=
  (fst p + 1, snd p && check (fst p))%Z.

(** A duty that [%d] writes with five characters at most. *)
Definition short_duty (n : Z) : bool :=
  (String.length (format_d n) <=? 5)%nat.

Definition outcome_map (f : World -> World) (o : outcome) : outcome :=
  match o with
  | Returned w => Returned (f w)
  | Uncaught e w => Uncaught e (f w)
  | Undefined => Undefined
  end.

End Trace.

(* ===================================================================== *)
(** ** Facts of the floating-point operations *)
(* ===================================================================== *)

Module IEEEFacts.
Import IEEE Wire.
Local Open Scope Z_scope.

(** Comparison of two floats is antisymmetric. *)
Lemma SFcompare_antisym (a b : spec_float) :
  SFcompare a b = option_map CompOpp (SFcompare b a).
Proof.
  destruct a as [sa|sa| |sa ma ea], b as [sb|sb| |sb mb eb]; simpl;
    try reflexivity;
    try (destruct sa; reflexivity);
    try (destruct sb; reflexivity);
    try (destruct sa, sb; reflexivity).
  destruct sa, sb; try reflexivity;
    rewrite (Z.compare_antisym ea eb);
    destruct (ea ?= eb) eqn:E; simpl; try reflexivity;
    rewrite (Pos.compare_cont_antisym mb ma Eq); simpl;
    try rewrite CompOpp_involutive; reflexivity.
Qed.

(** When neither [a < b] holds nor an operand is NaN, [b <= a]. *)
Lemma not_ltb_leb (a b : spec_float) :
  is_nan a = false -> is_nan b = false -> ltb a b = false -> SFleb b a = true.
Proof.
  unfold ltb, SFltb, SFleb. intros Ha Hb.
  rewrite (SFcompare_antisym b a).
  destruct (SFcompare a b) as [[| |]|] eqn:E; simpl; try reflexivity; try discriminate.
  destruct a, b; simpl in *; try discriminate;
    repeat match goal with s : bool |- _ => destruct s end; discriminate.
Qed.

(** Rounding never turns a mantissa negative. *)
Lemma shr_1_nonneg (mrs : shr_record) :
  0 <= shr_m mrs -> 0 <= shr_m (shr_1 mrs).
Proof.
  destruct mrs as [m r s]. simpl. intros H.
  destruct m as [|[p|p|]|p]; simpl; lia.
Qed.

Lemma iter_shr_1_nonneg (p : positive) :
  forall mrs, 0 <= shr_m mrs -> 0 <= shr_m (iter_pos shr_1 p mrs).
Proof.
  induction p as [p IH|p IH|]; intros mrs H; simpl.
  - apply IH, IH, shr_1_nonneg, H.
  - apply IH, IH, H.
  - apply shr_1_nonneg, H.
Qed.

Lemma shr_fexp_nonneg (prec emax m e : Z) (l : location) :
  0 <= m -> 0 <= shr_m (fst (shr_fexp prec emax m e l)).
Proof.
  intros H. unfold shr_fexp, shr.
  assert (H0 : 0 <= shr_m (shr_record_of_loc m l))
    by (destruct l as [|[| |]]; exact H).
  destruct (fexp prec emax (Zdigits2 m + e) - e); simpl; auto.
  apply iter_shr_1_nonneg, H0.
Qed.

Lemma round_nearest_even_nonneg (m : Z) (l : location) :
  0 <= m -> 0 <= round_nearest_even m l.
Proof.
  intros H. destruct l as [|[| |]]; simpl; try lia.
  destruct (Z.even m); lia.
Qed.

(** The sign of a rounded value is the sign of the value. *)
Lemma binary_round_aux_sign (prec emax : Z) (sx : bool) (mx ex : Z)
      (lx : location) :
  0 <= mx ->
  match binary_round_aux prec emax sx mx ex lx with
  | S754_zero s | S754_infinity s | S754_finite s _ _ => s = sx
  | S754_nan => False
  end.
Proof.
  intros H. unfold binary_round_aux.
  pose proof (shr_fexp_nonneg prec emax mx ex lx H) as H1.
  destruct (shr_fexp prec emax mx ex lx) as [mrs' e']. simpl in H1.
  pose proof (shr_fexp_nonneg prec emax _ e' loc_Exact
                (round_nearest_even_nonneg _ (loc_of_shr_record mrs') H1)) as H2.
  destruct (shr_fexp prec emax _ e' loc_Exact) as [mrs'' e'']. simpl in H2.
  destruct (shr_m mrs'') as [|m|m]; [reflexivity| |lia].
  destruct (e'' <=? emax - prec); reflexivity.
Qed.

Lemma round_to_sign (prec emax : Z) (a : spec_float) :
  negative a = true ->
  match round_to prec emax a with
  | S754_zero s | S754_infinity s | S754_finite s _ _ => s = true
  | S754_nan => False
  end.
Proof.
  destruct a as [s|[|]| |[|] m e]; try discriminate; intros _;
    [reflexivity|].
  unfold round_to, binary_round.
  destruct (shl_align m e _) as [mz ez].
  apply binary_round_aux_sign. lia.
Qed.

(** The number of binary digits of a positive number. *)
Lemma digits2_pos_bounds (p : positive) :
  2 ^ (Zpos (digits2_pos p) - 1) <= Zpos p < 2 ^ Zpos (digits2_pos p).
Proof.
  induction p as [p IH|p IH|]; cbn [digits2_pos].
  - rewrite Pos2Z.inj_succ, (Pos2Z.inj_xI p).
    replace (Z.succ (Zpos (digits2_pos p)) - 1) with (Z.succ (Zpos (digits2_pos p) - 1)) by lia.
    rewrite !Z.pow_succ_r by lia.
    destruct IH as [IH1 IH2]. revert IH1 IH2.
    generalize (2 ^ (Zpos (digits2_pos p) - 1)) (2 ^ Zpos (digits2_pos p)).
    intros a b. lia.
  - rewrite Pos2Z.inj_succ, (Pos2Z.inj_xO p).
    replace (Z.succ (Zpos (digits2_pos p)) - 1) with (Z.succ (Zpos (digits2_pos p) - 1)) by lia.
    rewrite !Z.pow_succ_r by lia.
    destruct IH as [IH1 IH2]. revert IH1 IH2.
    generalize (2 ^ (Zpos (digits2_pos p) - 1)) (2 ^ Zpos (digits2_pos p)).
    intros a b. lia.
  - simpl. lia.
Qed.

Lemma digits2_pos_unique (p : positive) (k : Z) :
  2 ^ (k - 1) <= Zpos p < 2 ^ k -> Zpos (digits2_pos p) = k.
Proof.
  intros [Hl Hu]. pose proof (digits2_pos_bounds p) as [Hl' Hu'].
  assert (0 < k).
  { destruct (Z.ltb_spec 0 k); [assumption|].
    destruct (Z.eq_dec k 0) as [->|]; [simpl in Hu; lia|].
    rewrite Z.pow_neg_r in Hu by lia. lia. }
  destruct (Z.lt_trichotomy (Zpos (digits2_pos p)) k) as [Hlt|[Heq|Hgt]];
    [exfalso|assumption|exfalso].
  - assert (2 ^ Zpos (digits2_pos p) <= 2 ^ (k - 1))
      by (apply Z.pow_le_mono_r; lia). lia.
  - assert (2 ^ k <= 2 ^ (Zpos (digits2_pos p) - 1))
      by (apply Z.pow_le_mono_r; lia). lia.
Qed.

(** One step to the right halves the mantissa; the bit shifted out is kept
    as the rounding bit. *)
Lemma shr_1_spec (mrs : shr_record) :
  0 <= shr_m mrs ->
  shr_m (shr_1 mrs) = shr_m mrs / 2 /\
  shr_r (shr_1 mrs) = Z.odd (shr_m mrs).
Proof.
  destruct mrs as [m r s]. cbn [shr_m]. intros H.
  destruct m as [|[p|p|]|p]; try lia; cbn [shr_1 shr_m shr_r].
  - split; reflexivity.
  - split; [|reflexivity]. rewrite (Pos2Z.inj_xI p).
    apply Z.div_unique with (r := 1); lia.
  - split; [|reflexivity]. rewrite (Pos2Z.inj_xO p).
    apply Z.div_unique with (r := 0); lia.
  - split; reflexivity.
Qed.

Lemma shifted_nonneg k mrs mrs' :
  0 < k -> 0 <= shr_m mrs -> shifted k mrs mrs' -> 0 <= shr_m mrs'.
Proof.
  intros Hk H [Hm _]. rewrite Hm. apply Z.div_pos; [assumption|].
  apply Z.pow_pos_nonneg; lia.
Qed.

Lemma shifted_trans k1 k2 a b c :
  0 < k1 -> 0 < k2 -> 0 <= shr_m a ->
  shifted k1 a b -> shifted k2 b c -> shifted (k1 + k2) a c.
Proof.
  intros H1 H2 Ha [Hm1 Hr1] [Hm2 Hr2]. split.
  - rewrite Hm2, Hm1, Z.pow_add_r by lia.
    rewrite Z.div_div; try reflexivity; try (apply Z.pow_pos_nonneg; lia).
    apply Z.pow_nonzero; lia.
  - rewrite Hr2, Hm1. rewrite Z.div_pow2_bits by lia. f_equal. lia.
Qed.

Lemma shifted_1 mrs : 0 <= shr_m mrs -> shifted 1 mrs (shr_1 mrs).
Proof.
  intros H. destruct (shr_1_spec mrs H) as [Hm Hr]. split.
  - rewrite Hm. reflexivity.
  - rewrite Hr. symmetry. apply Z.bit0_odd.
Qed.

Lemma iter_shr_1_spec (p : positive) :
  forall mrs, 0 <= shr_m mrs -> shifted (Zpos p) mrs (iter_pos shr_1 p mrs).
Proof.
  induction p as [p IH|p IH|]; intros mrs H; cbn [iter_pos].
  - pose proof (shifted_1 mrs H) as S1.
    pose proof (shifted_nonneg 1 _ _ ltac:(lia) H S1) as H1.
    pose proof (IH _ H1) as S2.
    pose proof (shifted_nonneg (Zpos p) _ _ ltac:(lia) H1 S2) as H2.
    pose proof (IH _ H2) as S3.
    rewrite (Pos2Z.inj_xI p).
    replace (2 * Zpos p + 1) with (1 + Zpos p + Zpos p) by lia.
    eapply shifted_trans; [lia|lia|assumption| |exact S3].
    eapply shifted_trans; [lia|lia|assumption|exact S1|exact S2].
  - pose proof (IH _ H) as S1.
    pose proof (shifted_nonneg (Zpos p) _ _ ltac:(lia) H S1) as H1.
    pose proof (IH _ H1) as S2.
    rewrite (Pos2Z.inj_xO p).
    replace (2 * Zpos p) with (Zpos p + Zpos p) by lia.
    eapply shifted_trans; [lia|lia|assumption|exact S1|exact S2].
  - apply shifted_1, H.
Qed.

(** Rounding to nearest moves the truncated mantissa by at most one, and up
    when the rounding bit is set and the mantissa is odd. *)
Lemma round_nearest_even_range (q : Z) (l : location) :
  q <= round_nearest_even q l <= q + 1.
Proof.
  destruct l as [|[| |]]; simpl; try lia. destruct (Z.even q); lia.
Qed.

Lemma round_nearest_even_up (mrs : shr_record) :
  shr_r mrs = true -> Z.odd (shr_m mrs) = true ->
  round_nearest_even (shr_m mrs) (loc_of_shr_record mrs) = shr_m mrs + 1.
Proof.
  destruct mrs as [q r s]. cbn [shr_m shr_r]. intros -> Hodd.
  destruct s; simpl; [reflexivity|].
  rewrite <- Z.negb_odd, Hodd. reflexivity.
Qed.

(** Conversion to [float] of a value that has to be shifted right by [p]
    bits: truncation, rounding, and one more shift if the rounding carried
    into a 25th bit. *)
Lemma to_float_shift (s : bool) (m : positive) (e : Z) (p : positive) :
  fexp prec32 emax32 (Zpos (digits2_pos m) + e) - e = Zpos p ->
  to_float (S754_finite s m e) =
    let mrs' := iter_pos shr_1 p (Build_shr_record (Zpos m) false false) in
    let m1 := round_nearest_even (shr_m mrs') (loc_of_shr_record mrs') in
    let '(mrs'', e'') := shr_fexp prec32 emax32 m1 (e + Zpos p) loc_Exact in
    match shr_m mrs'' with
    | Z0 => S754_zero s
    | Zpos m'' =>
        if e'' <=? emax32 - prec32 then S754_finite s m'' e''
        else S754_infinity s
    | Zneg _ => S754_nan
    end.
Proof.
  intros H. unfold to_float, round_to, binary_round, shl_align.
  change (Z.sub (fexp prec32 emax32 (Z.add (Zpos (digits2_pos m)) e)) e)
    with (fexp prec32 emax32 (Zpos (digits2_pos m) + e) - e).
  rewrite H. unfold binary_round_aux, shr_fexp at 1, shr.
  change (Z.sub (fexp prec32 emax32 (Z.add (Zdigits2 (Zpos m)) e)) e)
    with (fexp prec32 emax32 (Zpos (digits2_pos m) + e) - e).
  rewrite H. cbn [shr_record_of_loc]. reflexivity.
Qed.

(** The second shift: nothing below [2^24], one bit at [2^24]. *)
Lemma second_shift (m1 : positive) (e1 : Z) :
  - 149 <= e1 -> Zpos m1 <= 2 ^ 24 ->
  shr_fexp prec32 emax32 (Zpos m1) e1 loc_Exact =
    if Zpos m1 <? 2 ^ 24
    then (Build_shr_record (Zpos m1) false false, e1)
    else (Build_shr_record (2 ^ 23) false false, e1 + 1).
Proof.
  intros He Hm. unfold shr_fexp, shr. cbn [Zdigits2 shr_record_of_loc].
  pose proof (digits2_pos_bounds m1) as [Hl Hu].
  destruct (Z.ltb_spec (Zpos m1) (2 ^ 24)) as [Hlt|Hge].
  - assert (Hd : Zpos (digits2_pos m1) <= 24).
    { destruct (Z.leb_spec (Zpos (digits2_pos m1)) 24); [assumption|exfalso].
      assert (2 ^ 24 <= 2 ^ (Zpos (digits2_pos m1) - 1))
        by (apply Z.pow_le_mono_r; lia). lia. }
    unfold fexp, emin, prec32, emax32.
    destruct (Z.max (Zpos (digits2_pos m1) + e1 - 24) (3 - 128 - 24) - e1)
      eqn:E; try reflexivity. lia.
  - assert (Hm1 : Zpos m1 = 2 ^ 24) by lia.
    assert (Hd : Zpos (digits2_pos m1) = 25)
      by (apply digits2_pos_unique; rewrite Hm1; simpl; lia).
    rewrite Hd. unfold fexp, emin, prec32, emax32.
    replace (Z.max (25 + e1 - 24) (3 - 128 - 24) - e1) with 1 by lia.
    assert (m1 = 16777216%positive) as -> by lia. reflexivity.
Qed.

(** Order of two positive finite values, read off exponents and
    mantissas. *)
Lemma SFleb_pos_finite (m1 : positive) (e1 : Z) (m2 : positive) (e2 : Z) :
  SFleb (S754_finite false m1 e1) (S754_finite false m2 e2) = true <->
  e1 < e2 \/ (e1 = e2 /\ Zpos m1 <= Zpos m2).
Proof.
  unfold SFleb, SFcompare.
  change (Pos.compare_cont Eq m1 m2) with (Pos.compare m1 m2).
  destruct (Z.compare_spec e1 e2) as [He|He|He].
  - destruct (Pos.compare_spec m1 m2) as [Hm|Hm|Hm]; split; intros H;
      try reflexivity; try discriminate; try lia.
  - split; intros; [lia|reflexivity].
  - split; intros H; [discriminate|lia].
Qed.

Lemma SFltb_pos_finite (m1 : positive) (e1 : Z) (m2 : positive) (e2 : Z) :
  SFltb (S754_finite false m1 e1) (S754_finite false m2 e2) = true <->
  e1 < e2 \/ (e1 = e2 /\ Zpos m1 < Zpos m2).
Proof.
  unfold SFltb, SFcompare.
  change (Pos.compare_cont Eq m1 m2) with (Pos.compare m1 m2).
  destruct (Z.compare_spec e1 e2) as [He|He|He].
  - destruct (Pos.compare_spec m1 m2) as [Hm|Hm|Hm]; split; intros H;
      try reflexivity; try discriminate; try lia.
  - split; intros; [lia|reflexivity].
  - split; intros H; [discriminate|lia].
Qed.

(** Conversions and comparisons commute with the change of sign. *)
Lemma round_to_opp (prec emax : Z) (a : spec_float) :
  round_to prec emax (SFopp a) = SFopp (round_to prec emax a).
Proof.
  destruct a as [s|s| |s m e]; try reflexivity.
  unfold round_to, SFopp at 1, binary_round.
  destruct (shl_align m e _) as [mz ez]. unfold binary_round_aux.
  destruct (shr_fexp prec emax (Zpos mz) ez loc_Exact) as [mrs' e'].
  destruct (shr_fexp prec emax _ e' loc_Exact) as [mrs'' e''].
  destruct (shr_m mrs''); try reflexivity.
  destruct (e'' <=? emax - prec); reflexivity.
Qed.

Lemma SFcompare_opp (a b : spec_float) :
  SFcompare (SFopp a) (SFopp b) = SFcompare b a.
Proof.
  rewrite (SFcompare_antisym b a).
  destruct a as [sa|sa| |sa ma ea], b as [sb|sb| |sb mb eb]; simpl;
    try reflexivity;
    try (destruct sa; reflexivity);
    try (destruct sb; reflexivity);
    try (destruct sa, sb; reflexivity).
  destruct sa, sb; simpl; try reflexivity;
    destruct (ea ?= eb); simpl; try reflexivity;
    rewrite ?CompOpp_involutive; reflexivity.
Qed.

Lemma valid_binary_opp (prec emax : Z) (a : spec_float) :
  valid_binary prec emax (SFopp a) = valid_binary prec emax a.
Proof. destruct a; reflexivity. Qed.

Lemma SFopp_involutive (a : spec_float) : SFopp (SFopp a) = a.
Proof. destruct a as [s|s| |s m e]; simpl; rewrite ?negb_involutive; reflexivity. Qed.

(** When [a <= b] holds, [b < a] does not. *)
Lemma leb_not_ltb (a b : spec_float) : SFleb a b = true -> SFltb b a = false.
Proof.
  unfold SFleb, SFltb. rewrite (SFcompare_antisym b a).
  destruct (SFcompare a b) as [[| |]|]; simpl; intros H;
    try reflexivity; discriminate.
Qed.

(** Two values that compare equal to a nonzero finite value are that
    value. *)
Lemma leb_antisym_finite (s : bool) (m : positive) (e : Z) (v : spec_float) :
  SFleb (S754_finite s m e) v = true -> SFltb (S754_finite s m e) v = false ->
  v = S754_finite s m e.
Proof.
  unfold SFleb, SFltb.
  destruct (SFcompare (S754_finite s m e) v) as [[| |]|] eqn:E;
    try discriminate. intros _ _.
  destruct v as [sv|sv| |sv mv ev]; simpl in E;
    try discriminate; try (destruct s; discriminate);
    try (destruct sv; discriminate);
    try (destruct s, sv; discriminate).
  destruct s, sv; try discriminate;
    destruct (Z.compare_spec e ev) as [He|He|He]; try discriminate; subst ev;
    change (Pos.compare_cont Eq m mv) with (Pos.compare m mv) in E;
    destruct (Pos.compare_spec m mv) as [Hm|Hm|Hm]; try discriminate;
    subst; reflexivity.
Qed.

Lemma compare_Eq_finite (s : bool) (m : positive) (e : Z) (v : spec_float) :
  SFcompare v (S754_finite s m e) = Some Eq -> v = S754_finite s m e.
Proof.
  intros E. symmetry.
  rewrite SFcompare_antisym in E.
  destruct (SFcompare (S754_finite s m e) v) as [[| |]|] eqn:E'; try discriminate.
  symmetry. apply leb_antisym_finite; unfold SFleb, SFltb; rewrite E'; reflexivity.
Qed.


(** A conversion between the formats never produces a NaN of its own. *)
Lemma round_to_not_nan (prec emax : Z) (a : spec_float) :
  is_nan a = false -> is_nan (round_to prec emax a) = false.
Proof.
  destruct a as [s|s| |s m e]; try reflexivity; [discriminate|]. intros _.
  unfold round_to, binary_round.
  destruct (shl_align m e _) as [mz ez].
  pose proof (binary_round_aux_sign prec emax s (Zpos mz) ez loc_Exact) as H.
  destruct (binary_round_aux prec emax s (Zpos mz) ez loc_Exact);
    try reflexivity.
  exfalso. apply H. lia.
Qed.

(** Shifting a mantissa to the left. *)
Lemma iter_xO_value (m d : positive) :
  Zpos (Pos.iter xO m d) = Zpos m * 2 ^ Zpos d.
Proof.
  induction d as [|d IH] using Pos.peano_ind.
  - simpl. lia.
  - rewrite Pos.iter_succ, Pos2Z.inj_xO, IH, Pos2Z.inj_succ, Z.pow_succ_r by lia.
    lia.
Qed.

Lemma iter_xO_digits (m d : positive) :
  digits2_pos (Pos.iter xO m d) = (digits2_pos m + d)%positive.
Proof.
  induction d as [|d IH] using Pos.peano_ind.
  - simpl. lia.
  - rewrite Pos.iter_succ. cbn [digits2_pos]. rewrite IH. lia.
Qed.

(** A mantissa in canonical form is not rounded. *)
Lemma binary_round_aux_exact (prec emax : Z) (s : bool) (mz : positive) (ez : Z) :
  fexp prec emax (Zpos (digits2_pos mz) + ez) = ez ->
  ez <= emax - prec ->
  binary_round_aux prec emax s (Zpos mz) ez loc_Exact = S754_finite s mz ez.
Proof.
  intros H Hle. unfold binary_round_aux, shr_fexp, shr.
  cbn [Zdigits2 shr_record_of_loc].
  change (Z.sub (fexp prec emax (Z.add (Zpos (digits2_pos mz)) ez)) ez)
    with (fexp prec emax (Zpos (digits2_pos mz) + ez) - ez).
  rewrite H, Z.sub_diag.
  cbn [shr_m loc_of_shr_record round_nearest_even Zdigits2 shr_record_of_loc].
  change (Z.sub (fexp prec emax (Z.add (Zpos (digits2_pos mz)) ez)) ez)
    with (fexp prec emax (Zpos (digits2_pos mz) + ez) - ez).
  rewrite H, Z.sub_diag. cbn [shr_m].
  apply Z.leb_le in Hle.
  change (Z.leb ez (Z.sub emax prec)) with (ez <=? emax - prec).
  rewrite Hle. reflexivity.
Qed.

(** Conversion of a [float] in canonical form to [double]: the mantissa is
    shifted left to 53 bits, nothing is lost. *)
Lemma to_double_widens (s : bool) (m : positive) (e : Z) :
  Zpos m < 2 ^ 24 -> -149 <= e <= 104 ->
  exists (mz : positive) (k : positive),
    to_double (S754_finite s m e) = S754_finite s mz (e - Zpos k) /\
    Zpos mz = Zpos m * 2 ^ Zpos k /\
    Zpos k = 53 - Zpos (digits2_pos m).
Proof.
  intros Hm He.
  pose proof (digits2_pos_bounds m) as [Hl Hu].
  assert (Hd : Zpos (digits2_pos m) <= 24).
  { destruct (Z.leb_spec (Zpos (digits2_pos m)) 24); [assumption|exfalso].
    assert (2 ^ 24 <= 2 ^ (Zpos (digits2_pos m) - 1))
      by (apply Z.pow_le_mono_r; lia). lia. }
  set (d := Zpos (digits2_pos m)) in *.
  assert (Hk : fexp prec64 emax64 (d + e) - e = Zneg (Z.to_pos (53 - d))).
  { unfold fexp, emin, prec64, emax64.
    rewrite Z.max_l by lia.
    rewrite <- Pos2Z.opp_pos, Z2Pos.id by lia. lia. }
  exists (Pos.iter xO m (Z.to_pos (53 - d))), (Z.to_pos (53 - d)).
  split; [|split].
  - unfold to_double, round_to, binary_round, shl_align.
    change (Z.sub (fexp prec64 emax64 (Z.add (Zpos (digits2_pos m)) e)) e)
      with (fexp prec64 emax64 (d + e) - e).
    rewrite Hk.
    assert (Hf : fexp prec64 emax64 (d + e) = e - Zpos (Z.to_pos (53 - d))).
    { rewrite Z2Pos.id by lia. unfold fexp, emin, prec64, emax64.
      rewrite Z.max_l by lia. lia. }
    change (fexp prec64 emax64 (Z.add (Zpos (digits2_pos m)) e))
      with (fexp prec64 emax64 (d + e)).
    rewrite Hf. apply binary_round_aux_exact.
    + rewrite iter_xO_digits, Pos2Z.inj_add. fold d.
      rewrite Z2Pos.id by lia. unfold fexp, emin, prec64, emax64.
      rewrite Z.max_l by lia. lia.
    + rewrite Z2Pos.id by lia. unfold prec64, emax64. lia.
  - apply iter_xO_value.
  - rewrite Z2Pos.id by lia. reflexivity.
Qed.

(** The value and the finiteness of the opposite. *)
Lemma to_Q_opp (a : spec_float) : to_Q (SFopp a) = Qopp (to_Q a).
Proof.
  destruct a as [s|s| |s m e]; try reflexivity.
  unfold SFopp, to_Q, Qopp. destruct e as [|p|p]; destruct s; cbn [negb cond_Zopp Qnum Qden];
    f_equal; lia.
Qed.

Lemma is_finite_opp (a : spec_float) : is_finite (SFopp a) = is_finite a.
Proof. destruct a; reflexivity. Qed.

End IEEEFacts.

(* ===================================================================== *)
(** ** Properties of the setpoint limiter *)
(* ===================================================================== *)

Module LimiterSpec.
Import IEEE Libc Ros ABridge Wire IEEEFacts.
Local Open Scope string_scope.
Local Open Scope Z_scope.

Lemma lin_bound_value : lin_bound = S754_finite false 10066330 (-25).
Proof. reflexivity. Qed.

(** [limit] returns a value between [-max] and [max], whatever the value it
    is given, NaN apart. *)
Lemma limit_bounded (val max : float32) :
  is_nan val = false -> is_nan max = false ->
  SFleb (neg max) max = true ->
  SFleb (neg max) (limit val max) = true /\ SFleb (limit val max) max = true.
Proof.
  intros Hv Hm Hneg. unfold limit, gtb, ltb.
  assert (Hrefl : forall a, is_nan a = false -> SFleb a a = true).
  { intros [s|s| |s m e] Ha; try discriminate; unfold SFleb; simpl;
      try (destruct s; reflexivity).
    rewrite Z.compare_refl, Pos.compare_cont_refl. destruct s; reflexivity. }
  assert (Hm' : is_nan (neg max) = false) by (destruct max; auto).
  destruct (SFltb max val) eqn:E1.
  - split; [exact Hneg | apply Hrefl; exact Hm].
  - destruct (SFltb val (neg max)) eqn:E2.
    + split; [apply Hrefl; exact Hm' | exact Hneg].
    + split; apply not_ltb_leb; auto.
Qed.

(** A positive [double] in canonical form above the [double] 0.3 converts
    to a [float] that is at least the [float] 0.3. *)
Lemma to_float_above_bound (m : positive) (e : Z) :
  Zpos (digits2_pos m) = 53 ->
  -54 < e \/ (e = -54 /\ 5404319552844595 < Zpos m) ->
  SFleb lin_bound (to_float (S754_finite false m e)) = true.
Proof.
  intros Hd He.
  assert (Hn : fexp prec32 emax32 (Zpos (digits2_pos m) + e) - e = 29).
  { rewrite Hd. unfold fexp, emin, prec32, emax32. lia. }
  rewrite (to_float_shift false m e 29 Hn). cbv zeta.
  pose proof (digits2_pos_bounds m) as Hm. rewrite Hd in Hm.
  change (2 ^ (53 - 1)) with 4503599627370496 in Hm.
  change (2 ^ 53) with 9007199254740992 in Hm.
  destruct (iter_shr_1_spec 29 (Build_shr_record (Zpos m) false false))
    as [Hq Hr]; [cbn; lia|].
  cbn [shr_m] in Hq, Hr.
  set (mrs' := iter_pos shr_1 29 (Build_shr_record (Zpos m) false false)) in *.
  change (2 ^ 29) with 536870912 in Hq.
  pose proof (Z.div_mod (Zpos m) 536870912 ltac:(lia)) as Hdm.
  pose proof (Z.mod_pos_bound (Zpos m) 536870912 ltac:(lia)) as Hmod.
  rewrite <- Hq in Hdm.
  pose proof (round_nearest_even_range (shr_m mrs') (loc_of_shr_record mrs'))
    as Hm1.
  assert (Hlow : e = -54 ->
            10066330 <= round_nearest_even (shr_m mrs') (loc_of_shr_record mrs')).
  { intros ->. destruct He as [He|[_ He]]; [lia|].
    destruct (Z.eq_dec (shr_m mrs') 10066329) as [E|E]; [|lia].
    rewrite round_nearest_even_up; [lia| |rewrite E; reflexivity].
    rewrite Hr. change (29 - 1) with 28.
    rewrite Z.testbit_odd, Z.shiftr_div_pow2 by lia.
    change (2 ^ 28) with 268435456.
    pose proof (Z.div_mod (Zpos m) 268435456 ltac:(lia)) as Hdm'.
    pose proof (Z.mod_pos_bound (Zpos m) 268435456 ltac:(lia)) as Hmod'.
    assert (Zpos m / 268435456 = 20132659) as -> by lia. reflexivity. }
  destruct (round_nearest_even (shr_m mrs') (loc_of_shr_record mrs'))
    as [|m1|m1] eqn:Em1; try lia.
  rewrite second_shift by (change (2 ^ 24) with 16777216; lia).
  change (2 ^ 24) with 16777216. change (2 ^ 23) with 8388608.
  unfold lin_bound.
  change (to_float MAX_LIN_VEL_CMD) with (S754_finite false 10066330 (-25)).
  destruct (Z.ltb_spec (Zpos m1) 16777216); cbn [shr_m];
    match goal with |- context [if ?c then _ else _] => destruct c end;
    try reflexivity; apply SFleb_pos_finite; lia.
Qed.

(** A positive [double] in canonical form that is at most the [double] 0.3
    converts to a [float] that is at most the [float] 0.3. *)
Lemma to_float_below_bound (m : positive) (e : Z) :
  canonical_mantissa prec64 emax64 m e = true ->
  e < -54 \/ (e = -54 /\ Zpos m <= 5404319552844595) ->
  SFleb (to_float (S754_finite false m e)) lin_bound = true.
Proof.
  intros Hc He. unfold canonical_mantissa, fexp, emin, prec64, emax64 in Hc.
  apply Z.eqb_eq in Hc.
  pose proof (digits2_pos_bounds m) as [_ Hm].
  set (d := Zpos (digits2_pos m)) in *.
  assert (Hd : 0 < d) by (unfold d; lia).
  destruct (fexp prec32 emax32 (d + e) - e) as [|p|p] eqn:Hn;
    unfold fexp, emin, prec32, emax32 in Hn; try lia.
  rewrite (to_float_shift false m e p)
    by (fold d; unfold fexp, emin, prec32, emax32; exact Hn).
  cbv zeta.
  destruct (iter_shr_1_spec p (Build_shr_record (Zpos m) false false))
    as [Hq _]; [cbn; lia|].
  cbn [shr_m] in Hq.
  set (mrs' := iter_pos shr_1 p (Build_shr_record (Zpos m) false false)) in *.
  assert (Hq0 : 0 <= shr_m mrs').
  { rewrite Hq. apply Z.div_pos; [lia|]. apply Z.pow_pos_nonneg; lia. }
  assert (Hq24 : shr_m mrs' < 2 ^ 24).
  { rewrite Hq. apply Z.div_lt_upper_bound; [apply Z.pow_pos_nonneg; lia|].
    rewrite <- Z.pow_add_r by lia.
    assert (2 ^ d <= 2 ^ (Zpos p + 24)) by (apply Z.pow_le_mono_r; lia).
    lia. }
  change (2 ^ 24) with 16777216 in Hq24.
  pose proof (round_nearest_even_range (shr_m mrs') (loc_of_shr_record mrs'))
    as Hm1.
  assert (Hedge : e + Zpos p = -25 ->
            round_nearest_even (shr_m mrs') (loc_of_shr_record mrs') <= 10066330).
  { intros He1. assert (p = 29%positive) by lia. subst p.
    change (2 ^ 29) with 536870912 in Hq.
    pose proof (Z.div_mod (Zpos m) 536870912 ltac:(lia)) as Hdm.
    pose proof (Z.mod_pos_bound (Zpos m) 536870912 ltac:(lia)) as Hmod.
    rewrite <- Hq in Hdm. lia. }
  unfold lin_bound.
  change (to_float MAX_LIN_VEL_CMD) with (S754_finite false 10066330 (-25)).
  destruct (round_nearest_even (shr_m mrs') (loc_of_shr_record mrs'))
    as [|m1|m1] eqn:Em1; try lia.
  - unfold shr_fexp, shr. cbn [Zdigits2 shr_record_of_loc].
    destruct (fexp prec32 emax32 (0 + (e + Zpos p)) - (e + Zpos p)) eqn:E;
      unfold fexp, emin, prec32, emax32 in E; try lia; reflexivity.
  - rewrite second_shift by (change (2 ^ 24) with 16777216; lia).
    change (2 ^ 24) with 16777216. change (2 ^ 23) with 8388608.
    destruct (Z.ltb_spec (Zpos m1) 16777216); cbn [shr_m];
      match goal with |- context [if ?c then _ else _] =>
        destruct c eqn:Ec; [|apply Z.leb_gt in Ec;
                              unfold emax32, prec32 in Ec; lia] end;
      apply SFleb_pos_finite; lia.
Qed.

(** Conversion to [float] keeps a [double] on its side of the [double]
    0.3. *)
Lemma to_float_ge (lx : float64) :
  valid_binary prec64 emax64 lx = true ->
  SFltb MAX_LIN_VEL_CMD lx = true -> SFleb lin_bound (to_float lx) = true.
Proof.
  intros Hv H. destruct lx as [s|[|]| |[|] m e]; try discriminate;
    try (destruct s; discriminate); [reflexivity|].
  apply SFltb_pos_finite in H.
  cbn [valid_binary] in Hv. unfold bounded in Hv.
  apply andb_true_iff in Hv. destruct Hv as [Hc _].
  apply to_float_above_bound; [|lia].
  unfold canonical_mantissa, fexp, emin, prec64, emax64 in Hc.
  apply Z.eqb_eq in Hc. lia.
Qed.

Lemma to_float_le (lx : float64) :
  valid_binary prec64 emax64 lx = true ->
  SFleb lx MAX_LIN_VEL_CMD = true -> SFleb (to_float lx) lin_bound = true.
Proof.
  intros Hv H. destruct lx as [s|[|]| |[|] m e]; try discriminate;
    try reflexivity.
  - pose proof (round_to_sign prec32 emax32 (S754_finite true m e) eq_refl) as Hs.
    unfold to_float.
    destruct (round_to prec32 emax32 (S754_finite true m e)) as [s|s| |s m' e'];
      try contradiction; subst s; reflexivity.
  - apply SFleb_pos_finite in H.
    cbn [valid_binary] in Hv. unfold bounded in Hv.
    apply andb_true_iff in Hv. destruct Hv as [Hc _].
    apply to_float_below_bound; [exact Hc|lia].
Qed.

Lemma to_float_le_opp (lx : float64) :
  valid_binary prec64 emax64 lx = true ->
  SFltb lx (neg MAX_LIN_VEL_CMD) = true ->
  SFleb (to_float lx) (neg lin_bound) = true.
Proof.
  intros Hv H. unfold SFleb, SFltb, neg in *.
  rewrite <- (SFopp_involutive lx), SFcompare_opp in H.
  rewrite <- (SFopp_involutive (to_float lx)), SFcompare_opp.
  unfold to_float. rewrite <- round_to_opp.
  apply (to_float_ge (SFopp lx)); [rewrite valid_binary_opp; exact Hv|].
  exact H.
Qed.

Lemma to_float_ge_opp (lx : float64) :
  valid_binary prec64 emax64 lx = true ->
  SFleb (neg MAX_LIN_VEL_CMD) lx = true ->
  SFleb (neg lin_bound) (to_float lx) = true.
Proof.
  intros Hv H. unfold SFleb, neg in *.
  rewrite <- (SFopp_involutive lx), SFcompare_opp in H.
  rewrite <- (SFopp_involutive (to_float lx)), SFcompare_opp.
  unfold to_float. rewrite <- round_to_opp.
  apply (to_float_le (SFopp lx)); [rewrite valid_binary_opp; exact Hv|].
  exact H.
Qed.

(** [limit] against the [float] 0.3, by the position of the value. *)
Lemma limit_above (v : float32) :
  SFleb lin_bound v = true -> limit v lin_bound = lin_bound.
Proof.
  intros H. unfold limit, gtb, ltb.
  destruct (SFltb lin_bound v) eqn:E; [reflexivity|].
  rewrite (leb_antisym_finite false 10066330 (-25) v H E). reflexivity.
Qed.

Lemma limit_below (v : float32) :
  SFleb v (neg lin_bound) = true -> limit v lin_bound = neg lin_bound.
Proof.
  intros H. unfold limit, gtb, ltb.
  assert (E0 : SFltb lin_bound v = false).
  { destruct v as [[|]|[|]| |[|] m e]; first [reflexivity | discriminate H]. }
  rewrite E0. destruct (SFltb v (neg lin_bound)) eqn:E; [reflexivity|].
  apply (compare_Eq_finite true 10066330 (-25)).
  unfold SFleb, SFltb in H, E.
  change (neg lin_bound) with (S754_finite true 10066330 (-25)) in H, E.
  destruct (SFcompare v (S754_finite true 10066330 (-25))) as [[| |]|];
    try discriminate; reflexivity.
Qed.

Lemma limit_within (v : float32) :
  SFleb (neg lin_bound) v = true -> SFleb v lin_bound = true ->
  limit v lin_bound = v.
Proof.
  intros H1 H2. unfold limit, gtb, ltb.
  rewrite (leb_not_ltb _ _ H2), (leb_not_ltb _ _ H1). reflexivity.
Qed.


(** The value [driveCommandHandler] stores for an incoming [double]: the
    [float] bound above the [double] 0.3, its opposite below the opposite,
    and the rounding to [float] in between. *)
Lemma clamped_value (lx : float64) :
  valid_binary prec64 emax64 lx = true ->
  let stored := to_double (limit (to_float lx) (to_float MAX_LIN_VEL_CMD)) in
  (gtb lx MAX_LIN_VEL_CMD = true ->
   stored = to_double (to_float MAX_LIN_VEL_CMD)) /\
  (ltb lx (neg MAX_LIN_VEL_CMD) = true ->
   stored = to_double (neg (to_float MAX_LIN_VEL_CMD))) /\
  (gtb lx MAX_LIN_VEL_CMD = false -> ltb lx (neg MAX_LIN_VEL_CMD) = false ->
   stored = to_double (to_float lx)).
Proof.
  intros Hv. cbv zeta. fold lin_bound.
  split; [|split].
  - intros H. rewrite limit_above; [reflexivity|].
    apply to_float_ge; assumption.
  - intros H. rewrite limit_below; [reflexivity|].
    apply to_float_le_opp; assumption.
  - intros H1 H2. destruct (is_nan lx) eqn:Hnan.
    + destruct lx; try discriminate. reflexivity.
    + rewrite limit_within; [reflexivity| |].
      * apply to_float_ge_opp; [exact Hv|]. apply not_ltb_leb; auto.
      * apply to_float_le; [exact Hv|]. apply not_ltb_leb; auto.
Qed.

(** A positive [double] in canonical form that is at most the [double] 0.3
    converts to zero or to a [float] in canonical form that is at most the
    [float] 0.3. *)
Lemma to_float_below_form (m : positive) (e : Z) :
  canonical_mantissa prec64 emax64 m e = true ->
  e < -54 \/ (e = -54 /\ Zpos m <= 5404319552844595) ->
  to_float (S754_finite false m e) = S754_zero false \/
  exists m' e',
    to_float (S754_finite false m e) = S754_finite false m' e' /\
    Zpos m' < 2 ^ 24 /\ -149 <= e' /\
    (e' < -25 \/ (e' = -25 /\ Zpos m' <= 10066330)).
Proof.
  intros Hc He. unfold canonical_mantissa, fexp, emin, prec64, emax64 in Hc.
  apply Z.eqb_eq in Hc.
  pose proof (digits2_pos_bounds m) as [_ Hm].
  set (d := Zpos (digits2_pos m)) in *.
  assert (Hd : 0 < d) by (unfold d; lia).
  destruct (fexp prec32 emax32 (d + e) - e) as [|p|p] eqn:Hn;
    unfold fexp, emin, prec32, emax32 in Hn; try lia.
  rewrite (to_float_shift false m e p)
    by (fold d; unfold fexp, emin, prec32, emax32; exact Hn).
  cbv zeta.
  destruct (iter_shr_1_spec p (Build_shr_record (Zpos m) false false))
    as [Hq _]; [cbn; lia|].
  cbn [shr_m] in Hq.
  set (mrs' := iter_pos shr_1 p (Build_shr_record (Zpos m) false false)) in *.
  assert (Hq0 : 0 <= shr_m mrs').
  { rewrite Hq. apply Z.div_pos; [lia|]. apply Z.pow_pos_nonneg; lia. }
  assert (Hq24 : shr_m mrs' < 2 ^ 24).
  { rewrite Hq. apply Z.div_lt_upper_bound; [apply Z.pow_pos_nonneg; lia|].
    rewrite <- Z.pow_add_r by lia.
    assert (2 ^ d <= 2 ^ (Zpos p + 24)) by (apply Z.pow_le_mono_r; lia).
    lia. }
  change (2 ^ 24) with 16777216 in Hq24.
  pose proof (round_nearest_even_range (shr_m mrs') (loc_of_shr_record mrs'))
    as Hm1.
  assert (Hedge : e + Zpos p = -25 ->
            round_nearest_even (shr_m mrs') (loc_of_shr_record mrs') <= 10066330).
  { intros He1. assert (p = 29%positive) by lia. subst p.
    change (2 ^ 29) with 536870912 in Hq.
    pose proof (Z.div_mod (Zpos m) 536870912 ltac:(lia)) as Hdm.
    pose proof (Z.mod_pos_bound (Zpos m) 536870912 ltac:(lia)) as Hmod.
    rewrite <- Hq in Hdm. lia. }
  destruct (round_nearest_even (shr_m mrs') (loc_of_shr_record mrs'))
    as [|m1|m1] eqn:Em1; try lia.
  - left. unfold shr_fexp, shr. cbn [Zdigits2 shr_record_of_loc].
    destruct (fexp prec32 emax32 (0 + (e + Zpos p)) - (e + Zpos p)) eqn:E;
      unfold fexp, emin, prec32, emax32 in E; try lia; reflexivity.
  - right. rewrite second_shift by (change (2 ^ 24) with 16777216; lia).
    change (2 ^ 24) with 16777216. change (2 ^ 23) with 8388608.
    destruct (Z.ltb_spec (Zpos m1) 16777216); cbn [shr_m];
      match goal with |- context [if ?c then _ else _] =>
        destruct c eqn:Ec; [|apply Z.leb_gt in Ec;
                              unfold emax32, prec32 in Ec; lia] end.
    + exists m1, (e + Zpos p). split; [reflexivity|]. lia.
    + exists 8388608%positive, (e + Zpos p + 1). split; [reflexivity|]. lia.
Qed.

(** The value of a positive [double] of 53 bits below the stored bound. *)
Lemma to_Q_below_bound (mz : positive) (ez : Z) :
  Zpos mz < 2 ^ 53 ->
  ez < -54 \/ (ez = -54 /\ Zpos mz <= 5404319767592960) ->
  (0 <= to_Q (S754_finite false mz ez))%Q /\
  (to_Q (S754_finite false mz ez) <= to_Q stored_bound)%Q.
Proof.
  intros Hm He. destruct ez as [|k|k]; try lia.
  change (to_Q stored_bound) with (5404319767592960 # 2 ^ 54)%Q.
  unfold to_Q. cbn [cond_Zopp]. unfold Qle. cbn [Qnum Qden].
  split; [lia|].
  rewrite !Pos2Z.inj_pow.
  change (2 ^ 53) with 9007199254740992 in Hm.
  change (Zpos 2 ^ Zpos 54) with 18014398509481984.
  destruct He as [He|[He Hle]].
  - assert (Hk : 55 <= Zpos k) by lia.
    replace (Zpos k) with (55 + (Zpos k - 55)) by lia.
    rewrite Z.pow_add_r by lia.
    assert (Ht : 1 <= 2 ^ (Zpos k - 55))
      by (apply (Z.pow_le_mono_r 2 0); lia).
    change (Zpos 2 ^ 55) with 36028797018963968.
    change (Zpos 2) with 2.
    revert Ht. generalize (2 ^ (Zpos k - 55)). intros t Ht. nia.
  - assert (k = 54%positive) by lia. subst k.
    change (Zpos 2 ^ Zpos 54) with 18014398509481984. lia.
Qed.

(** A positive [double] at most 0.3 narrowed to [float] and widened again
    is finite and at most the stored bound. *)
Lemma narrowed_pos (m : positive) (e : Z) :
  canonical_mantissa prec64 emax64 m e = true ->
  e < -54 \/ (e = -54 /\ Zpos m <= 5404319552844595) ->
  let v := to_double (to_float (S754_finite false m e)) in
  is_finite v = true /\ (0 <= to_Q v)%Q /\ (to_Q v <= to_Q stored_bound)%Q.
Proof.
  intros Hc He. cbv zeta.
  destruct (to_float_below_form m e Hc He) as [->|(m' & e' & -> & Hm' & He' & Hb)].
  - repeat split; vm_compute; discriminate.
  - destruct (to_double_widens false m' e' Hm' ltac:(lia))
      as (mz & k & -> & Hmz & Hk).
    split; [reflexivity|].
    pose proof (digits2_pos_bounds m') as [Hl Hu].
    assert (Hd : Zpos (digits2_pos m') <= 24).
    { destruct (Z.leb_spec (Zpos (digits2_pos m')) 24); [assumption|exfalso].
      assert (2 ^ 24 <= 2 ^ (Zpos (digits2_pos m') - 1))
        by (apply Z.pow_le_mono_r; lia). lia. }
    apply to_Q_below_bound.
    + rewrite Hmz, Hk.
      replace 53 with (Zpos (digits2_pos m') + (53 - Zpos (digits2_pos m')))
        at 2 by lia.
      rewrite Z.pow_add_r by lia.
      apply Z.mul_lt_mono_pos_r; [apply Z.pow_pos_nonneg; lia | lia].
    + destruct (Z.eq_dec (e' - Zpos k) (-54)) as [E|E]; [right|left; lia].
      split; [exact E|].
      assert (e' = -25 /\ Zpos k = 29) as [-> Hk29] by lia.
      rewrite Hmz, Hk29. change (2 ^ 29) with 536870912. lia.
Qed.

(** A [double] between -0.3 and 0.3 narrowed to [float] and widened again
    lies between the stored bounds. *)
Lemma narrowed_within (lx : float64) :
  valid_binary prec64 emax64 lx = true ->
  SFleb (neg MAX_LIN_VEL_CMD) lx = true -> SFleb lx MAX_LIN_VEL_CMD = true ->
  within_bound (to_double (to_float lx)).
Proof.
  intros Hv Hlo Hhi. unfold within_bound.
  assert (Hq : (0 <= to_Q stored_bound)%Q) by (vm_compute; discriminate).
  destruct lx as [s|[|]| |[|] m e]; try discriminate.
  - destruct s; repeat split; vm_compute; discriminate.
  - (* negative *)
    change (S754_finite true m e) with (SFopp (S754_finite false m e)).
    unfold to_float, to_double. rewrite !round_to_opp.
    fold (to_float (S754_finite false m e)).
    fold (to_double (to_float (S754_finite false m e))).
    rewrite is_finite_opp, to_Q_opp.
    unfold SFleb, neg in Hlo.
    change (S754_finite true m e) with (SFopp (S754_finite false m e)) in Hlo.
    rewrite SFcompare_opp in Hlo.
    fold (SFleb (S754_finite false m e) MAX_LIN_VEL_CMD) in Hlo.
    apply SFleb_pos_finite in Hlo.
    cbn [valid_binary] in Hv. unfold bounded in Hv.
    apply andb_true_iff in Hv. destruct Hv as [Hc _].
    destruct (narrowed_pos m e Hc ltac:(lia)) as (Hf & H0 & H1).
    split; [exact Hf|]. split.
    + apply Qopp_le_compat. exact H1.
    + apply Qle_trans with (y := 0%Q); [|exact Hq].
      apply (Qopp_le_compat 0). exact H0.
  - apply SFleb_pos_finite in Hhi.
    cbn [valid_binary] in Hv. unfold bounded in Hv.
    apply andb_true_iff in Hv. destruct Hv as [Hc _].
    destruct (narrowed_pos m e Hc ltac:(lia)) as (Hf & H0 & H1).
    split; [exact Hf|]. split; [|exact H1].
    apply Qle_trans with (y := 0%Q); [|exact H0].
    apply (Qopp_le_compat 0). exact Hq.
Qed.

(** What [driveCommandHandler] stores for a [double] that is not NaN lies
    between the stored bounds. *)
Lemma clamped_within (lx : float64) :
  valid_binary prec64 emax64 lx = true -> is_nan lx = false ->
  within_bound (to_double (limit (to_float lx) (to_float MAX_LIN_VEL_CMD))).
Proof.
  intros Hv Hn.
  destruct (clamped_value lx Hv) as (Ha & Hb & Hc). cbv zeta in Ha, Hb, Hc.
  destruct (gtb lx MAX_LIN_VEL_CMD) eqn:E1.
  - rewrite (Ha eq_refl). repeat split; vm_compute; discriminate.
  - destruct (ltb lx (neg MAX_LIN_VEL_CMD)) eqn:E2.
    + rewrite (Hb eq_refl). repeat split; vm_compute; discriminate.
    + rewrite (Hc eq_refl eq_refl). apply narrowed_within; [exact Hv| |].
      * apply not_ltb_leb; auto.
      * apply not_ltb_leb; auto.
Qed.

(** The bound holds of 0.25 and 0.3 as stored, and neither of 0.31, of 10
    nor of the largest values. *)
Example within_bound_excludes :
  within_bound (atof "0.25") /\ within_bound stored_bound /\
  ~ within_bound (atof "0.31") /\ ~ within_bound (atof "10.0") /\
  ~ within_bound (atof "-1e300") /\
  (to_Q stored_bound == 5033165 # 16777216)%Q.
Proof.
  split; [repeat split; vm_compute; discriminate|].
  split; [repeat split; vm_compute; discriminate|].
  split; [intros (_ & _ & H); vm_compute in H; apply H; reflexivity|].
  split; [intros (_ & _ & H); vm_compute in H; apply H; reflexivity|].
  split; [intros (_ & H & _); vm_compute in H; apply H; reflexivity|].
  reflexivity.
Qed.

(** C1.  The stored [angular.z] is the incoming one clamped by [limit]
    against [MAX_LIN_VEL_CMD] (0.3), not against [MAX_ANG_VEL_CMD] (0.5):
    every incoming value above 0.3 is stored as 0.3 at single precision,
    and so is 0.5 rad/s, inside the specified range of 0.5. *)
Theorem driveCommandHandler_angular_z_uses_linear_bound :
  (forall message g,
      valid_binary prec64 emax64 (z (angular message)) = true ->
      gtb (z (angular message)) MAX_LIN_VEL_CMD = true ->
      z (angular (cmd_vel_msg (driveCommandHandler message g))) =
      to_double (to_float MAX_LIN_VEL_CMD)) /\
  (let message := setpoint zero MAX_ANG_VEL_CMD in
   let stored :=
     z (angular (cmd_vel_msg (driveCommandHandler message Globals0))) in
   SFleb (z (angular message)) MAX_ANG_VEL_CMD = true /\
   stored = S754_finite false 5404319767592960 (-54) /\
   stored <> z (angular message)).
Proof.
  split.
  - intros message g Hv H.
    apply (proj1 (clamped_value (z (angular message)) Hv)). exact H.
  - cbv zeta. repeat split; try reflexivity. vm_compute. discriminate.
Qed.

Lemma driveCommandHandler_angular_z_uses_linear_bound_witness :
  z (angular (cmd_vel_msg (driveCommandHandler
       (setpoint zero (atof "0.4")) Globals0))) =
  to_double (to_float MAX_LIN_VEL_CMD).
Proof.
  apply (proj1 driveCommandHandler_angular_z_uses_linear_bound
               (setpoint zero (atof "0.4")) Globals0); reflexivity.
Defined.

(** C5, as the code has it.  [linear.x], a [double], is rounded to single
    precision on its way into [limit] and clamped there against 0.3 rounded
    to single precision: for a value above 0.3 that bound is stored, for a
    value below -0.3 its opposite, and for a value in between its rounding
    to single precision, which is the value itself when single precision
    represents it.  Unless the value is NaN, what is stored is finite and
    its value lies between the opposite of the stored bound and the stored
    bound, 5033165 / 16777216 = 0.300000011920929. *)
Theorem driveCommandHandler_linear_x_clamped (message : Twist) (g : Globals) :
  let lx := x (linear message) in
  let stored := x (linear (cmd_vel_msg (driveCommandHandler message g))) in
  valid_binary prec64 emax64 lx = true ->
  (gtb lx MAX_LIN_VEL_CMD = true ->
   stored = to_double (to_float MAX_LIN_VEL_CMD)) /\
  (ltb lx (neg MAX_LIN_VEL_CMD) = true ->
   stored = to_double (neg (to_float MAX_LIN_VEL_CMD))) /\
  (gtb lx MAX_LIN_VEL_CMD = false -> ltb lx (neg MAX_LIN_VEL_CMD) = false ->
   stored = to_double (to_float lx)) /\
  (gtb lx MAX_LIN_VEL_CMD = false -> ltb lx (neg MAX_LIN_VEL_CMD) = false ->
   to_double (to_float lx) = lx -> stored = lx) /\
  (is_nan lx = false ->
   is_finite stored = true /\
   (- to_Q (to_double (to_float MAX_LIN_VEL_CMD)) <= to_Q stored)%Q /\
   (to_Q stored <= to_Q (to_double (to_float MAX_LIN_VEL_CMD)))%Q) /\
  (to_Q (to_double (to_float MAX_LIN_VEL_CMD)) == 5033165 # 16777216)%Q.
Proof.
  cbv zeta. intros Hv.
  change (x (linear (cmd_vel_msg (driveCommandHandler message g))))
    with (to_double (limit (to_float (x (linear message)))
                           (to_float MAX_LIN_VEL_CMD))).
  destruct (clamped_value (x (linear message)) Hv) as (Ha & Hb & Hc).
  split; [exact Ha|]. split; [exact Hb|]. split; [exact Hc|].
  split; [|split; [|reflexivity]].
  - intros H1 H2 H3. rewrite (Hc H1 H2). exact H3.
  - intros H. exact (clamped_within (x (linear message)) Hv H).
Qed.

Lemma driveCommandHandler_linear_x_clamped_witness :
  x (linear (cmd_vel_msg (driveCommandHandler
       (setpoint (atof "10.0") zero) Globals0)))
    = S754_finite false 5404319767592960 (-54) /\
  x (linear (cmd_vel_msg (driveCommandHandler
       (setpoint (atof "-10.0") zero) Globals0)))
    = S754_finite true 5404319767592960 (-54) /\
  x (linear (cmd_vel_msg (driveCommandHandler
       (setpoint (atof "0.1") zero) Globals0)))
    = to_double (to_float (atof "0.1")) /\
  x (linear (cmd_vel_msg (driveCommandHandler
       (setpoint (atof "0.25") zero) Globals0)))
    = atof "0.25" /\
  (to_Q (x (linear (cmd_vel_msg (driveCommandHandler
       (setpoint (atof "0.2999999") zero) Globals0))))
   <= to_Q (to_double (to_float MAX_LIN_VEL_CMD)))%Q.
Proof.
  split; [|split; [|split; [|split]]].
  - apply (proj1 (driveCommandHandler_linear_x_clamped
                    (setpoint (atof "10.0") zero) Globals0 eq_refl)).
    reflexivity.
  - apply (proj1 (proj2 (driveCommandHandler_linear_x_clamped
                    (setpoint (atof "-10.0") zero) Globals0 eq_refl))).
    reflexivity.
  - apply (proj1 (proj2 (proj2 (driveCommandHandler_linear_x_clamped
                    (setpoint (atof "0.1") zero) Globals0 eq_refl))));
      reflexivity.
  - apply (proj1 (proj2 (proj2 (proj2 (driveCommandHandler_linear_x_clamped
                    (setpoint (atof "0.25") zero) Globals0 eq_refl)))));
      reflexivity.
  - apply (proj1 (proj2 (proj2 (proj2 (proj2 (driveCommandHandler_linear_x_clamped
                    (setpoint (atof "0.2999999") zero) Globals0 eq_refl)))))).
    reflexivity.
Defined.

(** C5 as stated fails: 0.1 m/s lies within the bounds and is stored as
    0.100000001490116..., its rounding to single precision; and 10.0 m/s
    is stored as 0.300000011920929..., which is not the [double] 0.3 but
    lies above it. *)
Lemma driveCommandHandler_linear_x_not_unchanged :
  let message := setpoint (atof "0.1") zero in
  let stored := x (linear (cmd_vel_msg (driveCommandHandler message Globals0))) in
  let stored10 :=
    x (linear (cmd_vel_msg (driveCommandHandler
         (setpoint (atof "10.0") zero) Globals0))) in
  SFleb (neg MAX_LIN_VEL_CMD) (x (linear message)) = true /\
  SFleb (x (linear message)) MAX_LIN_VEL_CMD = true /\
  stored = S754_finite false 7205759511166976 (-56) /\
  stored <> x (linear message) /\
  stored10 <> MAX_LIN_VEL_CMD /\
  gtb stored10 MAX_LIN_VEL_CMD = true.
Proof.
  cbv zeta. repeat split; try reflexivity; vm_compute; discriminate.
Qed.

(** C10.  The four components [limit] is not applied to are stored as
    received. *)
Theorem driveCommandHandler_other_components (message : Twist) (g : Globals) :
  let stored := cmd_vel_msg (driveCommandHandler message g) in
  y (linear stored) = y (linear message) /\
  z (linear stored) = z (linear message) /\
  x (angular stored) = x (angular message) /\
  y (angular stored) = y (angular message).
Proof. repeat split. Qed.

End LimiterSpec.

(* ===================================================================== *)
(** ** Properties of the telemetry decoder *)
(* ===================================================================== *)

Module DecoderSpec.
Import IEEE Libc Ros ABridge Wire.
Local Open Scope string_scope.

(** Evaluation of the decoder on a sentence whose fields are known, the
    arithmetic on the field values left alone. *)
Ltac run_decoder :=
  cbv -[atof add64 div64 to_float hundred zero of_int
        createQuaternionMsgFromRollPitchYaw createQuaternionMsgFromYaw].

(** The fields are the pieces the [getline] loop yields: the text after the
    last comma is a field only when it is not empty, so [USL,1,] has two
    fields and is left alone, while [USL,1,,] has three. *)
Example getlines_trailing_comma :
  getlines "," "USL,1," = ["USL"; "1"] /\
  getlines "," "USL,1,," = ["USL"; "1"; ""] /\
  getlines "," "" = [] /\
  parseSentence 1 "USL,1," Globals0 = (Normal tt, Globals0) /\
  stamp (range_header (sonarLeft (snd (parseSentence 1 "USL,1,," Globals0)))) = 1%Z.
Proof. repeat split. Qed.

Lemma eqb_tag_false (w tag : string) :
  recognized w = false -> In tag tags -> String.eqb w tag = false.
Proof.
  unfold recognized. intros H Hin.
  destruct (String.eqb w tag) eqn:E; [|reflexivity].
  rewrite <- H. symmetry. apply existsb_exists. exists tag. auto.
Qed.

(** Malformed fields: nothing is written and nothing is thrown. *)
Lemma parseFields_malformed (now : Time) (dataSet : list string) (g : Globals) :
  malformed dataSet -> parseFields now dataSet g = (Normal tt, g).
Proof.
  intros H. unfold parseFields.
  destruct dataSet as [|w0 [|w1 [|w2 rest]]]; try reflexivity.
  change (3 <=? List.length (w0 :: w1 :: w2 :: rest))%nat with true.
  cbv iota. unfold bind at 1. unfold at_ at 1. cbn [nth_error].
  destruct (String.eqb w1 "1") eqn:E1; [|reflexivity].
  apply String.eqb_eq in E1. subst w1.
  destruct H as [H | [H | H]].
  - simpl in H. lia.
  - exfalso. apply H. reflexivity.
  - specialize (H w0 eq_refl).
    unfold tag_is, bind, at_, ret. cbn [nth_error].
    rewrite !(eqb_tag_false w0) by (auto; unfold tags; simpl; tauto).
    reflexivity.
Qed.

Lemma parseSentences_malformed (clock : nat -> Time) (sentences : list string) :
  Forall (fun sentence => malformed (getlines "," sentence)) sentences ->
  forall i g, parseSentences clock i sentences g = (Normal tt, g).
Proof.
  induction 1 as [|sentence rest Hs _ IH]; intros i g; [reflexivity|].
  cbn [parseSentences]. unfold bind at 1. unfold parseSentence.
  rewrite (parseFields_malformed _ _ _ Hs). apply IH.
Qed.

(** C3.  A sentence with fewer than three fields, with a second field other
    than [1], or with an unknown first field leaves every global as it was
    and throws nothing; so does a whole buffer of such sentences. *)
Theorem parseData_discards_malformed :
  (forall now sentence g,
      malformed (getlines "," sentence) ->
      parseSentence now sentence g = (Normal tt, g)) /\
  (forall clock str g,
      Forall (fun sentence => malformed (getlines "," sentence))
             (getlines "010" str) ->
      parseData clock str g = (Normal tt, g)).
Proof.
  split.
  - intros now sentence g H. apply parseFields_malformed. exact H.
  - intros clock str g H. apply parseSentences_malformed. exact H.
Qed.

Lemma parseData_discards_malformed_witness :
  parseSentence 7 "USL,1" Globals0 = (Normal tt, Globals0) /\
  parseSentence 7 "ODOM,0,1,2,3,4,5,6" Globals0 = (Normal tt, Globals0) /\
  parseSentence 7 "XYZ,1,3.5" Globals0 = (Normal tt, Globals0) /\
  parseData (fun _ => 7%Z) ("IMU,1" ++ LF ++ "GRF,2,0.5" ++ LF ++ ",," ++ LF)
            Globals0 = (Normal tt, Globals0).
Proof.
  split; [|split; [|split]].
  - apply (proj1 parseData_discards_malformed). left. simpl. lia.
  - apply (proj1 parseData_discards_malformed). right. left. simpl. discriminate.
  - apply (proj1 parseData_discards_malformed). right. right.
    simpl. intros tag H. injection H as <-. reflexivity.
  - apply (proj2 parseData_discards_malformed). simpl.
    constructor; [left; simpl; lia|].
    constructor; [right; left; simpl; discriminate|].
    constructor; [left; simpl; lia|].
    constructor.
Defined.

(** C2, as the code has it.  The guard asks for three fields only.  An
    [IMU] sentence with the flag [1] and three to ten fields, or such an
    [ODOM] sentence with three to seven, is not discarded: the branch
    stamps the message, writes the fields that are there and then throws
    [std::out_of_range] out of [parseData], at the first [at] past the
    end. *)
Theorem parseSentence_short_record_throws
        (now : Time) (sentence tag w2 : string) (rest : list string)
        (g : Globals) :
  getlines "," sentence = tag :: "1" :: w2 :: rest ->
  (tag = "IMU" -> (List.length rest < 8)%nat ->
   exists g', parseSentence now sentence g = (Throw out_of_range, g') /\
     stamp (imu_header (imu g')) = now /\
     x (linear_acceleration (imu g')) = atof w2) /\
  (tag = "ODOM" -> (List.length rest < 5)%nat ->
   exists g', parseSentence now sentence g = (Throw out_of_range, g') /\
     stamp (odom_header (odom g')) = now /\
     x (position (pose (odom g'))) =
       add64 (x (position (pose (odom g)))) (div64 (atof w2) hundred)).
Proof.
  intros Hs. unfold parseSentence. rewrite Hs. split; intros -> Hlen.
  - destruct rest as [|w3 [|w4 [|w5 [|w6 [|w7 [|w8 [|w9 [|w10 rest]]]]]]]];
      try (simpl in Hlen; lia);
      (eexists; split; [run_decoder; reflexivity | split; reflexivity]).
  - destruct rest as [|w3 [|w4 [|w5 [|w6 [|w7 rest]]]]];
      try (simpl in Hlen; lia);
      (eexists; split; [run_decoder; reflexivity | split; reflexivity]).
Qed.

Lemma parseSentence_short_record_throws_witness :
  (exists g', parseSentence 5 "IMU,1,0.5" Globals0 = (Throw out_of_range, g') /\
     stamp (imu_header (imu g')) = 5 /\
     x (linear_acceleration (imu g')) = atof "0.5") /\
  (exists g', parseSentence 5 "ODOM,1,10.0" Globals0 = (Throw out_of_range, g') /\
     stamp (odom_header (odom g')) = 5 /\
     x (position (pose (odom g'))) =
       add64 (x (position (pose (odom Globals0)))) (div64 (atof "10.0") hundred)).
Proof.
  split.
  - apply (proj1 (parseSentence_short_record_throws
                    5 "IMU,1,0.5" "IMU" "0.5" [] Globals0 eq_refl));
      [reflexivity | simpl; lia].
  - apply (proj2 (parseSentence_short_record_throws
                    5 "ODOM,1,10.0" "ODOM" "10.0" [] Globals0 eq_refl));
      [reflexivity | simpl; lia].
Defined.

(** C4.  A valid [ODOM] sentence with its eight fields adds fields 2 and 3,
    divided by 100, to the stored position, zeroes [position.z], and
    replaces the heading by the yaw of field 4, the linear velocity by
    fields 5 and 6 divided by 100 and [angular.z] by field 7; nothing is
    thrown.  Two such sentences with x fields 10.0 and 5.0 take a zero
    position to [0.1 + 0.05], the [double] 0.15000000000000002, within
    [2^-55] (one unit in the last place) of 0.15 and not the 0.05 a
    replacement would leave. *)
Theorem parseSentence_ODOM_accumulates :
  (forall now sentence w2 w3 w4 w5 w6 w7 rest g,
      getlines "," sentence =
        "ODOM" :: "1" :: w2 :: w3 :: w4 :: w5 :: w6 :: w7 :: rest ->
      exists g', parseSentence now sentence g = (Normal tt, g') /\
        x (position (pose (odom g'))) =
          add64 (x (position (pose (odom g)))) (div64 (atof w2) hundred) /\
        y (position (pose (odom g'))) =
          add64 (y (position (pose (odom g)))) (div64 (atof w3) hundred) /\
        z (position (pose (odom g'))) = zero /\
        pose_orientation (pose (odom g')) = createQuaternionMsgFromYaw (atof w4) /\
        x (linear (twist (odom g'))) = div64 (atof w5) hundred /\
        y (linear (twist (odom g'))) = div64 (atof w6) hundred /\
        z (angular (twist (odom g'))) = atof w7) /\
  (let str := "ODOM,1,10.0,0,0,0,0,0" ++ LF ++ "ODOM,1,5.0,0,0,0,0,0" ++ LF in
   exists g', parseData Z.of_nat str Globals0 = (Normal tt, g') /\
     x (position (pose (odom g'))) =
       add64 (div64 (atof "10.0") hundred) (div64 (atof "5.0") hundred) /\
     x (position (pose (odom g'))) = S754_finite false 5404319552844596 (-55) /\
     (Qabs (to_Q (x (position (pose (odom g')))) - (15 # 100)) <= (1 # 2 ^ 55))%Q /\
     x (position (pose (odom g'))) <> div64 (atof "5.0") hundred).
Proof.
  split.
  - intros now sentence w2 w3 w4 w5 w6 w7 rest g Hs.
    unfold parseSentence. rewrite Hs.
    eexists; split; [run_decoder; reflexivity | repeat split].
  - cbv zeta. eexists. split; [vm_compute; reflexivity|].
    split; [reflexivity|]. split; [reflexivity|].
    split; vm_compute; discriminate.
Qed.

Lemma parseSentence_ODOM_accumulates_witness :
  exists g', parseSentence 3 "ODOM,1,10.0,-20,1.5,3,4,0.25" Globals0
               = (Normal tt, g') /\
    x (position (pose (odom g'))) =
      add64 (x (position (pose (odom Globals0)))) (div64 (atof "10.0") hundred) /\
    y (position (pose (odom g'))) =
      add64 (y (position (pose (odom Globals0)))) (div64 (atof "-20") hundred) /\
    z (position (pose (odom g'))) = zero /\
    pose_orientation (pose (odom g')) = createQuaternionMsgFromYaw (atof "1.5") /\
    x (linear (twist (odom g'))) = div64 (atof "3") hundred /\
    y (linear (twist (odom g'))) = div64 (atof "4") hundred /\
    z (angular (twist (odom g'))) = atof "0.25".
Proof.
  apply (proj1 parseSentence_ODOM_accumulates
               3 "ODOM,1,10.0,-20,1.5,3,4,0.25"
               "10.0" "-20" "1.5" "3" "4" "0.25" [] Globals0).
  reflexivity.
Defined.

(** C9.  A valid sonar sentence replaces the range of its own sensor by
    field 2 divided by 100, rounded to the [float] the message holds, and
    leaves the two other ranges as they were; [USL,1,150.0] gives a left
    range of exactly 1.5. *)
Theorem parseSentence_sonar_range :
  (forall now sentence w2 rest g,
      (getlines "," sentence = "USL" :: "1" :: w2 :: rest ->
       exists g', parseSentence now sentence g = (Normal tt, g') /\
         range (sonarLeft g') = to_float (div64 (atof w2) hundred) /\
         sonarCenter g' = sonarCenter g /\ sonarRight g' = sonarRight g) /\
      (getlines "," sentence = "USC" :: "1" :: w2 :: rest ->
       exists g', parseSentence now sentence g = (Normal tt, g') /\
         range (sonarCenter g') = to_float (div64 (atof w2) hundred) /\
         sonarLeft g' = sonarLeft g /\ sonarRight g' = sonarRight g) /\
      (getlines "," sentence = "USR" :: "1" :: w2 :: rest ->
       exists g', parseSentence now sentence g = (Normal tt, g') /\
         range (sonarRight g') = to_float (div64 (atof w2) hundred) /\
         sonarLeft g' = sonarLeft g /\ sonarCenter g' = sonarCenter g)) /\
  (exists g', parseData Z.of_nat ("USL,1,150.0" ++ LF) Globals0 = (Normal tt, g') /\
     range (sonarLeft g') = S754_finite false 12582912 (-23) /\
     (to_Q (range (sonarLeft g')) == (15 # 10))%Q).
Proof.
  split.
  - intros now sentence w2 rest g. unfold parseSentence.
    split; [|split]; intros ->;
      (eexists; split; [run_decoder; reflexivity | repeat split]).
  - eexists. split; [vm_compute; reflexivity|].
    split; reflexivity.
Qed.

Lemma parseSentence_sonar_range_witness :
  (exists g', parseSentence 9 "USL,1,150.0" Globals0 = (Normal tt, g') /\
     range (sonarLeft g') = to_float (div64 (atof "150.0") hundred) /\
     sonarCenter g' = sonarCenter Globals0 /\ sonarRight g' = sonarRight Globals0) /\
  (exists g', parseSentence 9 "USC,1,42" Globals0 = (Normal tt, g') /\
     range (sonarCenter g') = to_float (div64 (atof "42") hundred) /\
     sonarLeft g' = sonarLeft Globals0 /\ sonarRight g' = sonarRight Globals0) /\
  (exists g', parseSentence 9 "USR,1,300,x" Globals0 = (Normal tt, g') /\
     range (sonarRight g') = to_float (div64 (atof "300") hundred) /\
     sonarLeft g' = sonarLeft Globals0 /\ sonarCenter g' = sonarCenter Globals0).
Proof.
  split; [|split].
  - apply (proj1 (proj1 parseSentence_sonar_range
                        9 "USL,1,150.0" "150.0" [] Globals0)).
    reflexivity.
  - apply (proj1 (proj2 (proj1 parseSentence_sonar_range
                        9 "USC,1,42" "42" [] Globals0))).
    reflexivity.
  - apply (proj2 (proj2 (proj1 parseSentence_sonar_range
                        9 "USR,1,300,x" "300" ["x"] Globals0))).
    reflexivity.
Defined.

(** *** Unparsable fields *)

(** [read_digits] stops at once on a text that does not start with a
    digit. *)
Lemma read_digits_no_digit (s : string) (acc n : Z) :
  match s with String c _ => is_digit c | EmptyString => false end = false ->
  read_digits digit_val 10 s acc n = (acc, n, s).
Proof.
  destruct s as [|c r]; [reflexivity|].
  unfold is_digit. simpl. destruct (digit_val c); [discriminate|reflexivity].
Qed.

Lemma is_digit_zero_char (c : ascii) :
  is_digit c = false -> Ascii.eqb c "0" = false.
Proof.
  intros H. destruct (Ascii.eqb c "0") eqn:E; [|reflexivity].
  apply Ascii.eqb_eq in E. subst c. discriminate H.
Qed.

Lemma parse_hex_no_digit (neg : bool) (s : string) :
  match s with String c _ => is_digit c | EmptyString => false end = false ->
  parse_hex neg s = None.
Proof.
  destruct s as [|c [|x r]]; try reflexivity.
  intros H. simpl. rewrite (is_digit_zero_char c H). reflexivity.
Qed.

Lemma parse_decimal_no_digit (neg : bool) (s : string) :
  match s with
  | String c r =>
      is_digit c ||
      (Ascii.eqb c "." &&
       match r with String d _ => is_digit d | EmptyString => false end)
  | EmptyString => false
  end = false ->
  parse_decimal neg s = None.
Proof.
  destruct s as [|c r]; [reflexivity|].
  intros H. apply orb_false_iff in H. destruct H as [Hc Hr].
  unfold parse_decimal, read_mantissa.
  rewrite (read_digits_no_digit (String c r) 0 0 Hc).
  destruct (Ascii.eqb c "."); [|reflexivity].
  simpl in Hr. rewrite (read_digits_no_digit r 0 0 Hr). reflexivity.
Qed.

(** [atof] of a text that starts no number is [+0.0]. *)
Lemma atof_unparsable (w : string) : unparsable w = true -> atof w = zero.
Proof.
  unfold unparsable, starts_number, atof, strtod. intros H.
  apply negb_true_iff in H.
  destruct (read_sign (skip_space w)) as [neg body]. cbn [snd] in H.
  apply orb_false_iff in H. destruct H as [H Hnan].
  apply orb_false_iff in H. destruct H as [Hnum Hinf].
  unfold parse_unsigned.
  rewrite parse_hex_no_digit, (parse_decimal_no_digit _ _ Hnum), Hinf, Hnan.
  - reflexivity.
  - destruct body as [|c r]; [reflexivity|].
    apply orb_false_iff in Hnum. tauto.
Qed.

Lemma atof_zero_unparsable (w : string) : atof (zero_unparsable w) = atof w.
Proof.
  unfold zero_unparsable. destruct (unparsable w) eqn:E; [|reflexivity].
  rewrite (atof_unparsable w E). reflexivity.
Qed.

Ltac run_decoder_keep :=
  cbv -[atof add64 div64 to_float hundred zero of_int zero_unparsable
        createQuaternionMsgFromRollPitchYaw createQuaternionMsgFromYaw].

(** A sentence with a tag, the flag [1] and the fields its branch reads is
    decoded without a throw, whatever the texts of the fields, and the
    result is the one for the sentence with every unparsable field
    replaced by [0.0]. *)
Lemma parseFields_unparsable (now : Time) (tag : string)
      (fields : list string) (g : Globals) :
  In tag tags ->
  (fields_read tag <= 2 + List.length fields)%nat ->
  exists g',
    parseFields now (tag :: "1" :: fields) g = (Normal tt, g') /\
    stamp_of tag g' = now /\
    parseFields now (tag :: "1" :: map zero_unparsable fields) g
      = (Normal tt, g').
Proof.
  intros Hin Hlen. unfold tags in Hin. simpl in Hin.
  destruct Hin as [<-|[<-|[<-|[<-|[<-|[<-|[<-|[]]]]]]]];
    cbv [fields_read String.eqb Ascii.eqb Bool.eqb] in Hlen;
    repeat (destruct fields as [|? fields]; [simpl in Hlen; lia|]);
    (eexists; split; [run_decoder; reflexivity|];
     split; [reflexivity|];
     run_decoder_keep; rewrite ?atof_zero_unparsable; reflexivity).
Qed.

(** [read_digits] only ever counts up. *)
Lemma read_digits_count (s : string) :
  forall acc n, (n <= snd (fst (read_digits digit_val 10 s acc n)))%Z.
Proof.
  induction s as [|c r IH]; intros acc n; simpl; [lia|].
  destruct (digit_val c) as [d|]; simpl; [|lia].
  specialize (IH (acc * 10 + d)%Z (n + 1)%Z). lia.
Qed.

(** A text that starts with a digit, or a point and a digit, has at least
    one digit in its mantissa. *)
Lemma read_mantissa_count (s : string) :
  match s with
  | String c r =>
      is_digit c ||
      (Ascii.eqb c "." &&
       match r with String d _ => is_digit d | EmptyString => false end)
  | EmptyString => false
  end = true ->
  (0 < snd (fst (read_mantissa digit_val 10 s)))%Z.
Proof.
  assert (Hfirst : forall c r acc n, is_digit c = true ->
            (n + 1 <= snd (fst (read_digits digit_val 10 (String c r) acc n)))%Z).
  { intros c r acc n Hc. unfold is_digit in Hc. cbn [read_digits].
    destruct (digit_val c) as [d|]; [|discriminate].
    apply read_digits_count. }
  destruct s as [|c r]; [discriminate|]. intros H.
  unfold read_mantissa.
  destruct (is_digit c) eqn:Hc.
  - pose proof (Hfirst c r 0%Z 0%Z Hc) as Hn.
    destruct (read_digits digit_val 10 (String c r) 0 0) as [[m1 n1] r1].
    cbn [fst snd] in Hn.
    destruct r1 as [|c1 r2]; [cbn [fst snd]; lia|].
    destruct (Ascii.eqb c1 "."); [|cbn [fst snd]; lia].
    pose proof (read_digits_count r2 m1 0) as Hn2.
    destruct (read_digits digit_val 10 r2 m1 0) as [[m2 n2] r3].
    cbn [fst snd] in *. lia.
  - cbn [orb] in H. apply andb_true_iff in H. destruct H as [Hdot Hr].
    rewrite (read_digits_no_digit (String c r) 0 0 Hc), Hdot.
    destruct r as [|d r']; [discriminate|].
    pose proof (Hfirst d r' 0%Z 0%Z Hr) as Hn.
    destruct (read_digits digit_val 10 (String d r') 0 0) as [[m2 n2] r3].
    cbn [fst snd] in *. lia.
Qed.

Lemma parse_decimal_digit (neg : bool) (s : string) :
  match s with
  | String c r =>
      is_digit c ||
      (Ascii.eqb c "." &&
       match r with String d _ => is_digit d | EmptyString => false end)
  | EmptyString => false
  end = true ->
  exists v, parse_decimal neg s = Some v.
Proof.
  intros H. apply read_mantissa_count in H. unfold parse_decimal.
  destruct (read_mantissa digit_val 10 s) as [[[m k] n] r'].
  cbn [fst snd] in H.
  replace (0 <? n)%Z with true by (symmetry; apply Z.ltb_lt; lia).
  eauto.
Qed.

(** [unparsable] holds of exactly the texts [strtod] converts nothing
    of. *)
Lemma unparsable_exact (w : string) :
  unparsable w = true <-> strtod w = None.
Proof.
  split.
  - intros H. unfold unparsable, starts_number, strtod in *.
    apply negb_true_iff in H.
    destruct (read_sign (skip_space w)) as [neg body]. cbn [snd] in H.
    apply orb_false_iff in H. destruct H as [H Hnan].
    apply orb_false_iff in H. destruct H as [Hnum Hinf].
    unfold parse_unsigned.
    rewrite parse_hex_no_digit, (parse_decimal_no_digit _ _ Hnum), Hinf, Hnan.
    + reflexivity.
    + destruct body as [|c r]; [reflexivity|].
      apply orb_false_iff in Hnum. tauto.
  - intros H. unfold unparsable, starts_number, strtod in *.
    destruct (read_sign (skip_space w)) as [neg body]. cbn [snd].
    apply negb_true_iff.
    unfold parse_unsigned in H.
    destruct (parse_hex neg body); [discriminate|].
    match goal with |- (?A || _ || _) = false => destruct A eqn:Hnum end.
    + destruct (parse_decimal_digit neg body Hnum) as [v Hv].
      rewrite Hv in H. discriminate.
    + destruct (parse_decimal neg body); [discriminate|].
      destruct (starts_with_ci "inf" body); [discriminate|].
      destruct (starts_with_ci "nan" body); [discriminate|].
      reflexivity.
Qed.

(** C8, as the code has it.  A field [strtod] can convert nothing of is
    read as [+0.0], a field it can convert as the number converted, and
    nothing is raised: a sentence with a tag, the flag [1] and the fields
    its branch reads is decoded without a throw whatever the texts of its
    fields; its message is stamped and holds, component by component, the
    numbers of the fields, an unparsable field counting as [0.0].  The
    fields are the pieces the [getline] loop yields, so a last field that
    is empty is no field. *)
Theorem parseSentence_unparsable_fields_are_zero :
  (forall w, unparsable w = true ->
             atof w = zero /\ atof (zero_unparsable w) = zero) /\
  (forall w, unparsable w = false -> zero_unparsable w = w) /\
  (forall now sentence g,
      let num := fun w => atof (zero_unparsable w) in
      (forall w2 rest,
          getlines "," sentence = "GRF" :: "1" :: w2 :: rest ->
          exists g', parseSentence now sentence g = (Normal tt, g') /\
            stamp (qs_header (fingerAngle g')) = now /\
            quaternion (fingerAngle g') =
              createQuaternionMsgFromRollPitchYaw (num w2) zero zero) /\
      (forall w2 rest,
          getlines "," sentence = "GRW" :: "1" :: w2 :: rest ->
          exists g', parseSentence now sentence g = (Normal tt, g') /\
            stamp (qs_header (wristAngle g')) = now /\
            quaternion (wristAngle g') =
              createQuaternionMsgFromRollPitchYaw (num w2) zero zero) /\
      (forall w2 w3 w4 w5 w6 w7 w8 w9 w10 rest,
          getlines "," sentence =
            "IMU" :: "1" :: w2 :: w3 :: w4 :: w5 :: w6 :: w7 :: w8 :: w9
                  :: w10 :: rest ->
          exists g', parseSentence now sentence g = (Normal tt, g') /\
            stamp (imu_header (imu g')) = now /\
            linear_acceleration (imu g') =
              {| x := num w2; y := zero; z := num w4 |} /\
            angular_velocity (imu g') =
              {| x := num w5; y := num w6; z := num w7 |} /\
            orientation (imu g') =
              createQuaternionMsgFromRollPitchYaw (num w8) (num w9) (num w10)) /\
      (forall w2 w3 w4 w5 w6 w7 rest,
          getlines "," sentence =
            "ODOM" :: "1" :: w2 :: w3 :: w4 :: w5 :: w6 :: w7 :: rest ->
          exists g', parseSentence now sentence g = (Normal tt, g') /\
            stamp (odom_header (odom g')) = now /\
            position (pose (odom g')) =
              {| x := add64 (x (position (pose (odom g)))) (div64 (num w2) hundred);
                 y := add64 (y (position (pose (odom g)))) (div64 (num w3) hundred);
                 z := zero |} /\
            pose_orientation (pose (odom g')) = createQuaternionMsgFromYaw (num w4) /\
            x (linear (twist (odom g'))) = div64 (num w5) hundred /\
            y (linear (twist (odom g'))) = div64 (num w6) hundred /\
            z (angular (twist (odom g'))) = num w7) /\
      (forall w2 rest,
          getlines "," sentence = "USL" :: "1" :: w2 :: rest ->
          exists g', parseSentence now sentence g = (Normal tt, g') /\
            stamp (range_header (sonarLeft g')) = now /\
            range (sonarLeft g') = to_float (div64 (num w2) hundred)) /\
      (forall w2 rest,
          getlines "," sentence = "USC" :: "1" :: w2 :: rest ->
          exists g', parseSentence now sentence g = (Normal tt, g') /\
            stamp (range_header (sonarCenter g')) = now /\
            range (sonarCenter g') = to_float (div64 (num w2) hundred)) /\
      (forall w2 rest,
          getlines "," sentence = "USR" :: "1" :: w2 :: rest ->
          exists g', parseSentence now sentence g = (Normal tt, g') /\
            stamp (range_header (sonarRight g')) = now /\
            range (sonarRight g') = to_float (div64 (num w2) hundred))).
Proof.
  split; [|split].
  - intros w H. rewrite atof_zero_unparsable.
    split; apply atof_unparsable; exact H.
  - intros w H. unfold zero_unparsable. rewrite H. reflexivity.
  - intros now sentence g. cbv zeta. unfold parseSentence.
    repeat match goal with |- _ /\ _ => split end;
      intros; rewrite ?atof_zero_unparsable;
      match goal with H : getlines _ _ = _ |- _ => rewrite H end;
      (eexists; split; [run_decoder; reflexivity | repeat split]).
Qed.

Lemma parseSentence_unparsable_fields_are_zero_witness :
  atof "n/a" = zero /\
  exists g',
    parseSentence 4 "ODOM,1,10.0,abc,,n/a,-,2.5" Globals0 = (Normal tt, g') /\
    stamp (odom_header (odom g')) = 4 /\
    position (pose (odom g')) =
      {| x := add64 zero (div64 (atof "10.0") hundred);
         y := add64 zero (div64 (atof "0.0") hundred);
         z := zero |} /\
    pose_orientation (pose (odom g')) = createQuaternionMsgFromYaw (atof "0.0") /\
    x (linear (twist (odom g'))) = div64 (atof "0.0") hundred /\
    y (linear (twist (odom g'))) = div64 (atof "0.0") hundred /\
    z (angular (twist (odom g'))) = atof "2.5".
Proof.
  split.
  - apply (proj1 parseSentence_unparsable_fields_are_zero "n/a").
    reflexivity.
  - apply (proj1 (proj2 (proj2 (proj2
             (proj2 (proj2 parseSentence_unparsable_fields_are_zero)
                    4 "ODOM,1,10.0,abc,,n/a,-,2.5" Globals0))))
             "10.0" "abc" "" "n/a" "-" "2.5" []).
    reflexivity.
Defined.

(** C8 as stated fails for an unparsable field that is empty and the
    last: [getline] yields no piece after the final comma, [USL,1,] has
    two fields, and the guard on three fields discards it; the record is
    not applied with 0.0, the range and the stamp stay as they were,
    whereas [USL,1,x] is applied: it stamps the message and sets the range
    to 0. *)
Lemma parseSentence_empty_last_field_not_applied :
  let g := with_sonarLeft (range_set_range (to_float (atof "1.5"))) Globals0 in
  unparsable "" = true /\
  getlines "," "USL,1," = ["USL"; "1"] /\
  parseSentence 7 "USL,1," g = (Normal tt, g) /\
  stamp (range_header (sonarLeft g)) <> 7 /\
  range (sonarLeft g) <> zero /\
  stamp (range_header (sonarLeft (snd (parseSentence 7 "USL,1,x" g)))) = 7 /\
  range (sonarLeft (snd (parseSentence 7 "USL,1,x" g))) = zero.
Proof.
  cbv zeta. repeat split; try reflexivity; vm_compute; discriminate.
Qed.

End DecoderSpec.

(* ===================================================================== *)
(** ** Properties of the duty computation *)
(* ===================================================================== *)

Module DutySpec.
Import IEEE Libc Ros ABridge Wire.
Local Open Scope string_scope.
Local Open Scope Z_scope.

(** C6, as the code has it.  Each error, observed minus setpoint, is
    multiplied by [Kp = 10] and truncated toward zero on its own, into
    [vx] and [vz]; when [vx - vz] and [vx + vz] fit an [int] they are the
    duties, and the command sent is built from them; when one of them does
    not, the [int] arithmetic overflows and there is no defined result, as
    for observed velocities of 107374182.4 each, where [vx] and [vz] are
    [2^30].  Observed velocities (0, 0) against a setpoint of 0.3 and 0,
    given as the [double] 0.3 or as [driveCommandHandler] stores it, give
    (-3, -3). *)
Theorem motor_duties_truncate_each_term :
  (forall (g : Globals) (vx vz : Z),
      let err_linear :=
        sub64 (x (linear (twist (odom g)))) (x (linear (cmd_vel_msg g))) in
      let err_angular :=
        sub64 (z (angular (twist (odom g)))) (z (angular (cmd_vel_msg g))) in
      to_int (mul64 err_linear (to_double Kp)) = Some vx ->
      to_int (mul64 err_angular (to_double Kp)) = Some vz ->
      vx = trunc (mul64 err_linear (to_double Kp)) /\
      vz = trunc (mul64 err_angular (to_double Kp)) /\
      (in_int (vx - vz) = true -> in_int (vx + vz) = true ->
       motor_duties g = Some (vx - vz, vx + vz) /\
       ((String.length (format_moveCmd (vx - vz) (vx + vz)) < 16)%nat ->
        calculateMotorCommands g =
          Some (sendData (format_moveCmd (vx - vz) (vx + vz)) g))) /\
      (in_int (vx - vz) && in_int (vx + vz) = false ->
       motor_duties g = None /\ calculateMotorCommands g = None)) /\
  (to_Q (to_double Kp) == 10)%Q /\
  motor_duties (commanded (atof "0.3") zero (observing zero zero Globals0))
    = Some (-3, -3) /\
  motor_duties (driveCommandHandler (setpoint (atof "0.3") zero)
                  (observing zero zero Globals0))
    = Some (-3, -3) /\
  (let g := observing (atof "107374182.4") (atof "107374182.4") Globals0 in
   to_int (mul64 (sub64 (x (linear (twist (odom g))))
                        (x (linear (cmd_vel_msg g)))) (to_double Kp))
     = Some (2 ^ 30) /\
   to_int (mul64 (sub64 (z (angular (twist (odom g))))
                        (z (angular (cmd_vel_msg g)))) (to_double Kp))
     = Some (2 ^ 30) /\
   in_int (2 ^ 30 + 2 ^ 30) = false /\
   motor_duties g = None).
Proof.
  split; [|split; [|split; [|split]]]; try reflexivity;
    [|cbv zeta; repeat split; vm_compute; reflexivity].
  intros g vx vz err_linear err_angular Hx Hz.
  assert (Hvx : vx = trunc (mul64 err_linear (to_double Kp))).
  { unfold to_int in Hx.
    destruct (is_finite _ && in_int _); [congruence | discriminate]. }
  assert (Hvz : vz = trunc (mul64 err_angular (to_double Kp))).
  { unfold to_int in Hz.
    destruct (is_finite _ && in_int _); [congruence | discriminate]. }
  split; [exact Hvx|]. split; [exact Hvz|]. split.
  - intros Hs Ha.
    assert (Hd : motor_duties g = Some (vx - vz, vx + vz)).
    { unfold motor_duties. fold err_linear. fold err_angular.
      rewrite Hx, Hz. unfold int_sub, int_add. rewrite Hs, Ha. reflexivity. }
    split; [exact Hd|].
    intros Hlen. unfold calculateMotorCommands. rewrite Hd.
    apply Nat.ltb_lt in Hlen. rewrite Hlen. reflexivity.
  - intros Hover.
    assert (Hd : motor_duties g = None).
    { unfold motor_duties. fold err_linear. fold err_angular.
      rewrite Hx, Hz. unfold int_sub, int_add.
      destruct (in_int (vx - vz)); [|reflexivity].
      destruct (in_int (vx + vz)); [discriminate Hover|reflexivity]. }
    split; [exact Hd|]. unfold calculateMotorCommands. rewrite Hd. reflexivity.
Qed.

Lemma motor_duties_truncate_each_term_witness :
  let g := observing (atof "0.75") (atof "0.0625") Globals0 in
  7 = trunc (mul64 (sub64 (x (linear (twist (odom g))))
                          (x (linear (cmd_vel_msg g)))) (to_double Kp)) /\
  0 = trunc (mul64 (sub64 (z (angular (twist (odom g))))
                          (z (angular (cmd_vel_msg g)))) (to_double Kp)) /\
  motor_duties g = Some (7 - 0, 7 + 0) /\
  calculateMotorCommands g =
    Some (sendData (format_moveCmd (7 - 0) (7 + 0)) g).
Proof.
  cbv zeta.
  destruct (proj1 motor_duties_truncate_each_term
              (observing (atof "0.75") (atof "0.0625") Globals0) 7 0
              eq_refl eq_refl)
    as (Hx & Hz & Hd & _).
  destruct (Hd eq_refl eq_refl) as [Hm Hc].
  repeat (split; [assumption|]).
  apply Hc. vm_compute. lia.
Defined.

(** C6 as stated fails: with observed velocities 0.75 and 0.0625 and a zero
    setpoint the scaled errors are 7.5 and 0.625; the code sends (7, 7),
    whereas the difference and the sum, truncated, are 6 and 8. *)
Lemma motor_duties_not_truncated_sum :
  let g := observing (atof "0.75") (atof "0.0625") Globals0 in
  let el := mul64 (sub64 (x (linear (twist (odom g))))
                         (x (linear (cmd_vel_msg g)))) (to_double Kp) in
  let ea := mul64 (sub64 (z (angular (twist (odom g))))
                         (z (angular (cmd_vel_msg g)))) (to_double Kp) in
  (to_Q el == 75 # 10)%Q /\ (to_Q ea == 625 # 1000)%Q /\
  motor_duties g = Some (7, 7) /\
  to_int (sub64 el ea) = Some 6 /\
  to_int (add64 el ea) = Some 8 /\
  option_map usb_sent (calculateMotorCommands g) = Some [line "v,7,7"].
Proof. cbv zeta. repeat split. Qed.

End DutySpec.

(* ===================================================================== *)
(** ** Properties of the gripper command encoders *)
(* ===================================================================== *)

Module EncoderSpec.
Import IEEE Libc Ros ABridge Wire IEEEFacts.
Local Open Scope string_scope.
Local Open Scope Z_scope.

(** Every angle below zero compares below 0.01. *)
Lemma negative_below_small (angle : float32) :
  negative angle = true -> ltb (to_double angle) small_angle = true.
Proof.
  intros H. apply (round_to_sign prec64 emax64) in H.
  unfold to_double. destruct (round_to prec64 emax64 angle) as [s|s| |s m e];
    try contradiction; subst s; reflexivity.
Qed.

(** C7, as the code has it.  The test is [angle < 0.01] on the signed
    angle, with no absolute value: every angle below 0.01, so every
    negative angle, is sent as [f,0] ([w,0] for the wrist); the others go
    through [%.4g], four significant digits.  0.005 gives [f,0] and
    1.2345678 gives [f,1.235]. *)
Theorem angle_handlers_encode :
  (forall (angle : float32) (g : Globals),
      (ltb (to_double angle) small_angle = true ->
       usb_sent (fingerAngleHandler angle g) = (usb_sent g ++ [line "f,0"])%list /\
       usb_sent (wristAngleHandler angle g) = (usb_sent g ++ [line "w,0"])%list) /\
      (negative angle = true ->
       usb_sent (fingerAngleHandler angle g) = (usb_sent g ++ [line "f,0"])%list /\
       usb_sent (wristAngleHandler angle g) = (usb_sent g ++ [line "w,0"])%list) /\
      (ltb (to_double angle) small_angle = false ->
       usb_sent (fingerAngleHandler angle g) =
         (usb_sent g ++ [line ("f," ++ format_g 4 (to_double angle))])%list /\
       usb_sent (wristAngleHandler angle g) =
         (usb_sent g ++ [line ("w," ++ format_g 4 (to_double angle))])%list)) /\
  usb_sent (fingerAngleHandler (to_float (atof "0.005")) Globals0)
    = [line "f,0"] /\
  usb_sent (fingerAngleHandler (to_float (atof "1.2345678")) Globals0)
    = [line "f,1.235"] /\
  usb_sent (wristAngleHandler (to_float (atof "1.2345678")) Globals0)
    = [line "w,1.235"].
Proof.
  split; [|repeat split].
  intros angle g.
  assert (Hsmall : ltb (to_double angle) small_angle = true ->
    usb_sent (fingerAngleHandler angle g) = (usb_sent g ++ [line "f,0"])%list /\
    usb_sent (wristAngleHandler angle g) = (usb_sent g ++ [line "w,0"])%list).
  { intros H. unfold fingerAngleHandler, wristAngleHandler, angle_cmd.
    rewrite H. split; reflexivity. }
  split; [exact Hsmall|]. split.
  - intros H. apply Hsmall, negative_below_small, H.
  - intros H. unfold fingerAngleHandler, wristAngleHandler, angle_cmd.
    rewrite H. split; reflexivity.
Qed.

Lemma angle_handlers_encode_witness :
  usb_sent (fingerAngleHandler (to_float (atof "0.005")) Globals0)
    = (usb_sent Globals0 ++ [line "f,0"])%list /\
  usb_sent (wristAngleHandler (to_float (atof "-1.5")) Globals0)
    = (usb_sent Globals0 ++ [line "w,0"])%list /\
  usb_sent (fingerAngleHandler (to_float (atof "0.5")) Globals0)
    = (usb_sent Globals0 ++
         [line ("f," ++ format_g 4 (to_double (to_float (atof "0.5"))))])%list.
Proof.
  split; [|split].
  - apply (proj1 (proj1 angle_handlers_encode
                        (to_float (atof "0.005")) Globals0)).
    reflexivity.
  - apply (proj1 (proj2 (proj1 angle_handlers_encode
                        (to_float (atof "-1.5")) Globals0))).
    reflexivity.
  - apply (proj2 (proj2 (proj1 angle_handlers_encode
                        (to_float (atof "0.5")) Globals0))).
    reflexivity.
Defined.

(** C7 as stated fails: the angle -1.0 has magnitude 1.0, not below 0.01,
    and is sent as [f,0], not in the four-digit form [f,-1]. *)
Lemma fingerAngleHandler_negative_angle :
  let angle := to_float (atof "-1.0") in
  ltb (SFabs (to_double angle)) small_angle = false /\
  usb_sent (fingerAngleHandler angle Globals0) = [line "f,0"] /\
  line ("f," ++ format_g 4 (to_double angle)) = line "f,-1" /\
  usb_sent (fingerAngleHandler angle Globals0)
    <> [line ("f," ++ format_g 4 (to_double angle))].
Proof.
  cbv zeta. repeat split. vm_compute. discriminate.
Qed.

End EncoderSpec.

(* ===================================================================== *)
(** ** Properties of the splitting into sentences and fields *)
(* ===================================================================== *)

Module LinesSpec.
Import IEEE Libc Ros ABridge Wire Node Lines.
Local Open Scope string_scope.

Lemma append_assoc (a b c : string) : (a ++ b) ++ c = a ++ (b ++ c).
Proof. induction a as [|x a IH]; simpl; [reflexivity|]. rewrite IH. reflexivity. Qed.

Lemma append_empty_r (a : string) : a ++ "" = a.
Proof. induction a as [|x a IH]; simpl; [reflexivity|]. rewrite IH. reflexivity. Qed.

Lemma has_char_append (c : ascii) (a b : string) :
  has_char c (a ++ b) = has_char c a || has_char c b.
Proof.
  induction a as [|x a IH]; simpl; [reflexivity|].
  rewrite IH, orb_assoc. reflexivity.
Qed.

Lemma nonempty_snoc (w : string) (c : ascii) : nonempty (w ++ String c "") = true.
Proof. destruct w; reflexivity. Qed.

Lemma getlines_from_no_delim (delim : ascii) (s : string) :
  forall word, has_char delim word = false ->
  Forall (fun w => has_char delim w = false) (getlines_from delim s word).
Proof.
  induction s as [|c r IH]; intros word Hw; simpl.
  - destruct word; constructor; auto.
  - destruct (Ascii.eqb c delim) eqn:E.
    + constructor; [exact Hw|]. apply IH. reflexivity.
    + apply IH. rewrite has_char_append, Hw. simpl. rewrite E. reflexivity.
Qed.

(** Reading one piece that is followed by the delimiter. *)
Lemma getlines_from_piece (delim : ascii) (w : string) :
  has_char delim w = false ->
  forall rest word,
    getlines_from delim (w ++ String delim rest) word =
    (word ++ w) :: getlines_from delim rest "".
Proof.
  induction w as [|c w IH]; intros Hw rest word; simpl.
  - rewrite Ascii.eqb_refl, append_empty_r. reflexivity.
  - simpl in Hw. apply orb_false_iff in Hw. destruct Hw as [Hc Hw].
    rewrite Hc, (IH Hw), append_assoc. reflexivity.
Qed.

Lemma getlines_join (delim : ascii) (l : list string) :
  Forall (fun w => has_char delim w = false) l ->
  getlines delim (join delim l) = l.
Proof.
  unfold getlines. induction 1 as [|w l Hw _ IH]; [reflexivity|].
  simpl. rewrite (getlines_from_piece delim w Hw). simpl. rewrite IH. reflexivity.
Qed.

(** The text with the delimiter added after a piece left open. *)
Lemma join_getlines_from (delim : ascii) (s : string) :
  forall word,
    join delim (getlines_from delim s word) =
    word ++ s ++ (if open_after delim s (nonempty word)
                  then String delim "" else "").
Proof.
  induction s as [|c r IH]; intros word; simpl.
  - destruct word; simpl; [reflexivity|]. reflexivity.
  - destruct (Ascii.eqb c delim) eqn:E; simpl.
    + rewrite IH. simpl. apply Ascii.eqb_eq in E. subst c. reflexivity.
    + rewrite IH, nonempty_snoc, append_assoc. reflexivity.
Qed.

Lemma getlines_from_append (delim : ascii) (s1 s2 : string) :
  forall word, open_after delim s1 (nonempty word) = false ->
  getlines_from delim (s1 ++ s2) word =
  (getlines_from delim s1 word ++ getlines_from delim s2 "")%list.
Proof.
  induction s1 as [|c r IH]; intros word H; simpl in *.
  - destruct word; [reflexivity|discriminate].
  - destruct (Ascii.eqb c delim) eqn:E; simpl in H.
    + simpl. f_equal. apply IH. exact H.
    + apply IH. rewrite nonempty_snoc. exact H.
Qed.

(** X1.  The pieces [getlines] yields never contain the delimiter; a text
    made of pieces, each followed by the delimiter, is split back into
    those pieces; and the pieces of any text, each followed by the
    delimiter, give the text back, with the delimiter added when its last
    piece was left open. *)
Theorem getlines_join_round_trip (delim : ascii) :
  (forall s, Forall (fun w => has_char delim w = false) (getlines delim s)) /\
  (forall l, Forall (fun w => has_char delim w = false) l ->
             getlines delim (join delim l) = l) /\
  (forall s, join delim (getlines delim s) =
             if whole delim s then s else s ++ String delim "").
Proof.
  split; [|split].
  - intros s. apply getlines_from_no_delim. reflexivity.
  - apply getlines_join.
  - intros s. unfold getlines, whole. rewrite join_getlines_from. simpl.
    destruct (open_after delim s false); simpl; [reflexivity|].
    apply append_empty_r.
Qed.

Lemma getlines_join_round_trip_witness :
  getlines "," (join "," ["ODOM"; "1"; ""; "2.5"]) = ["ODOM"; "1"; ""; "2.5"].
Proof.
  apply (proj1 (proj2 (getlines_join_round_trip ","))).
  repeat constructor.
Defined.

End LinesSpec.

(* ===================================================================== *)
(** ** Properties of the decoding of a whole buffer *)
(* ===================================================================== *)

Module BufferSpec.
Import IEEE Libc Ros ABridge Wire Node Lines LinesSpec.
Local Open Scope string_scope.

Ltac run_fields :=
  cbv -[atof add64 div64 to_float hundred zero of_int
        createQuaternionMsgFromRollPitchYaw createQuaternionMsgFromYaw].

(** The loop reads the clock by the number of the sentence only. *)
Lemma parseSentences_clock (sentences : list string) :
  forall clock clock' i j g,
    (forall k, clock (i + k)%nat = clock' (j + k)%nat) ->
    parseSentences clock i sentences g = parseSentences clock' j sentences g.
Proof.
  induction sentences as [|s rest IH]; intros clock clock' i j g H;
    [reflexivity|].
  cbn [parseSentences]. unfold bind.
  pose proof (H 0%nat) as H0. rewrite !Nat.add_0_r in H0. rewrite H0.
  destruct (parseSentence (clock' j) s g) as [[u|e] g1]; [|reflexivity].
  apply IH. intros k. specialize (H (S k)).
  rewrite !Nat.add_succ_r in H. exact H.
Qed.

(** Decoding a list of sentences made of two lists. *)
Lemma parseSentences_app (l1 l2 : list string) :
  forall clock i g,
    parseSentences clock i (l1 ++ l2) g =
    match parseSentences clock i l1 g with
    | (Normal _, g1) => parseSentences clock (i + List.length l1) l2 g1
    | (Throw e, g1) => (Throw e, g1)
    end.
Proof.
  induction l1 as [|s l1 IH]; intros clock i g.
  - simpl. rewrite Nat.add_0_r. reflexivity.
  - cbn [parseSentences List.app]. unfold bind.
    destruct (parseSentence (clock i) s g) as [[u|e] g1]; [|reflexivity].
    rewrite IH. cbn [List.length]. rewrite Nat.add_succ_r. reflexivity.
Qed.

(** X2.  A buffer whose first part is made of whole lines is decoded as
    the first part and then the second, the clock going on: reading the
    serial data in pieces cut at line ends changes nothing. *)
Theorem parseData_whole_lines (clock : nat -> Time) (s1 s2 : string)
        (g : Globals) :
  whole "010" s1 = true ->
  parseData clock (s1 ++ s2) g =
  match parseData clock s1 g with
  | (Normal _, g1) =>
      parseData (fun k => clock (List.length (getlines "010" s1) + k)%nat) s2 g1
  | (Throw e, g1) => (Throw e, g1)
  end.
Proof.
  intros H. unfold parseData, getlines, whole in *.
  apply negb_true_iff in H.
  rewrite (getlines_from_append _ s1 s2 "" H), parseSentences_app.
  destruct (parseSentences clock 0 (getlines_from "010" s1 "") g)
    as [[u|e] g1]; [|reflexivity].
  apply parseSentences_clock. intros k. reflexivity.
Qed.

Lemma parseData_whole_lines_witness :
  parseData Z.of_nat (line "USL,1,150.0" ++ line "USR,1,50") Globals0 =
  match parseData Z.of_nat (line "USL,1,150.0") Globals0 with
  | (Normal _, g1) =>
      parseData (fun k => Z.of_nat
                   (List.length (getlines "010" (line "USL,1,150.0")) + k))
                (line "USR,1,50") g1
  | (Throw e, g1) => (Throw e, g1)
  end.
Proof.
  apply (parseData_whole_lines Z.of_nat (line "USL,1,150.0") (line "USR,1,50")).
  reflexivity.
Defined.

(** X3.  When a sentence throws, the sentences after it in the buffer are
    not decoded: the globals are left as the throwing sentence left them,
    whatever follows. *)
Theorem parseData_stops_at_throw (clock : nat -> Time) (str : string)
        (before after : list string) (sentence : string)
        (g g1 g2 : Globals) (e : exn) :
  getlines "010" str = (before ++ sentence :: after)%list ->
  parseSentences clock 0 before g = (Normal tt, g1) ->
  parseSentence (clock (List.length before)) sentence g1 = (Throw e, g2) ->
  parseData clock str g = (Throw e, g2).
Proof.
  intros Hs Hb Ht. unfold parseData. rewrite Hs, parseSentences_app, Hb.
  cbn [parseSentences]. unfold bind. simpl Nat.add. rewrite Ht. reflexivity.
Qed.

Lemma parseData_stops_at_throw_witness :
  exists g2,
    parseData Z.of_nat
      (line "USL,1,100" ++ line "IMU,1,0.5" ++ line "USL,1,200") Globals0
      = (Throw out_of_range, g2) /\
    range (sonarLeft g2) = to_float (div64 (atof "100") hundred).
Proof.
  eexists. split.
  - eapply (parseData_stops_at_throw Z.of_nat _ ["USL,1,100"] ["USL,1,200"]
              "IMU,1,0.5" Globals0); reflexivity.
  - reflexivity.
Defined.

End BufferSpec.

(* ===================================================================== *)
(** ** What the decoder writes and what it leaves alone *)
(* ===================================================================== *)

Module FrameSpec.
Import IEEE Libc Ros ABridge Wire Node Lines LinesSpec BufferSpec.
Local Open Scope string_scope.

Lemma preserves_ret {A} (P : Globals -> Prop) (a : A) : preserves P (ret a).
Proof. intros g H. exact H. Qed.

Lemma preserves_bind {A B} (P : Globals -> Prop) (m : Stmt A) (k : A -> Stmt B) :
  preserves P m -> (forall a, preserves P (k a)) -> preserves P (bind m k).
Proof.
  intros Hm Hk g Hg. unfold bind. specialize (Hm g Hg).
  destruct (m g) as [[a|e] g1]; simpl in *; [apply Hk; exact Hm | exact Hm].
Qed.

Lemma preserves_assign (P : Globals -> Prop) (f : Globals -> Globals) :
  (forall g, P g -> P (f g)) -> preserves P (assign f).
Proof. intros H g Hg. apply H, Hg. Qed.

Lemma preserves_at (P : Globals -> Prop) (v : list string) (i : nat) :
  preserves P (at_ v i).
Proof. intros g Hg. unfold at_. destruct (nth_error v i); exact Hg. Qed.

Lemma preserves_field (P : Globals -> Prop) (v : list string) (i : nat) :
  preserves P (field v i).
Proof.
  apply preserves_bind; [apply preserves_at | intros; apply preserves_ret].
Qed.

Lemma preserves_tag_is (P : Globals -> Prop) (v : list string) (tag : string) :
  preserves P (tag_is v tag).
Proof.
  apply preserves_bind; [apply preserves_at | intros; apply preserves_ret].
Qed.

(** Runs through a branch of the decoder, leaving the assignments. *)
Ltac through_branch :=
  repeat first
    [ apply preserves_bind; [|intros ?]
    | apply preserves_field
    | apply preserves_tag_is
    | apply preserves_at
    | apply preserves_ret
    | apply preserves_assign ].

(** A property kept by the branch of the tag the sentence has is kept by
    the decoding of the sentence. *)
Lemma parseFields_preserves (P : Globals -> Prop) (now : Time)
      (dataSet : list string) :
  (nth_error dataSet 0 = Some "GRF" -> preserves P (parseGRF now dataSet)) ->
  (nth_error dataSet 0 = Some "GRW" -> preserves P (parseGRW now dataSet)) ->
  (nth_error dataSet 0 = Some "IMU" -> preserves P (parseIMU now dataSet)) ->
  (nth_error dataSet 0 = Some "ODOM" -> preserves P (parseODOM now dataSet)) ->
  (nth_error dataSet 0 = Some "USL" ->
   preserves P (parseSonar with_sonarLeft now dataSet)) ->
  (nth_error dataSet 0 = Some "USC" ->
   preserves P (parseSonar with_sonarCenter now dataSet)) ->
  (nth_error dataSet 0 = Some "USR" ->
   preserves P (parseSonar with_sonarRight now dataSet)) ->
  preserves P (parseFields now dataSet).
Proof.
  intros H1 H2 H3 H4 H5 H6 H7. unfold parseFields.
  destruct (3 <=? List.length dataSet)%nat; [|apply preserves_ret].
  apply preserves_bind; [apply preserves_at|]. intros flag.
  destruct (String.eqb flag "1"); [|apply preserves_ret].
  destruct (nth_error dataSet 0) as [t|] eqn:E0.
  - assert (Ht : forall tag g, tag_is dataSet tag g = (Normal (String.eqb t tag), g)).
    { intros tag g. unfold tag_is, bind, at_, ret. rewrite E0. reflexivity. }
    intros g Hg. unfold bind.
    repeat (rewrite Ht; cbv beta iota;
            match goal with |- context [String.eqb t ?tag] =>
              let E := fresh "E" in
              destruct (String.eqb t tag) eqn:E;
              [apply String.eqb_eq in E;
               first [apply H1|apply H2|apply H3|apply H4|apply H5|apply H6|apply H7];
               [rewrite E; reflexivity | exact Hg] |]
            end).
    exact Hg.
  - intros g Hg. unfold bind, tag_is, at_. rewrite E0. exact Hg.
Qed.

Lemma parseSentences_preserves (P : Globals -> Prop) (clock : nat -> Time)
      (sentences : list string) :
  (forall now sentence, In sentence sentences ->
                        preserves P (parseSentence now sentence)) ->
  forall i, preserves P (parseSentences clock i sentences).
Proof.
  induction sentences as [|s rest IH]; intros H i; [apply preserves_ret|].
  cbn [parseSentences]. apply preserves_bind.
  - apply H. left. reflexivity.
  - intros _. apply IH. intros now s' Hin. apply H. right. exact Hin.
Qed.

(** The header frames, the setpoint, the mode and the serial output: what no
    branch of the decoder assigns. *)
Lemma parseSentence_keeps_rest {B} (proj : Globals -> B) (now : Time)
      (sentence : string) (c : B) :
  (forall f g, proj (with_fingerAngle f g) = proj g) ->
  (forall f g, proj (with_wristAngle f g) = proj g) ->
  (forall f g, proj (with_imu f g) = proj g) ->
  (forall f g, proj (with_odom f g) = proj g) ->
  (forall f g, proj (with_sonarLeft f g) = proj g) ->
  (forall f g, proj (with_sonarCenter f g) = proj g) ->
  (forall f g, proj (with_sonarRight f g) = proj g) ->
  preserves (fun g => proj g = c) (parseSentence now sentence).
Proof.
  intros H1 H2 H3 H4 H5 H6 H7. unfold parseSentence.
  apply parseFields_preserves; intros _;
    unfold parseGRF, parseGRW, parseIMU, parseODOM, parseSonar;
    through_branch; intros g Hg;
    rewrite ?H1, ?H2, ?H3, ?H4, ?H5, ?H6, ?H7; exact Hg.
Qed.

(** X4.  Decoding never writes the setpoint, the mode or the serial output,
    whatever the buffer holds and whether or not it throws. *)
Theorem parseData_keeps_setpoint (clock : nat -> Time) (str : string)
        (g : Globals) :
  let g' := snd (parseData clock str g) in
  cmd_vel_msg g' = cmd_vel_msg g /\
  currentMode g' = currentMode g /\
  usb_sent g' = usb_sent g.
Proof.
  cbv zeta. unfold parseData.
  split; [|split];
    match goal with |- ?p _ = ?c =>
      apply (parseSentences_preserves (fun g => p g = c)); [|reflexivity];
      intros now sentence _; apply parseSentence_keeps_rest; reflexivity
    end.
Qed.

(** A sentence whose tag is not the one of a message leaves the message. *)
Lemma parseSentence_other_tag {B} (proj : Globals -> B) (tag : string)
      (now : Time) (sentence : string) (c : B) :
  In tag tags ->
  (forall f g, tag = "GRF" \/ proj (with_fingerAngle f g) = proj g) ->
  (forall f g, tag = "GRW" \/ proj (with_wristAngle f g) = proj g) ->
  (forall f g, tag = "IMU" \/ proj (with_imu f g) = proj g) ->
  (forall f g, tag = "ODOM" \/ proj (with_odom f g) = proj g) ->
  (forall f g, tag = "USL" \/ proj (with_sonarLeft f g) = proj g) ->
  (forall f g, tag = "USC" \/ proj (with_sonarCenter f g) = proj g) ->
  (forall f g, tag = "USR" \/ proj (with_sonarRight f g) = proj g) ->
  tagged tag sentence = false ->
  preserves (fun g => proj g = c) (parseSentence now sentence).
Proof.
  intros Hin H1 H2 H3 H4 H5 H6 H7 Ht. unfold parseSentence.
  unfold tagged, first_field in Ht.
  assert (Hno : nth_error (getlines "," sentence) 0 <> Some tag).
  { intros E. rewrite E, String.eqb_refl in Ht. discriminate. }
  assert (Hor : forall (Q : Prop) t,
             nth_error (getlines "," sentence) 0 = Some t ->
             (tag = t \/ Q) -> Q).
  { intros Q t E [->|HQ]; [contradiction | exact HQ]. }
  apply parseFields_preserves; intros E;
    unfold parseGRF, parseGRW, parseIMU, parseODOM, parseSonar;
    through_branch; intros g Hg; rewrite <- Hg;
    first [ apply (Hor _ _ E (H1 _ g)) | apply (Hor _ _ E (H2 _ g))
          | apply (Hor _ _ E (H3 _ g)) | apply (Hor _ _ E (H4 _ g))
          | apply (Hor _ _ E (H5 _ g)) | apply (Hor _ _ E (H6 _ g))
          | apply (Hor _ _ E (H7 _ g)) ].
Qed.

Lemma parseData_other_tag {B} (proj : Globals -> B) (tag : string)
      (clock : nat -> Time) (str : string) (g : Globals) :
  (forall now sentence c, tagged tag sentence = false ->
      preserves (fun g => proj g = c) (parseSentence now sentence)) ->
  mentions tag str = false ->
  proj (snd (parseData clock str g)) = proj g.
Proof.
  intros H Hm. unfold parseData, mentions in *.
  apply (parseSentences_preserves (fun g' => proj g' = proj g)); [|reflexivity].
  intros now sentence Hin. apply H.
  destruct (tagged tag sentence) eqn:E; [|reflexivity].
  rewrite <- Hm. symmetry. apply existsb_exists. exists sentence. auto.
Qed.

(** X5.  Each of the seven messages is written by the sentences of its own
    tag only: a buffer in which no sentence starts with the tag leaves the
    message as it was, stamp included, whatever else the buffer holds and
    whether or not decoding it throws. *)
Theorem parseData_message_needs_its_tag (clock : nat -> Time) (str : string)
        (g : Globals) :
  let g' := snd (parseData clock str g) in
  (mentions "GRF" str = false -> fingerAngle g' = fingerAngle g) /\
  (mentions "GRW" str = false -> wristAngle g' = wristAngle g) /\
  (mentions "IMU" str = false -> imu g' = imu g) /\
  (mentions "ODOM" str = false -> odom g' = odom g) /\
  (mentions "USL" str = false -> sonarLeft g' = sonarLeft g) /\
  (mentions "USC" str = false -> sonarCenter g' = sonarCenter g) /\
  (mentions "USR" str = false -> sonarRight g' = sonarRight g).
Proof.
  cbv zeta.
  repeat match goal with |- _ /\ _ => split end;
    intros Hm;
    match goal with Hm : mentions ?tag _ = false |- ?p _ = _ =>
      apply (parseData_other_tag p tag); [|exact Hm];
      intros now sentence c Ht;
      apply (parseSentence_other_tag p tag); [simpl; tauto|..|exact Ht];
      intros f g0; first [left; reflexivity | right; reflexivity]
    end.
Qed.

Lemma parseData_message_needs_its_tag_witness :
  let str := line "ODOM,1,10.0,0,0,0,0,0" ++ line "USL,1" ++ line "IMU,1,2" in
  let g' := snd (parseData Z.of_nat str Globals0) in
  mentions "USR" str = false /\ mentions "GRF" str = false /\
  sonarRight g' = sonarRight Globals0 /\ fingerAngle g' = fingerAngle Globals0.
Proof.
  cbv zeta.
  destruct (parseData_message_needs_its_tag Z.of_nat
              (line "ODOM,1,10.0,0,0,0,0,0" ++ line "USL,1" ++ line "IMU,1,2")
              Globals0) as (HF & _ & _ & _ & _ & _ & HR).
  split; [reflexivity|]. split; [reflexivity|].
  split; [exact (HR eq_refl) | exact (HF eq_refl)].
Defined.

(** X6.  Field 3 of an [IMU] sentence is never read: two sentences that
    differ in it only are decoded alike, and whatever an [IMU] sentence
    with its flag holds after the three leading fields, also when it is too
    short and throws, the y acceleration is left at zero. *)
Theorem parseSentence_IMU_ignores_field_3 (now : Time)
        (sentence sentence' w2 w3 w3' : string) (rest : list string)
        (g : Globals) :
  getlines "," sentence = "IMU" :: "1" :: w2 :: w3 :: rest ->
  getlines "," sentence' = "IMU" :: "1" :: w2 :: w3' :: rest ->
  parseSentence now sentence g = parseSentence now sentence' g /\
  y (linear_acceleration (imu (snd (parseSentence now sentence g)))) = zero.
Proof.
  intros H H'. unfold parseSentence. rewrite H, H'.
  split.
  - do 7 (destruct rest as [|? rest]; [run_fields; reflexivity|]).
    run_fields; reflexivity.
  - do 7 (destruct rest as [|? rest]; [run_fields; reflexivity|]).
    run_fields; reflexivity.
Qed.

Lemma parseSentence_IMU_ignores_field_3_witness :
  parseSentence 4 "IMU,1,0.5,7,9.8,0,0,0,0,0,1.5" Globals0 =
  parseSentence 4 "IMU,1,0.5,-3e9,9.8,0,0,0,0,0,1.5" Globals0 /\
  y (linear_acceleration
       (imu (snd (parseSentence 4 "IMU,1,0.5,7,9.8,0,0,0,0,0,1.5" Globals0))))
    = zero.
Proof.
  apply (parseSentence_IMU_ignores_field_3 4
           "IMU,1,0.5,7,9.8,0,0,0,0,0,1.5" "IMU,1,0.5,-3e9,9.8,0,0,0,0,0,1.5"
           "0.5" "7" "-3e9" ["9.8"; "0"; "0"; "0"; "0"; "0"; "1.5"] Globals0);
    vm_compute; reflexivity.
Defined.

End FrameSpec.

(* ===================================================================== *)
(** ** Dead reckoning over a buffer *)
(* ===================================================================== *)

Module OdomSpec.
Import IEEE Libc Ros ABridge Wire Node Lines LinesSpec BufferSpec.
Local Open Scope string_scope.

(** One valid [ODOM] sentence. *)
Lemma parseSentence_odom (now : Time) (sentence : string) (r : OdomFields)
      (g : Globals) :
  odom_sentence sentence r ->
  exists g', parseSentence now sentence g = (Normal tt, g') /\
    x (position (pose (odom g'))) =
      add64 (x (position (pose (odom g)))) (div64 (atof (f_dx r)) hundred) /\
    y (position (pose (odom g'))) =
      add64 (y (position (pose (odom g)))) (div64 (atof (f_dy r)) hundred) /\
    pose_orientation (pose (odom g')) = createQuaternionMsgFromYaw (atof (f_yaw r)) /\
    x (linear (twist (odom g'))) = div64 (atof (f_vx r)) hundred /\
    y (linear (twist (odom g'))) = div64 (atof (f_vy r)) hundred /\
    z (angular (twist (odom g'))) = atof (f_wz r).
Proof.
  intros H. unfold odom_sentence in H. unfold parseSentence. rewrite H.
  eexists. split; [run_fields; reflexivity | repeat split].
Qed.

(** X7.  A buffer of valid [ODOM] sentences is decoded without a throw; the
    position is the one before with the displacements of all the sentences
    added, each divided by 100, one [double] addition after the other in
    the order of the sentences, while the heading and the velocities are
    those of the last sentence alone. *)
Theorem parseData_ODOM_dead_reckoning (clock : nat -> Time) (str : string)
        (recs : list OdomFields) (g : Globals) :
  Forall2 odom_sentence (getlines "010" str) recs ->
  exists g', parseData clock str g = (Normal tt, g') /\
    x (position (pose (odom g'))) =
      travelled f_dx recs (x (position (pose (odom g)))) /\
    y (position (pose (odom g'))) =
      travelled f_dy recs (y (position (pose (odom g)))) /\
    forall before r, recs = (before ++ [r])%list ->
      pose_orientation (pose (odom g')) =
        createQuaternionMsgFromYaw (atof (f_yaw r)) /\
      x (linear (twist (odom g'))) = div64 (atof (f_vx r)) hundred /\
      y (linear (twist (odom g'))) = div64 (atof (f_vy r)) hundred /\
      z (angular (twist (odom g'))) = atof (f_wz r).
Proof.
  unfold parseData. generalize (getlines "010" str) 0%nat.
  intros sentences i H. revert i g.
  induction H as [|s r sentences recs Hs Htail IH]; intros i g.
  - exists g. split; [reflexivity|]. split; [reflexivity|].
    split; [reflexivity|]. intros [|? ?] r E; discriminate.
  - destruct (parseSentence_odom (clock i) s r g Hs)
      as (g1 & E1 & Hx & Hy & Hrest).
    destruct (IH (S i) g1) as (g' & E' & Hx' & Hy' & Hlast).
    exists g'. cbn [parseSentences]. unfold bind. rewrite E1.
    split; [exact E'|]. unfold travelled in *. cbn [fold_left].
    rewrite <- Hx, <- Hy. split; [exact Hx'|]. split; [exact Hy'|].
    intros before r' E. destruct before as [|b before].
    + simpl in E. injection E as Er Erecs. subst r' recs.
      inversion Htail; subst.
      cbn [parseSentences] in E'. injection E' as <-. exact Hrest.
    + injection E as _ E. exact (Hlast before r' E).
Qed.

Lemma parseData_ODOM_dead_reckoning_witness :
  let str := line "ODOM,1,10.0,0,0.5,1,2,3" ++ line "ODOM,1,5.0,7,1.5,4,5,6" in
  let r1 := {| f_dx := "10.0"; f_dy := "0"; f_yaw := "0.5";
               f_vx := "1"; f_vy := "2"; f_wz := "3"; f_more := [] |} in
  let r2 := {| f_dx := "5.0"; f_dy := "7"; f_yaw := "1.5";
               f_vx := "4"; f_vy := "5"; f_wz := "6"; f_more := [] |} in
  exists g', parseData Z.of_nat str Globals0 = (Normal tt, g') /\
    x (position (pose (odom g'))) =
      add64 (add64 zero (div64 (atof "10.0") hundred)) (div64 (atof "5.0") hundred) /\
    z (angular (twist (odom g'))) = atof "6".
Proof.
  cbv zeta.
  destruct (parseData_ODOM_dead_reckoning Z.of_nat
              (line "ODOM,1,10.0,0,0.5,1,2,3" ++ line "ODOM,1,5.0,7,1.5,4,5,6")
              [ {| f_dx := "10.0"; f_dy := "0"; f_yaw := "0.5";
                   f_vx := "1"; f_vy := "2"; f_wz := "3"; f_more := [] |};
                {| f_dx := "5.0"; f_dy := "7"; f_yaw := "1.5";
                   f_vx := "4"; f_vy := "5"; f_wz := "6"; f_more := [] |} ]
              Globals0) as (g' & E & Hx & _ & Hlast).
  - vm_compute. repeat constructor.
  - exists g'. split; [exact E|]. split; [exact Hx|].
    exact (proj2 (proj2 (proj2 (Hlast [_] _ eq_refl)))).
Defined.

End OdomSpec.

(* ===================================================================== *)
(** ** Properties of every run of the node *)
(* ===================================================================== *)

Module TraceSpec.
Import IEEE Libc Ros ABridge Wire Node Lines Trace LinesSpec BufferSpec FrameSpec.
Local Open Scope string_scope.

(** What every callback keeps, every run from a world that has it keeps. *)
Lemma spin_invariant (P : World -> Prop) :
  (forall ev w w', P w -> final (callback ev w) = Some w' -> P w') ->
  forall evs w w', P w -> final (spin evs w) = Some w' -> P w'.
Proof.
  intros H evs. induction evs as [|ev rest IH]; intros w w' Hw E.
  - simpl in E. injection E as <-. exact Hw.
  - cbn [spin] in E. destruct (callback ev w) as [w1|e w1|] eqn:Ec.
    + apply (IH w1 w'); [|exact E]. apply (H ev w w1 Hw). rewrite Ec. reflexivity.
    + apply (H ev w w' Hw). rewrite Ec. exact E.
    + discriminate.
Qed.

(** What the decoder does not assign. *)
Lemma parseData_keeps {B} (proj : Globals -> B) (clock : nat -> Time)
      (str : string) (g : Globals) :
  (forall f g, proj (with_fingerAngle f g) = proj g) ->
  (forall f g, proj (with_wristAngle f g) = proj g) ->
  (forall f g, proj (with_imu f g) = proj g) ->
  (forall f g, proj (with_odom f g) = proj g) ->
  (forall f g, proj (with_sonarLeft f g) = proj g) ->
  (forall f g, proj (with_sonarCenter f g) = proj g) ->
  (forall f g, proj (with_sonarRight f g) = proj g) ->
  proj (snd (parseData clock str g)) = proj g.
Proof.
  intros H1 H2 H3 H4 H5 H6 H7. unfold parseData.
  apply (parseSentences_preserves (fun g' => proj g' = proj g)); [|reflexivity].
  intros now sentence _. apply parseSentence_keeps_rest; assumption.
Qed.

(** The two ends of a tick of the serial timer. *)
Lemma serialActivityTimer_cases (clock : nat -> Time) (data : string)
      (w w' : World) :
  final (serialActivityTimer clock data w) = Some w' ->
  let g2 := snd (parseData clock data (sendData dataCmd (globals w))) in
  (globals w' = g2 /\ published w' = published w) \/
  (exists motor_left motor_right,
      motor_duties g2 = Some (motor_left, motor_right) /\
      globals w' = sendData (format_moveCmd motor_left motor_right) g2 /\
      published w' = (published w ++ topics g2)%list).
Proof.
  unfold serialActivityTimer. cbv zeta.
  cbn [on_globals globals published].
  destruct (parseData clock data (sendData dataCmd (globals w)))
    as [[u|e] g2] eqn:E; cbn [snd final]; intros H.
  - right. unfold calculateMotorCommands in H.
    cbn [publishRosTopics publish on_globals globals published] in H.
    destruct (motor_duties g2) as [[l r]|] eqn:Em; [|discriminate].
    destruct (String.length (format_moveCmd l r) <? 16)%nat; [|discriminate].
    injection H as <-. exists l, r. split; [reflexivity|].
    split; [reflexivity|].
    cbn [published on_globals publishRosTopics publish globals]. unfold topics.
    rewrite <- !app_assoc. reflexivity.
  - left. injection H as <-. split; reflexivity.
Qed.

(** What [driveCommandHandler] stores for a [double]: NaN for NaN, a value
    between the stored bounds for every other one. *)
Lemma stored_clamped (lx : float64) :
  valid_binary prec64 emax64 lx = true ->
  clamped (to_double (limit (to_float lx) lin_bound)).
Proof.
  intros Hv. destruct (is_nan lx) eqn:Hn.
  - left. destruct lx; try discriminate. reflexivity.
  - right. exact (LimiterSpec.clamped_within lx Hv Hn).
Qed.

Lemma clamped_zero : clamped zero.
Proof. right. repeat split; vm_compute; discriminate. Qed.

(** What every callback keeps for the events of a kind, every run of such
    events keeps. *)
Lemma spin_invariant_on (V : Event -> Prop) (P : World -> Prop) :
  (forall ev w w', V ev -> P w -> final (callback ev w) = Some w' -> P w') ->
  forall evs w w',
    Forall V evs -> P w -> final (spin evs w) = Some w' -> P w'.
Proof.
  intros H evs. induction evs as [|ev rest IH]; intros w w' HV Hw E.
  - simpl in E. injection E as <-. exact Hw.
  - inversion HV as [|? ? Hev Hrest]; subst.
    cbn [spin] in E. destruct (callback ev w) as [w1|e w1|] eqn:Ec.
    + apply (IH w1 w' Hrest); [|exact E].
      apply (H ev w w1 Hev Hw). rewrite Ec. reflexivity.
    + apply (H ev w w' Hev Hw). rewrite Ec. exact E.
    + discriminate.
Qed.

(** Only [driveCommandHandler] writes the setpoint. *)
Lemma callback_setpoint (ev : Event) (w w' : World) :
  final (callback ev w) = Some w' ->
  (exists message,
      ev = driveControl message /\
      w' = on_globals (driveCommandHandler message) w) \/
  cmd_vel_msg (globals w') = cmd_vel_msg (globals w).
Proof.
  destruct ev as [message|angle|angle|message|clock data|]; cbn [callback final];
    intros H; try (injection H as <-; right; reflexivity).
  - injection H as <-. left. exists message. split; reflexivity.
  - right. apply serialActivityTimer_cases in H. cbv zeta in H.
    destruct H as [[-> _]|(l & r & _ & -> & _)];
      [|change (cmd_vel_msg (sendData ?c ?g)) with (cmd_vel_msg g)];
      rewrite parseData_keeps; reflexivity.
Qed.

(** X8.  However the node is started and whatever messages, serial data
    and timer expiries it then handles, the [linear.x] and [angular.z] of
    the setpoint it holds are each NaN or a finite value between
    -0.300000011920929 and 0.300000011920929, the [float] 0.3: the zero
    the node starts with, or what [limit] returned for the last message.
    Nothing but [driveCommandHandler] writes them.  The setpoint messages
    carry doubles. *)
Theorem spin_setpoint_clamped (hostname : string) (argv : list string)
        (evs : list Event) (w : World) :
  Forall carries_doubles evs ->
  final (spin evs (main_world hostname argv)) = Some w ->
  clamped (x (linear (cmd_vel_msg (globals w)))) /\
  clamped (z (angular (cmd_vel_msg (globals w)))).
Proof.
  intros HV.
  apply (spin_invariant_on carries_doubles
           (fun w => clamped (x (linear (cmd_vel_msg (globals w)))) /\
                     clamped (z (angular (cmd_vel_msg (globals w))))));
    [|exact HV|split; exact clamped_zero].
  intros ev w0 w' Hev Hw H.
  destruct (callback_setpoint ev w0 w' H) as [(message & -> & ->)|E].
  - destruct Hev as [Hx Hz].
    split; [exact (stored_clamped _ Hx) | exact (stored_clamped _ Hz)].
  - rewrite E. exact Hw.
Qed.

Lemma spin_setpoint_clamped_witness :
  let evs := [ driveControl (setpoint (atof "10.0") (atof "-0.7"));
               publishTimer Z.of_nat (line "USL,1,150.0") ] in
  Forall carries_doubles evs /\
  final (spin evs (main_world "rover" [])) <> None /\
  forall w, final (spin evs (main_world "rover" [])) = Some w ->
    clamped (x (linear (cmd_vel_msg (globals w)))) /\
    clamped (z (angular (cmd_vel_msg (globals w)))).
Proof.
  cbv zeta.
  assert (HV : Forall carries_doubles
                 [ driveControl (setpoint (atof "10.0") (atof "-0.7"));
                   publishTimer Z.of_nat (line "USL,1,150.0") ]).
  { constructor; [split; reflexivity|]. constructor; [exact I|constructor]. }
  split; [exact HV|]. split; [vm_compute; discriminate|].
  intros w H.
  exact (spin_setpoint_clamped "rover" []
           [ driveControl (setpoint (atof "10.0") (atof "-0.7"));
             publishTimer Z.of_nat (line "USL,1,150.0") ] w HV H).
Defined.

(** The decoder keeps the frame names and the two components it never sets
    to anything but zero. *)
Lemma parseData_shape (name : string) (clock : nat -> Time) (str : string)
      (g : Globals) :
  imu_shape name (imu g) /\ odom_shape name (odom g) ->
  imu_shape name (imu (snd (parseData clock str g))) /\
  odom_shape name (odom (snd (parseData clock str g))).
Proof.
  unfold parseData.
  apply (parseSentences_preserves
           (fun g => imu_shape name (imu g) /\ odom_shape name (odom g))).
  intros now sentence _. unfold parseSentence.
  apply parseFields_preserves; intros _;
    unfold parseGRF, parseGRW, parseIMU, parseODOM, parseSonar;
    through_branch; intros g0 [[Hi1 Hi2] [Ho1 [Ho2 Ho3]]];
    repeat split; first [assumption | reflexivity].
Qed.

Lemma parseData_frames (clock : nat -> Time) (str : string) (g : Globals) :
  let g' := snd (parseData clock str g) in
  frame_id (qs_header (fingerAngle g')) = frame_id (qs_header (fingerAngle g)) /\
  frame_id (qs_header (wristAngle g')) = frame_id (qs_header (wristAngle g)) /\
  frame_id (range_header (sonarLeft g')) = frame_id (range_header (sonarLeft g)) /\
  frame_id (range_header (sonarCenter g')) = frame_id (range_header (sonarCenter g)) /\
  frame_id (range_header (sonarRight g')) = frame_id (range_header (sonarRight g)).
Proof.
  cbv zeta. unfold parseData.
  repeat match goal with |- _ /\ _ => split end;
    match goal with |- ?p (?h (?m _)) = ?c =>
      apply (parseSentences_preserves (fun g => p (h (m g)) = c)); [|reflexivity];
      intros now sentence _; unfold parseSentence;
      apply parseFields_preserves; intros _;
      unfold parseGRF, parseGRW, parseIMU, parseODOM, parseSonar;
      through_branch; intros g0 Hg; exact Hg
    end.
Qed.

Lemma callback_shaped (name : string) (ev : Event) (w w' : World) :
  shaped name w -> final (callback ev w) = Some w' -> shaped name w'.
Proof.
  intros (Hio & Hf & Hp).
  destruct ev as [message|angle|angle|message|clock data|]; cbn [callback final];
    intros H; try (injection H as <-; split; [exact Hio|split; [exact Hf|exact Hp]]).
  - apply serialActivityTimer_cases in H. cbv zeta in H.
    pose proof (parseData_shape name clock data (sendData dataCmd (globals w)) Hio)
      as Hio'.
    pose proof (parseData_frames clock data (sendData dataCmd (globals w)))
      as Hf'. cbv zeta in Hf'.
    set (g2 := snd (parseData clock data (sendData dataCmd (globals w)))) in *.
    assert (Hf2 : frame_id (qs_header (fingerAngle g2)) = "" /\
                  frame_id (qs_header (wristAngle g2)) = "" /\
                  frame_id (range_header (sonarLeft g2)) = "" /\
                  frame_id (range_header (sonarCenter g2)) = "" /\
                  frame_id (range_header (sonarRight g2)) = "").
    { destruct Hf' as (E1 & E2 & E3 & E4 & E5).
      rewrite E1, E2, E3, E4, E5. exact Hf. }
    unfold shaped.
    destruct H as [[Eg Ep]|(l & r & _ & Eg & Ep)]; rewrite Eg, Ep.
    + split; [exact Hio'|split; [exact Hf2|exact Hp]].
    + split; [exact Hio'|split; [exact Hf2|]].
      apply Forall_app. split; [exact Hp|].
      destruct Hio' as [Hi Ho]. destruct Hf2 as (F1 & F2 & F3 & F4 & F5).
      unfold topics.
      repeat (apply Forall_cons; [cbn [publication_shape]; assumption|]).
      apply Forall_nil.
  - injection H as <-. split; [exact Hio|split; [exact Hf|]].
    cbn [publishHeartBeatTimerEventHandler publish published].
    apply Forall_app. split; [exact Hp|].
    apply Forall_cons; [reflexivity | apply Forall_nil].
Qed.

(** X9.  The frame names written by [main] are never written again, and
    two components are only ever set to zero: in every run, every [Imu]
    message published has the frame [name/base_link] and a zero y
    acceleration, every [Odometry] message the frames [name/odom] and
    [name/base_link] and a zero height, the other messages an empty frame
    name, and every heart beat an empty text; [name] is the first argument
    of the program or, without one, the host name. *)
Theorem spin_publications_shape (hostname : string) (argv : list string)
        (evs : list Event) (w : World) :
  final (spin evs (main_world hostname argv)) = Some w ->
  Forall (publication_shape (publishedName hostname argv)) (published w).
Proof.
  intros H.
  apply (spin_invariant (shaped (publishedName hostname argv))
           (callback_shaped _) evs (main_world hostname argv) w); [|exact H].
  repeat split. constructor.
Qed.

Lemma spin_publications_shape_witness :
  let evs := [ publishTimer Z.of_nat (line "IMU,1,0.5,7,9.8,0,0,0,0,0,1.5");
               publish_heartbeat_timer ] in
  final (spin evs (main_world "host" ["abridge"; "achilles"])) <> None /\
  forall w, final (spin evs (main_world "host" ["abridge"; "achilles"])) = Some w ->
    Forall (publication_shape "achilles") (published w).
Proof.
  cbv zeta. split; [vm_compute; discriminate|].
  intros w H.
  exact (spin_publications_shape "host" ["abridge"; "achilles"]
           [ publishTimer Z.of_nat (line "IMU,1,0.5,7,9.8,0,0,0,0,0,1.5");
             publish_heartbeat_timer ] w H).
Defined.


(** Finite results have finite operands. *)
Lemma sub64_finite (a b : float64) :
  is_finite (sub64 a b) = true -> is_finite a = true /\ is_finite b = true.
Proof.
  unfold sub64, SFsub.
  destruct a as [sa|sa| |sa ma ea], b as [sb|sb| |sb mb eb];
    try (intros _; split; reflexivity);
    try (intros H; discriminate H);
    destruct sa, sb; intros H; discriminate H.
Qed.

Lemma mul64_finite (a b : float64) :
  is_finite (mul64 a b) = true -> is_finite a = true /\ is_finite b = true.
Proof.
  unfold mul64, SFmul.
  destruct a as [sa|sa| |sa ma ea], b as [sb|sb| |sb mb eb];
    try (intros _; split; reflexivity);
    intros H; discriminate H.
Qed.

Lemma to_int_finite (a : float64) (n : Z) :
  to_int a = Some n -> is_finite a = true.
Proof.
  unfold to_int. destruct (is_finite a); [reflexivity|discriminate].
Qed.

Lemma motor_duties_finite (g : Globals) (duties : Z * Z) :
  motor_duties g = Some duties ->
  is_finite (x (linear (twist (odom g)))) = true /\
  is_finite (x (linear (cmd_vel_msg g))) = true /\
  is_finite (z (angular (twist (odom g)))) = true /\
  is_finite (z (angular (cmd_vel_msg g))) = true.
Proof.
  unfold motor_duties.
  destruct (to_int (mul64 (sub64 (x (linear (twist (odom g))))
                                 (x (linear (cmd_vel_msg g)))) (to_double Kp)))
    as [vx|] eqn:Ex; [|discriminate].
  destruct (to_int (mul64 (sub64 (z (angular (twist (odom g))))
                                 (z (angular (cmd_vel_msg g)))) (to_double Kp)))
    as [vz|] eqn:Ez; [|discriminate].
  intros _.
  apply to_int_finite, mul64_finite, proj1, sub64_finite in Ex.
  apply to_int_finite, mul64_finite, proj1, sub64_finite in Ez.
  tauto.
Qed.

(** X11.  The conversion of a NaN or an infinity to [int] has no defined
    result, so [calculateMotorCommands] has a defined result only if the
    setpoint and the observed velocity are finite in [linear.x] and
    [angular.z].  [limit] lets a NaN through, both its comparisons being
    false: after a [driveControl] message with a NaN in [linear.x] or
    [angular.z], [calculateMotorCommands] has no defined result, and a
    tick of the serial timer whose decoding does not throw has no defined
    behaviour.  What a build of the program does in such a tick is not
    said. *)
Theorem calculateMotorCommands_undefined_unless_finite :
  (forall g g',
      calculateMotorCommands g = Some g' ->
      is_finite (x (linear (cmd_vel_msg g))) = true /\
      is_finite (z (angular (cmd_vel_msg g))) = true /\
      is_finite (x (linear (twist (odom g)))) = true /\
      is_finite (z (angular (twist (odom g)))) = true) /\
  (forall message g,
      is_nan (x (linear message)) = true \/ is_nan (z (angular message)) = true ->
      calculateMotorCommands (driveCommandHandler message g) = None) /\
  (forall message clock data w,
      is_nan (x (linear message)) = true \/ is_nan (z (angular message)) = true ->
      fst (parseData clock data
             (sendData dataCmd (driveCommandHandler message (globals w))))
        = Normal tt ->
      serialActivityTimer clock data
        (on_globals (driveCommandHandler message) w) = Undefined).
Proof.
  assert (H1 : forall g g',
      calculateMotorCommands g = Some g' ->
      is_finite (x (linear (cmd_vel_msg g))) = true /\
      is_finite (z (angular (cmd_vel_msg g))) = true /\
      is_finite (x (linear (twist (odom g)))) = true /\
      is_finite (z (angular (twist (odom g)))) = true).
  { intros g g' H. unfold calculateMotorCommands in H.
    destruct (motor_duties g) as [duties|] eqn:Em; [|discriminate].
    apply motor_duties_finite in Em. tauto. }
  assert (Hnan : forall message g,
      is_nan (x (linear message)) = true \/ is_nan (z (angular message)) = true ->
      is_finite (x (linear (cmd_vel_msg (driveCommandHandler message g)))) = false \/
      is_finite (z (angular (cmd_vel_msg (driveCommandHandler message g)))) = false).
  { intros message g Hn.
    change (x (linear (cmd_vel_msg (driveCommandHandler message g))))
      with (to_double (limit (to_float (x (linear message))) lin_bound)).
    change (z (angular (cmd_vel_msg (driveCommandHandler message g))))
      with (to_double (limit (to_float (z (angular message))) lin_bound)).
    destruct Hn as [Hn|Hn]; [left; destruct (x (linear message))
                            |right; destruct (z (angular message))];
      try discriminate Hn; reflexivity. }
  assert (H2 : forall g,
      is_finite (x (linear (cmd_vel_msg g))) = false \/
      is_finite (z (angular (cmd_vel_msg g))) = false ->
      calculateMotorCommands g = None).
  { intros g Hf. destruct (calculateMotorCommands g) as [g'|] eqn:E;
      [|reflexivity].
    apply H1 in E. destruct E as (Ex & Ez & _).
    destruct Hf as [Hf|Hf]; congruence. }
  split; [exact H1|]. split.
  - intros message g Hn. apply H2, Hnan, Hn.
  - intros message clock data w Hn Hp.
    pose proof (parseData_keeps cmd_vel_msg clock data
                  (sendData dataCmd (driveCommandHandler message (globals w)))
                  (fun _ _ => eq_refl) (fun _ _ => eq_refl) (fun _ _ => eq_refl)
                  (fun _ _ => eq_refl) (fun _ _ => eq_refl) (fun _ _ => eq_refl)
                  (fun _ _ => eq_refl)) as Hc.
    cbn [sendData cmd_vel_msg] in Hc.
    unfold serialActivityTimer. cbv zeta.
    cbn [on_globals globals published].
    destruct (parseData clock data
                (sendData dataCmd (driveCommandHandler message (globals w))))
      as [[[]|e] g2]; cbn [fst snd] in *; [|discriminate Hp].
    cbn [publishRosTopics publish on_globals globals published].
    rewrite H2; [reflexivity|].
    rewrite Hc. apply Hnan, Hn.
Qed.

Lemma calculateMotorCommands_undefined_unless_finite_witness :
  (let g := commanded (atof "0.3") zero
              (observing (atof "0.1") (atof "0.2") Globals0) in
   calculateMotorCommands g <> None /\
   is_finite (x (linear (twist (odom g)))) = true) /\
  serialActivityTimer Z.of_nat (line "USL,1,150.0")
    (on_globals (driveCommandHandler (setpoint S754_nan zero))
                (main_world "rover" [])) = Undefined.
Proof.
  split.
  - cbv zeta. split; [vm_compute; discriminate|].
    eapply (proj1 calculateMotorCommands_undefined_unless_finite
              (commanded (atof "0.3") zero
                 (observing (atof "0.1") (atof "0.2") Globals0))).
    vm_compute. reflexivity.
  - apply (proj2 (proj2 calculateMotorCommands_undefined_unless_finite)
             (setpoint S754_nan zero) Z.of_nat (line "USL,1,150.0")
             (main_world "rover" [])).
    + left. reflexivity.
    + vm_compute. reflexivity.
Defined.

End TraceSpec.

(* ===================================================================== *)
(** ** The commands written to the serial line *)
(* ===================================================================== *)

Module CommandSpec.
Import IEEE Libc Ros ABridge Wire Node Lines Trace LinesSpec BufferSpec
       FrameSpec TraceSpec.
Local Open Scope string_scope.
Local Open Scope Z_scope.

(** No conversion of [printf] used by the file writes a line feed. *)
Lemma string_of_uint_no_LF (d : Decimal.uint) :
  has_char "010" (NilEmpty.string_of_uint d) = false.
Proof. induction d; simpl; auto. Qed.

Lemma digits_no_LF (d : Decimal.uint) :
  has_char "010" (NilZero.string_of_uint d) = false.
Proof. destruct d; try reflexivity; apply (string_of_uint_no_LF (_ d)). Qed.

Lemma format_d_no_LF (n : Z) : has_char "010" (format_d n) = false.
Proof.
  unfold format_d, NilZero.string_of_int.
  destruct (Z.to_int n); [|cbn [has_char Ascii.eqb Bool.eqb orb]];
    apply digits_no_LF.
Qed.

Lemma digits_of_no_LF (n : Z) : has_char "010" (digits_of n) = false.
Proof. apply digits_no_LF. Qed.

Lemma substring_no_LF (s : string) :
  has_char "010" s = false ->
  forall n m, has_char "010" (substring n m s) = false.
Proof.
  induction s as [|c s IH]; intros H n m.
  - destruct n, m; reflexivity.
  - simpl in H. apply orb_false_iff in H. destruct H as [Hc Hs].
    destruct n, m; simpl; try reflexivity; try (apply IH; exact Hs).
    rewrite Hc. apply IH. exact Hs.
Qed.

Lemma strip_zeros_no_LF (s : string) :
  has_char "010" s = false -> has_char "010" (strip_zeros s) = false.
Proof.
  induction s as [|c s IH]; intros H; [reflexivity|].
  simpl in H. apply orb_false_iff in H. destruct H as [Hc Hs].
  specialize (IH Hs). cbn [strip_zeros].
  destruct (strip_zeros s) as [|c' s'].
  - destruct (Ascii.eqb c "0"); [reflexivity|]. simpl. rewrite Hc. reflexivity.
  - cbn [has_char] in *. rewrite Hc. exact IH.
Qed.

Lemma with_fraction_no_LF (ip fp : string) :
  has_char "010" ip = false -> has_char "010" fp = false ->
  has_char "010" (with_fraction ip fp) = false.
Proof.
  intros Hi Hf. unfold with_fraction.
  pose proof (strip_zeros_no_LF fp Hf) as H.
  destruct (strip_zeros fp) as [|c s]; [exact Hi|].
  rewrite !has_char_append, Hi, H. reflexivity.
Qed.

Lemma zeros_no_LF (n : nat) : has_char "010" (zeros n) = false.
Proof. induction n; simpl; auto. Qed.

Lemma format_exp_no_LF (X : Z) : has_char "010" (format_exp X) = false.
Proof.
  unfold format_exp. rewrite !has_char_append, digits_of_no_LF.
  destruct (X <? 0), (Z.abs X <? 10); reflexivity.
Qed.

Lemma format_g_pos_no_LF (P n d : Z) :
  has_char "010" (format_g_pos P n d) = false.
Proof.
  unfold format_g_pos.
  destruct (10 ^ P <=? scaled_digits n d (P - 1 - exponent10 n d)).
  - destruct ((-4 <=? exponent10 n d + 1) && (exponent10 n d + 1 <? P)).
    + destruct (0 <=? exponent10 n d + 1).
      * apply with_fraction_no_LF; apply substring_no_LF, digits_of_no_LF.
      * apply with_fraction_no_LF; [reflexivity|].
        rewrite has_char_append, zeros_no_LF, digits_of_no_LF. reflexivity.
    + rewrite has_char_append, format_exp_no_LF, orb_false_r.
      apply with_fraction_no_LF; apply substring_no_LF, digits_of_no_LF.
  - destruct ((-4 <=? exponent10 n d) && (exponent10 n d <? P)).
    + destruct (0 <=? exponent10 n d).
      * apply with_fraction_no_LF; apply substring_no_LF, digits_of_no_LF.
      * apply with_fraction_no_LF; [reflexivity|].
        rewrite has_char_append, zeros_no_LF, digits_of_no_LF. reflexivity.
    + rewrite has_char_append, format_exp_no_LF, orb_false_r.
      apply with_fraction_no_LF; apply substring_no_LF, digits_of_no_LF.
Qed.

Lemma format_g_no_LF (P : Z) (v : float64) :
  has_char "010" (format_g P v) = false.
Proof.
  destruct v as [s|s| |s m e]; cbn [format_g];
    try (destruct s; reflexivity); [reflexivity|].
  rewrite has_char_append.
  replace (has_char "010" (if s then "-" else "")) with false
    by (destruct s; reflexivity).
  destruct e; apply format_g_pos_no_LF.
Qed.

Lemma one_line_line (body : string) :
  has_char "010" body = false -> one_line (line body) = true.
Proof.
  unfold line, LF. induction body as [|c body IH]; intros H; [reflexivity|].
  simpl in H. apply orb_false_iff in H. destruct H as [Hc Hb].
  cbn [append one_line]. rewrite Hc. apply IH. exact Hb.
Qed.

Lemma format_moveCmd_line (motor_left motor_right : Z) :
  command_line (format_moveCmd motor_left motor_right) = true.
Proof.
  unfold command_line. apply andb_true_iff. split; [|reflexivity].
  unfold format_moveCmd.
  change (String "010" "") with LF.
  rewrite <- !append_assoc.
  apply (one_line_line
           ((("v," ++ format_d motor_left) ++ ",") ++ format_d motor_right)).
  rewrite !has_char_append, !format_d_no_LF. reflexivity.
Qed.

Lemma angle_cmd_line (tag : string) (angle : float32) :
  tag = "f" \/ tag = "w" -> command_line (angle_cmd tag angle) = true.
Proof.
  intros Ht. unfold command_line, angle_cmd.
  change (String "010" "") with LF.
  destruct (ltb (to_double angle) small_angle).
  - destruct Ht as [->| ->]; reflexivity.
  - apply andb_true_iff. split; [|destruct Ht as [->| ->]; reflexivity].
    rewrite <- !append_assoc.
    apply (one_line_line ((tag ++ ",") ++ format_g 4 (to_double angle))).
    rewrite !has_char_append, format_g_no_LF.
    destruct Ht as [->| ->]; reflexivity.
Qed.

Lemma callback_commands (ev : Event) (w w' : World) :
  Forall (fun s => command_line s = true) (usb_sent (globals w)) ->
  final (callback ev w) = Some w' ->
  Forall (fun s => command_line s = true) (usb_sent (globals w')).
Proof.
  intros Hw.
  destruct ev as [message|angle|angle|message|clock data|]; cbn [callback final];
    intros H; try (injection H as <-; exact Hw).
  - injection H as <-. cbn [on_globals globals fingerAngleHandler sendData usb_sent].
    apply Forall_app. split; [exact Hw|].
    constructor; [|constructor]. apply angle_cmd_line. left. reflexivity.
  - injection H as <-. cbn [on_globals globals wristAngleHandler sendData usb_sent].
    apply Forall_app. split; [exact Hw|].
    constructor; [|constructor]. apply angle_cmd_line. right. reflexivity.
  - apply serialActivityTimer_cases in H. cbv zeta in H.
    pose proof (parseData_keeps usb_sent clock data (sendData dataCmd (globals w))
                  (fun _ _ => eq_refl) (fun _ _ => eq_refl) (fun _ _ => eq_refl)
                  (fun _ _ => eq_refl) (fun _ _ => eq_refl) (fun _ _ => eq_refl)
                  (fun _ _ => eq_refl)) as Hsent.
    cbn [sendData usb_sent] in Hsent.
    assert (H2 : Forall (fun s => command_line s = true)
                   (usb_sent (snd (parseData clock data
                                     (sendData dataCmd (globals w)))))).
    { rewrite Hsent. apply Forall_app. split; [exact Hw|].
      constructor; [reflexivity|constructor]. }
    destruct H as [[-> _]|(l & r & _ & -> & _)]; [exact H2|].
    cbn [sendData usb_sent]. apply Forall_app. split; [exact H2|].
    constructor; [apply format_moveCmd_line|constructor].
Qed.

(** X12.  Everything the node ever writes to the serial line is a command
    of the protocol: a text that starts with [d], [v], [f] or [w] and has
    one line feed, at its end.  No number is formatted with a line feed in
    it, whatever the duty or the angle, NaN and infinities included. *)
Theorem spin_sends_command_lines (hostname : string) (argv : list string)
        (evs : list Event) (w : World) :
  final (spin evs (main_world hostname argv)) = Some w ->
  Forall (fun s => command_line s = true) (usb_sent (globals w)).
Proof.
  apply (spin_invariant
           (fun w => Forall (fun s => command_line s = true)
                            (usb_sent (globals w)))
           callback_commands).
  constructor.
Qed.

Lemma spin_sends_command_lines_witness :
  let evs := [ fingerAngleCmd (to_float (atof "1.5708"));
               wristAngleCmd S754_nan;
               publishTimer Z.of_nat (line "USL,1,150.0") ] in
  (exists w, final (spin evs (main_world "rover" [])) = Some w /\
             List.length (usb_sent (globals w)) = 4%nat) /\
  forall w, final (spin evs (main_world "rover" [])) = Some w ->
    Forall (fun s => command_line s = true) (usb_sent (globals w)).
Proof.
  cbv zeta. split; [eexists; split; vm_compute; reflexivity|].
  intros w H.
  exact (spin_sends_command_lines "rover" []
           [ fingerAngleCmd (to_float (atof "1.5708"));
             wristAngleCmd S754_nan;
             publishTimer Z.of_nat (line "USL,1,150.0") ] w H).
Defined.

End CommandSpec.

(* ===================================================================== *)
(** ** The motor command and its buffer *)
(* ===================================================================== *)

Module MotorSpec.
Import IEEE Libc Ros ABridge Wire Node Lines Trace.
Local Open Scope string_scope.
Local Open Scope Z_scope.

Lemma check_next_iter (check : Z -> bool) (a : Z) (n : N) :
  forall b,
    fst (N.iter n (check_next check) (a, b)) = a + Z.of_N n /\
    (snd (N.iter n (check_next check) (a, b)) = true ->
     b = true /\ forall k, a <= k < a + Z.of_N n -> check k = true).
Proof.
  induction n as [|n IH] using N.peano_ind; intros b.
  - simpl. split; [lia|]. intros ->. split; [reflexivity|]. intros k Hk. lia.
  - rewrite N.iter_succ. destruct (IH b) as [Hf Hs].
    unfold check_next at 1. cbn [fst snd]. rewrite Hf. split; [lia|].
    intros H. apply andb_true_iff in H. destruct H as [H1 H2].
    rewrite Hf in H2.
    destruct (Hs H1) as [Hb Hall]. split; [exact Hb|].
    intros k Hk. destruct (Z.eq_dec k (a + Z.of_N n)) as [->|Hne];
      [exact H2 | apply Hall; lia].
Qed.

(** Every duty from -9999 to 99999 is written with five characters at
    most: all of them are tried. *)
Lemma short_duty_range (n : Z) : -9999 <= n <= 99999 -> short_duty n = true.
Proof.
  intros H.
  assert (Hall : snd (N.iter 109999 (check_next short_duty) (-9999, true)) = true)
    by (vm_compute; reflexivity).
  apply (proj2 (check_next_iter short_duty (-9999) 109999 true)) in Hall.
  apply (proj2 Hall). lia.
Qed.

Lemma append_length (a b : string) :
  String.length (a ++ b) = (String.length a + String.length b)%nat.
Proof. induction a as [|c a IH]; simpl; [reflexivity|]. rewrite IH. reflexivity. Qed.

(** X13.  [moveCmd] has sixteen characters: the motor command and its
    terminator fit when both duties are between -9999 and 99999, and the
    command is then sent; they do not fit for every pair of duties the
    arithmetic can give, as an observed velocity of -10000 with a zero
    setpoint shows, for which [sprintf] writes past the end of
    [moveCmd]. *)
Theorem calculateMotorCommands_fits_moveCmd :
  (forall g motor_left motor_right,
      motor_duties g = Some (motor_left, motor_right) ->
      -9999 <= motor_left <= 99999 ->
      -9999 <= motor_right <= 99999 ->
      calculateMotorCommands g =
      Some (sendData (format_moveCmd motor_left motor_right) g)) /\
  (let g := observing (atof "-10000") zero Globals0 in
   motor_duties g = Some (-100000, -100000) /\
   calculateMotorCommands g = None).
Proof.
  split.
  - intros g l r Hm Hl Hr. unfold calculateMotorCommands. rewrite Hm.
    apply short_duty_range in Hl, Hr. unfold short_duty in Hl, Hr.
    apply Nat.leb_le in Hl, Hr.
    replace (String.length (format_moveCmd l r) <? 16)%nat with true;
      [reflexivity|].
    symmetry. apply Nat.ltb_lt. unfold format_moveCmd.
    rewrite !append_length. cbn [String.length]. lia.
  - cbv zeta. split; vm_compute; reflexivity.
Qed.

Lemma calculateMotorCommands_fits_moveCmd_witness :
  let g := commanded (atof "0.3") zero (observing (atof "0.1") (atof "0.2") Globals0) in
  calculateMotorCommands g = Some (sendData (format_moveCmd (-3) 1) g).
Proof.
  cbv zeta.
  apply (proj1 calculateMotorCommands_fits_moveCmd
           (commanded (atof "0.3") zero
              (observing (atof "0.1") (atof "0.2") Globals0)) (-3) 1);
    [vm_compute; reflexivity | lia | lia].
Defined.

Lemma sub64_diag (a : float64) :
  is_finite a = true -> exists s, sub64 a a = S754_zero s.
Proof.
  destruct a as [s|s| |s m e]; try discriminate; intros _.
  - destruct s; eexists; reflexivity.
  - exists false. unfold sub64. cbn [SFsub]. rewrite Z.sub_diag. reflexivity.
Qed.

(** X14.  Without error, the observed velocity being the finite setpoint in
    [linear.x] and in [angular.z], both duties are zero and the command
    sent is [v,0,0]. *)
Theorem calculateMotorCommands_zero_error (g : Globals) :
  is_finite (x (linear (cmd_vel_msg g))) = true ->
  is_finite (z (angular (cmd_vel_msg g))) = true ->
  x (linear (twist (odom g))) = x (linear (cmd_vel_msg g)) ->
  z (angular (twist (odom g))) = z (angular (cmd_vel_msg g)) ->
  calculateMotorCommands g = Some (sendData (line "v,0,0") g).
Proof.
  intros Fx Fz Ex Ez. unfold calculateMotorCommands, motor_duties.
  rewrite Ex, Ez.
  destruct (sub64_diag _ Fx) as [sx ->]. destruct (sub64_diag _ Fz) as [sz ->].
  destruct sx, sz; reflexivity.
Qed.

Lemma calculateMotorCommands_zero_error_witness :
  let g := commanded (atof "0.25") (atof "-0.1")
             (observing (atof "0.25") (atof "-0.1") Globals0) in
  calculateMotorCommands g = Some (sendData (line "v,0,0") g).
Proof.
  cbv zeta.
  apply (calculateMotorCommands_zero_error
           (commanded (atof "0.25") (atof "-0.1")
              (observing (atof "0.25") (atof "-0.1") Globals0)));
    vm_compute; reflexivity.
Defined.

End MotorSpec.

(* ===================================================================== *)
(** ** The mode, written and never read *)
(* ===================================================================== *)

Module ModeSpec.
Import IEEE Libc Ros ABridge Wire Node Lines Trace.
Local Open Scope string_scope.

Lemma respects_ret {A} (f : Globals -> Globals) (a : A) : respects f (ret a).
Proof. intros g. reflexivity. Qed.

Lemma respects_bind {A B} (f : Globals -> Globals) (m : Stmt A)
      (k : A -> Stmt B) :
  respects f m -> (forall a, respects f (k a)) -> respects f (bind m k).
Proof.
  intros Hm Hk g. unfold bind. rewrite Hm.
  destruct (m g) as [[a|e] g1]; cbn [fst snd]; [apply Hk | reflexivity].
Qed.

Lemma respects_assign (f h : Globals -> Globals) :
  (forall g, h (f g) = f (h g)) -> respects f (assign h).
Proof. intros H g. unfold assign. rewrite H. reflexivity. Qed.

Lemma respects_at (f : Globals -> Globals) (v : list string) (i : nat) :
  respects f (at_ v i).
Proof. intros g. unfold at_. destruct (nth_error v i); reflexivity. Qed.

Ltac through_respects :=
  repeat first
    [ apply respects_bind; [|intros ?]
    | apply respects_at
    | apply respects_ret
    | apply respects_assign; intros ?; reflexivity ].

Lemma parseFields_respects_mode (m : Z) (now : Time) (dataSet : list string) :
  respects (with_currentMode m) (parseFields now dataSet).
Proof.
  unfold parseFields.
  destruct (3 <=? List.length dataSet)%nat; [|apply respects_ret].
  apply respects_bind; [apply respects_at|]. intros flag.
  destruct (String.eqb flag "1"); [|apply respects_ret].
  unfold tag_is, parseGRF, parseGRW, parseIMU, parseODOM, parseSonar, field.
  repeat (apply respects_bind;
          [apply respects_bind; [apply respects_at|intros ?; apply respects_ret]|];
          intros [|]; [through_respects|]).
  apply respects_ret.
Qed.

Lemma parseSentences_respects_mode (m : Z) (clock : nat -> Time)
      (sentences : list string) :
  forall i, respects (with_currentMode m) (parseSentences clock i sentences).
Proof.
  induction sentences as [|s rest IH]; intros i; [apply respects_ret|].
  cbn [parseSentences]. apply respects_bind.
  - apply parseFields_respects_mode.
  - intros _. apply IH.
Qed.

(** A callback other than [modeHandler] does not read the mode. *)
Lemma callback_forget_mode (ev : Event) (w : World) :
  is_mode ev = false ->
  callback ev (forget_mode w) = outcome_map forget_mode (callback ev w).
Proof.
  destruct ev as [message|angle|angle|message|clock data|]; intros H;
    try discriminate H; try reflexivity.
  cbn [callback]. unfold serialActivityTimer. cbv zeta.
  cbn [forget_mode on_globals globals published].
  change (sendData dataCmd (with_currentMode 0 (globals w)))
    with (with_currentMode 0 (sendData dataCmd (globals w))).
  unfold parseData. rewrite parseSentences_respects_mode.
  destruct (parseSentences clock 0 (getlines "010" data)
              (sendData dataCmd (globals w))) as [[u|e] g2];
    cbn [fst snd]; [|reflexivity].
  cbn [publishRosTopics publish on_globals globals published].
  unfold calculateMotorCommands.
  change (motor_duties (with_currentMode 0 g2)) with (motor_duties g2).
  destruct (motor_duties g2) as [[l r]|]; [|reflexivity].
  destruct (String.length (format_moveCmd l r) <? 16)%nat; reflexivity.
Qed.

Lemma spin_forget_mode (evs : list Event) :
  forall w,
    outcome_map forget_mode (spin evs w) =
    spin (without_mode evs) (forget_mode w).
Proof.
  induction evs as [|ev rest IH]; intros w; [reflexivity|].
  unfold without_mode. cbn [spin filter].
  destruct (is_mode ev) eqn:Em; cbn [negb].
  - destruct ev; try discriminate Em. cbn [callback]. rewrite IH. reflexivity.
  - cbn [spin]. rewrite (callback_forget_mode ev w Em).
    destruct (callback ev w) as [w1|e w1|]; cbn [outcome_map];
      [apply IH | reflexivity | reflexivity].
Qed.

(** X15.  The mode is written by [modeHandler] and read by nothing: a run
    ends as the run without its mode messages does, in what it returns or
    throws, in the globals but for [currentMode], in what it has published
    and in what it has sent to the serial line. *)
Theorem spin_mode_is_never_read (evs : list Event) (w : World) :
  outcome_map forget_mode (spin evs w) =
  outcome_map forget_mode (spin (without_mode evs) w).
Proof.
  rewrite !spin_forget_mode. f_equal.
  unfold without_mode. induction evs as [|ev rest IH]; [reflexivity|].
  cbn [filter]. destruct (negb (is_mode ev)) eqn:E; [|exact IH].
  cbn [filter]. rewrite E. f_equal. exact IH.
Qed.

End ModeSpec.

(* ===================================================================== *)
(** ** [limit] applied twice *)
(* ===================================================================== *)

Module ClampSpec.
Import IEEE Libc Ros ABridge Wire.
Local Open Scope string_scope.

Lemma SFltb_irrefl (a : spec_float) : SFltb a a = false.
Proof.
  destruct a as [s|s| |s m e]; unfold SFltb; cbn [SFcompare];
    try (destruct s; reflexivity); [reflexivity|].
  rewrite Z.compare_refl, Pos.compare_cont_refl. destruct s; reflexivity.
Qed.

(** X16.  For a bound that is not below its own opposite, so for every
    bound that is not negative and for NaN, [limit] changes nothing in a
    value it has returned; for a negative bound it does: [limit] of 0 for
    the bound -1 is -1, and [limit] of that is 1. *)
Theorem limit_idempotent :
  (forall val max : float32,
      ltb max (neg max) = false ->
      limit (limit val max) max = limit val max) /\
  (let zero32 : float32 := S754_zero false in
   let minus_one : float32 := S754_finite true 1 0 in
   limit zero32 minus_one = minus_one /\
   limit (limit zero32 minus_one) minus_one = neg minus_one).
Proof.
  split; [|repeat split].
  intros val max H. unfold limit, gtb, ltb, neg in *.
  destruct (SFltb max val) eqn:E1.
  - rewrite SFltb_irrefl, H. reflexivity.
  - destruct (SFltb val (SFopp max)) eqn:E2.
    + rewrite H, SFltb_irrefl. reflexivity.
    + rewrite E1, E2. reflexivity.
Qed.

Lemma limit_idempotent_witness :
  limit (limit (to_float (atof "10.0")) lin_bound) lin_bound =
  limit (to_float (atof "10.0")) lin_bound.
Proof.
  apply (proj1 limit_idempotent (to_float (atof "10.0")) lin_bound).
  reflexivity.
Defined.

End ClampSpec.

(* ===================================================================== *)
(** ** When decoding throws, and which field goes where *)
(* ===================================================================== *)

Module ThrowSpec.
Import IEEE Libc Ros ABridge Wire Node Lines LinesSpec BufferSpec.
Local Open Scope string_scope.

Lemma parseSentence_throws (now : Time) (sentence : string) (g : Globals) :
  fst (parseSentence now sentence g) =
  if short_record sentence then Throw out_of_range else Normal tt.
Proof.
  unfold parseSentence, short_record. cbv zeta.
  destruct (getlines "," sentence) as [|t [|f [|w2 rest]]]; try reflexivity.
  unfold parseFields. cbn [List.length Nat.leb].
  unfold bind at 1. unfold at_ at 1. cbn [nth_error].
  destruct (String.eqb f "1"); [|reflexivity]. cbn [andb].
  unfold tag_is, bind, at_, ret. cbn [nth_error].
  destruct (String.eqb t "GRF") eqn:E1;
    [apply String.eqb_eq in E1; subst t; run_fields; reflexivity|].
  destruct (String.eqb t "GRW") eqn:E2;
    [apply String.eqb_eq in E2; subst t; run_fields; reflexivity|].
  destruct (String.eqb t "IMU") eqn:E3.
  { clear E1 E2. apply String.eqb_eq in E3. subst t.
    do 8 (destruct rest as [|? rest]; [run_fields; reflexivity|]).
    run_fields; reflexivity. }
  destruct (String.eqb t "ODOM") eqn:E4.
  { clear E1 E2 E3. apply String.eqb_eq in E4. subst t.
    do 5 (destruct rest as [|? rest]; [run_fields; reflexivity|]).
    run_fields; reflexivity. }
  cbn [andb orb].
  destruct (String.eqb t "USL"); [reflexivity|].
  destruct (String.eqb t "USC"); [reflexivity|].
  destruct (String.eqb t "USR"); reflexivity.
Qed.

Lemma parseSentences_throws (clock : nat -> Time) (sentences : list string) :
  forall i g,
    fst (parseSentences clock i sentences g) =
    if existsb short_record sentences then Throw out_of_range else Normal tt.
Proof.
  induction sentences as [|s rest IH]; intros i g; [reflexivity|].
  cbn [parseSentences existsb]. unfold bind.
  pose proof (parseSentence_throws (clock i) s g) as H.
  destruct (parseSentence (clock i) s g) as [[u|e] g1]; cbn [fst] in H;
    destruct (short_record s); try discriminate H.
  - cbn [orb]. apply IH.
  - exact H.
Qed.

(** X17.  Decoding a buffer throws exactly when one of its sentences is an
    [IMU] sentence of three to ten fields or an [ODOM] sentence of three to
    seven, with the flag [1]; what it throws is [std::out_of_range].  No
    other text makes it throw: not a sentence of another tag, however
    short, not a field that is no number, not an empty buffer. *)
Theorem parseData_throws_exactly :
  (forall now sentence g,
      fst (parseSentence now sentence g) =
      if short_record sentence then Throw out_of_range else Normal tt) /\
  (forall clock str g,
      fst (parseData clock str g) =
      if existsb short_record (getlines "010" str)
      then Throw out_of_range else Normal tt).
Proof.
  split.
  - intros now sentence g. apply parseSentence_throws.
  - intros clock str g. unfold parseData. apply parseSentences_throws.
Qed.

(** X18.  Which field goes where in the three branches with an angle: field
    2 of a [GRF] or [GRW] sentence is the roll of the finger or wrist
    quaternion, pitch and yaw being zero; of an [IMU] sentence fields 2 and
    4 are the x and z accelerations, fields 5 to 7 the angular velocity and
    fields 8 to 10 roll, pitch and yaw of the orientation.  Each stamps its
    own message and the gripper sentences leave each other's message. *)
Theorem parseSentence_field_map (now : Time) (sentence : string) (g : Globals) :
  (forall w2 rest,
      getlines "," sentence = "GRF" :: "1" :: w2 :: rest ->
      exists g', parseSentence now sentence g = (Normal tt, g') /\
        quaternion (fingerAngle g') =
          createQuaternionMsgFromRollPitchYaw (atof w2) zero zero /\
        stamp (qs_header (fingerAngle g')) = now /\
        wristAngle g' = wristAngle g) /\
  (forall w2 rest,
      getlines "," sentence = "GRW" :: "1" :: w2 :: rest ->
      exists g', parseSentence now sentence g = (Normal tt, g') /\
        quaternion (wristAngle g') =
          createQuaternionMsgFromRollPitchYaw (atof w2) zero zero /\
        stamp (qs_header (wristAngle g')) = now /\
        fingerAngle g' = fingerAngle g) /\
  (forall w2 w3 w4 w5 w6 w7 w8 w9 w10 rest,
      getlines "," sentence =
        "IMU" :: "1" :: w2 :: w3 :: w4 :: w5 :: w6 :: w7 :: w8 :: w9 :: w10
              :: rest ->
      exists g', parseSentence now sentence g = (Normal tt, g') /\
        linear_acceleration (imu g') =
          {| x := atof w2; y := zero; z := atof w4 |} /\
        angular_velocity (imu g') =
          {| x := atof w5; y := atof w6; z := atof w7 |} /\
        orientation (imu g') =
          createQuaternionMsgFromRollPitchYaw (atof w8) (atof w9) (atof w10) /\
        stamp (imu_header (imu g')) = now).
Proof.
  unfold parseSentence.
  split; [|split]; intros; match goal with H : getlines _ _ = _ |- _ => rewrite H end;
    (eexists; split; [run_fields; reflexivity | repeat split]).
Qed.

Lemma parseSentence_field_map_witness :
  (exists g', parseSentence 5 "GRF,1,0.75" Globals0 = (Normal tt, g') /\
     quaternion (fingerAngle g') =
       createQuaternionMsgFromRollPitchYaw (atof "0.75") zero zero /\
     stamp (qs_header (fingerAngle g')) = 5%Z /\
     wristAngle g' = wristAngle Globals0) /\
  (exists g', parseSentence 5 "IMU,1,0.5,7,9.8,1,2,3,0.1,0.2,1.5" Globals0
                = (Normal tt, g') /\
     linear_acceleration (imu g') =
       {| x := atof "0.5"; y := zero; z := atof "9.8" |} /\
     angular_velocity (imu g') =
       {| x := atof "1"; y := atof "2"; z := atof "3" |} /\
     orientation (imu g') =
       createQuaternionMsgFromRollPitchYaw (atof "0.1") (atof "0.2") (atof "1.5") /\
     stamp (imu_header (imu g')) = 5%Z).
Proof.
  split.
  - apply (proj1 (parseSentence_field_map 5 "GRF,1,0.75" Globals0) "0.75" []).
    vm_compute. reflexivity.
  - apply (proj2 (proj2 (parseSentence_field_map 5
                           "IMU,1,0.5,7,9.8,1,2,3,0.1,0.2,1.5" Globals0))
                 "0.5" "7" "9.8" "1" "2" "3" "0.1" "0.2" "1.5" []).
    vm_compute. reflexivity.
Defined.

End ThrowSpec.
